(** * Yield accounting of a vault depositor: the two period engines

    The repository holds two programs that cut a user's deposit / withdraw
    history into periods and compute the interest of each period:

    - [Overview]: class [EnhancedMorphoAPYCalculator] of
      [script/overview.ts] (periods run from the previous interaction to
      the current one, interest kept in [bigint]);
    - [Tracker]: class [VaultPeriodTracker] (periods run from an
      interaction to the next one, with rewards and USD figures).

    Conventions of the embedding.
    - A [bigint] is a [Z]; [bigint] division truncates toward zero
      ([Z.quot]) and throws on a zero divisor ([bigint_div]).
    - A JavaScript [number] is modelled by the rational it denotes ([Q]),
      with exact arithmetic: rounding of the binary64 operations is not
      modelled.  Every concrete input used below is chosen so that the
      prices and values of the binary64 computation are exact and agree
      with the rational ones.
    - [Math.pow] is modelled on positive bases by [Rpower] over [R]; the
      annualised figures are therefore functions into [R], kept apart from
      the records so that the records stay computable.
    - A call that may throw returns an [option]; [None] is the exception. *)

From Stdlib Require Import ZArith QArith Qround Qreals Reals Lra Lia List Bool String.
From Stdlib Require Import Sorting.Sorted Sorting.Permutation.
From stdpp Require Import gmap strings.
Import ListNotations.
Open Scope Z_scope.

(** ** Shared vocabulary *)

Inductive InteractionType := deposit | withdraw.

Definition InteractionType_eqb (a b : InteractionType) : bool :=
  match a, b with
  | deposit, deposit | withdraw, withdraw => true
  | _, _ => false
  end.

(** [10n ** 18n], also [BigInt(1e18)]. *)
Definition SCALE : Z := 10 ^ 18.

(** [BigInt(Math.floor(p * 1e18))]. *)
Definition scaledPrice (p : Q) : Z := Qfloor (p * inject_Z SCALE).

(** [a / b] on [bigint]: a [RangeError] on [b = 0n], truncation otherwise. *)
Definition bigint_div (a b : Z) : option Z :=
  if b =? 0 then None else Some (Z.quot a b).

(** [x < y] on numbers.  The duration tests compare [seconds / 86400]
    with [0.04] for an integer number of seconds; the quotient is 0.04
    only at 3456 seconds, where binary64 division returns the double of
    the literal [0.04], so the rational test and the binary64 test
    agree on every integer. *)
Definition Qltb (x y : Q) : bool := negb (Qle_bool y x).

(** [Number(seconds) / 86400]. *)
Definition daysOfSeconds (seconds : Z) : Q := inject_Z seconds / 86400.

(** [Number(formatEther(wei))]: the value in ether. *)
Definition etherOf (wei : Z) : Q := inject_Z wei / inject_Z SCALE.

(** [totalSupply > 0 ? totalAssets / totalSupply : 1.0], on the two
    [Number(formatEther(..))] readings. *)
Definition priceOfTotals (totalAssets totalSupply : Z) : Q :=
  if Qltb 0 (etherOf totalSupply)
  then etherOf totalAssets / etherOf totalSupply
  else 1.

(** [Array.prototype.sort(cmp)]: the sort is stable, and for a consistent
    comparator its result is the one stable sorted arrangement, which
    insertion from the right computes.  [cmp a b] is the comparator's
    number; only its sign matters. *)
Section ArraySort.
Context {A : Type} (cmp : A -> A -> Z).

Fixpoint sort_insert (x : A) (l : list A) : list A :=
  match l with
  | [] => [x]
  | y :: l' => if cmp x y <=? 0 then x :: y :: l' else y :: sort_insert x l'
  end.

Fixpoint array_sort (l : list A) : list A :=
  match l with
  | [] => []
  | x :: l' => sort_insert x (array_sort l')
  end.

End ArraySort.

(** A small exception monad for the code paths that can throw. *)
Definition bind {A B : Type} (m : option A) (k : A -> option B) : option B :=
  match m with Some a => k a | None => None end.
Notation "'let?' x ':=' m 'in' k" := (bind m (fun x => k))
  (at level 10, x name, m at level 100, k at level 200).

(** A [for] loop over the indices [0 .. n-1] whose body may throw. *)
Fixpoint for_each {St : Type} (body : St -> nat -> option St) (idx : list nat)
    (s : St) : option St :=
  match idx with
  | [] => Some s
  | i :: rest => let? s' := body s i in for_each body rest s'
  end.

(** [[...new Set(blockNumbers)]] and [Array.from(set)]: each block once,
    in order of first appearance. *)
Fixpoint uniqueBlocks (seen : list Z) (blockNumbers : list Z) : list Z :=
  match blockNumbers with
  | [] => []
  | b :: rest =>
      if existsb (Z.eqb b) seen then uniqueBlocks seen rest
      else b :: uniqueBlocks (b :: seen) rest
  end.

(** ** [script/overview.ts]: EnhancedMorphoAPYCalculator *)
Module Overview.

Record UserInteraction := {
  blockNumber : Z;
  timestamp : Z;
  type : InteractionType;
  assets : Z;
  shares : Z;
  pricePerShare : Q
}.

(** [EnhancedInterestPeriod], without the two ISO date strings.  The
    [apy] field is the function [apy] below. *)
Record EnhancedInterestPeriod := {
  periodIndex : nat;
  startBlock : Z;
  endBlock : Z;
  startTimestamp : Z;
  endTimestamp : Z;
  startPrice : Q;
  endPrice : Q;
  durationDays : Q;
  startValue : Q;
  endValue : Q;
  interestAccrued : Q;
  interestPercent : Q;
  sharesHeldBigint : Z;
  startValueBigint : Z;
  endValueBigint : Z;
  interestAccruedBigint : Z;
  cumulativeInterest : Z;
  cumulativeInterestPercent : Q
}.

Record BlockData := {
  cachedTimestamp : option Z;
  cachedPricePerShare : option Q
}.

(** A log entry of the vault: [Deposit] or [Withdraw] of [owner]. *)
Record VaultEvent := {
  eventBlock : Z;
  eventAssets : Z;
  eventShares : Z
}.

(** The chain as the period pass of the calculator sees it.
    [latestBlock] is the number and timestamp that
    [getBlock({ blockTag: "latest" })] answers; a rejection of that call
    is not modelled, the statements about the pass are about the runs in
    which it answers.  [readTotals b k] is the pair ([totalAssets],
    [totalSupply]) read at block [b] when [k] retries are left, [None]
    when either read throws. *)
Record Client := {
  latestBlock : Z * Z;
  readTotals : Z -> nat -> option (Z * Z)
}.

Definition cachedPrice (cache : gmap Z BlockData) (b : Z) : option Q :=
  match cache !! b with
  | Some d => cachedPricePerShare d
  | None => None
  end.

Definition setCachedPrice (cache : gmap Z BlockData) (b : Z) (p : Q)
  : gmap Z BlockData :=
  <[ b := {| cachedTimestamp := match cache !! b with
                                | Some d => cachedTimestamp d
                                | None => None
                                end;
             cachedPricePerShare := Some p |} ]> cache.

(** [getPricePerShareAtBlock(blockNumber, retryCount = 3)]. *)
Fixpoint getPricePerShareAtBlock (client : Client) (cache : gmap Z BlockData)
    (b : Z) (retryCount : nat) : Q * gmap Z BlockData :=
  match cachedPrice cache b with
  | Some p => (p, cache)
  | None =>
      match readTotals client b retryCount with
      | Some (totalAssets, totalSupply) =>
          let p := priceOfTotals totalAssets totalSupply in
          (p, setCachedPrice cache b p)
      | None =>
          match retryCount with
          | S n => getPricePerShareAtBlock client cache b n
          | O => (1%Q, cache)
          end
      end
  end.

(** The last loop of [fetchUserInteractions]: deposits first, then
    withdrawals, an event being dropped when its block has no timestamp or
    no price in the cache. *)
Definition interactionOfEvent (cache : gmap Z BlockData)
    (ev : InteractionType * VaultEvent) : list UserInteraction :=
  match cache !! eventBlock (snd ev) with
  | Some {| cachedTimestamp := Some t; cachedPricePerShare := Some p |} =>
      [ {| blockNumber := eventBlock (snd ev); timestamp := t; type := fst ev;
           assets := eventAssets (snd ev); shares := eventShares (snd ev);
           pricePerShare := p |} ]
  | _ => []
  end.

Definition fetchUserInteractions (cache : gmap Z BlockData)
    (depositEvents withdrawEvents : list VaultEvent) : list UserInteraction :=
  flat_map (interactionOfEvent cache)
    (map (pair deposit) depositEvents ++ map (pair withdraw) withdrawEvents).

(** [(a, b) => Number(a.blockNumber - b.blockNumber)]. *)
Definition byBlock (a b : UserInteraction) : Z := blockNumber a - blockNumber b.

Definition sortInteractions (us : list UserInteraction) : list UserInteraction :=
  array_sort byBlock us.

Definition applyInteraction (currentShares : Z) (x : UserInteraction) : Z :=
  match type x with
  | deposit => currentShares + shares x
  | withdraw => currentShares - shares x
  end.

(** [calculateTotalDepositedUpToInteraction(interactionIndex)]. *)
Definition calculateTotalDepositedUpToInteraction (us : list UserInteraction)
    (interactionIndex : nat) : Z :=
  fold_left
    (fun totalDeposited i =>
       match nth_error us i with
       | Some x =>
           match type x with
           | deposit => totalDeposited + assets x
           | withdraw => totalDeposited
           end
       | None => totalDeposited
       end)
    (seq 0 (S interactionIndex)) 0.

(** [den > 0n ? Number((num * 10000n) / den) / 100 : 0]. *)
Definition percentOf (num den : Z) : option Q :=
  if den >? 0
  then let? q := bigint_div (num * 10000) den in Some (inject_Z q / 100)%Q
  else Some 0%Q.

(** The body shared by the loop and by [calculateInterestToLatestBlock]:
    values, clamped interest, percentages and the period record.  The two
    ISO date strings are left out, and with them the [RangeError] of
    [toISOString] on a timestamp outside the range of [Date]: a [Some]
    here is a period of the code when both timestamps are in that
    range. *)
Definition makePeriod (index : nat) (currentShares cumulativeBefore : Z)
    (sBlock sTime : Z) (sPrice : Q) (eBlock eTime : Z) (ePrice : Q)
    (totalDepositedSoFar : Z) : option EnhancedInterestPeriod :=
  let startPriceBigint := scaledPrice sPrice in
  let endPriceBigint := scaledPrice ePrice in
  let startValueBigint := Z.quot (currentShares * startPriceBigint) SCALE in
  let endValueBigint := Z.quot (currentShares * endPriceBigint) SCALE in
  let interestAccruedBigint :=
    if endValueBigint >? startValueBigint
    then endValueBigint - startValueBigint
    else 0 in
  let cumulativeInterest := cumulativeBefore + interestAccruedBigint in
  let? interestPercent := percentOf interestAccruedBigint startValueBigint in
  let? cumulativeInterestPercent := percentOf cumulativeInterest totalDepositedSoFar in
  Some {| periodIndex := index;
          startBlock := sBlock; endBlock := eBlock;
          startTimestamp := sTime; endTimestamp := eTime;
          startPrice := sPrice; endPrice := ePrice;
          durationDays := daysOfSeconds (eTime - sTime);
          startValue := etherOf startValueBigint;
          endValue := etherOf endValueBigint;
          interestAccrued := etherOf interestAccruedBigint;
          interestPercent := interestPercent;
          sharesHeldBigint := currentShares;
          startValueBigint := startValueBigint;
          endValueBigint := endValueBigint;
          interestAccruedBigint := interestAccruedBigint;
          cumulativeInterest := cumulativeInterest;
          cumulativeInterestPercent := cumulativeInterestPercent |}.

(** The locals of the loop and the array it pushes to. *)
Record LoopState := {
  currentShares : Z;
  runningInterest : Z;
  enhancedPeriods : list EnhancedInterestPeriod
}.

(** One iteration of the loop of
    [calculatePreciseInterestBetweenInteractions]. *)
Definition loopBody (us : list UserInteraction) (st : LoopState) (i : nat)
  : option LoopState :=
  match nth_error us i with
  | None => Some st
  | Some currentInteraction =>
      let currentShares := applyInteraction (currentShares st) currentInteraction in
      let skip := Some {| currentShares := currentShares;
                          runningInterest := runningInterest st;
                          enhancedPeriods := enhancedPeriods st |} in
      if (i =? 0)%nat || (currentShares =? 0) then skip
      else
        match nth_error us (i - 1) with
        | None => skip
        | Some prevInteraction =>
            let timeDiffSeconds :=
              timestamp currentInteraction - timestamp prevInteraction in
            if Qltb (daysOfSeconds timeDiffSeconds) 0.04 then skip
            else
              let? p := makePeriod (length (enhancedPeriods st) + 1) currentShares
                      (runningInterest st)
                      (blockNumber prevInteraction) (timestamp prevInteraction)
                      (pricePerShare prevInteraction)
                      (blockNumber currentInteraction)
                      (timestamp currentInteraction)
                      (pricePerShare currentInteraction)
                      (calculateTotalDepositedUpToInteraction us i) in
              Some {| currentShares := currentShares;
                      runningInterest := cumulativeInterest p;
                      enhancedPeriods := enhancedPeriods st ++ [p] |}
        end
  end.

(** The calculator's fields that the period pass writes.  The array
    [apyPeriods] repeats fields of [enhancedPeriods] and the number
    [totalInterestAccrued] repeats [totalInterestAccruedBigint]; they are
    left out. *)
Record Calculator := {
  userInteractions : list UserInteraction;
  periods : list EnhancedInterestPeriod;
  blockCache : gmap Z BlockData;
  totalInterestAccruedBigint : Z
}.

(** [calculateInterestToLatestBlock(currentShares, cumulativeInterest)].
    The source looks the latest price up in the cache before it calls
    [getPricePerShareAtBlock], which starts with the same lookup. *)
Definition calculateInterestToLatestBlock (client : Client)
    (us : list UserInteraction) (cache : gmap Z BlockData) (st : LoopState)
  : option Calculator :=
  let unchanged := Some {| userInteractions := us;
                           periods := enhancedPeriods st;
                           blockCache := cache;
                           totalInterestAccruedBigint := 0 |} in
  match last us with
  | None => unchanged
  | Some lastInteraction =>
      if currentShares st =? 0 then unchanged
      else
        let '(latestNumber, latestTimestamp) := latestBlock client in
        let '(latestPrice, cache') :=
          getPricePerShareAtBlock client cache latestNumber 3 in
        let timeDiffSeconds := latestTimestamp - timestamp lastInteraction in
        if Qltb 0.04 (daysOfSeconds timeDiffSeconds)
        then
          let? p := makePeriod (length (enhancedPeriods st) + 1) (currentShares st)
                  (runningInterest st)
                  (blockNumber lastInteraction) (timestamp lastInteraction)
                  (pricePerShare lastInteraction)
                  latestNumber latestTimestamp latestPrice
                  (calculateTotalDepositedUpToInteraction us (length us - 1)) in
          Some {| userInteractions := us;
                  periods := enhancedPeriods st ++ [p];
                  blockCache := cache';
                  totalInterestAccruedBigint := cumulativeInterest p |}
        else
          Some {| userInteractions := us;
                  periods := enhancedPeriods st;
                  blockCache := cache';
                  totalInterestAccruedBigint := 0 |}
  end.

Definition initialLoopState : LoopState :=
  {| currentShares := 0; runningInterest := 0; enhancedPeriods := [] |}.

(** [calculatePreciseInterestBetweenInteractions()], on a calculator whose
    period array is still empty. *)
Definition calculatePreciseInterestBetweenInteractions (client : Client)
    (us : list UserInteraction) (cache : gmap Z BlockData) : option Calculator :=
  let? st := for_each (loopBody us) (seq 0 (length us)) initialLoopState in
  calculateInterestToLatestBlock client us cache st.

(** [calculatePreciseTotalValue()]:
    ([totalDepositedBigint], [currentSharesBigint], [currentValueBigint]). *)
Definition calculatePreciseTotalValue (us : list UserInteraction) : Z * Z * Z :=
  let '(totalDepositedBigint, currentSharesBigint) :=
    fold_left
      (fun '(totalDeposited, currentShares) x =>
         match type x with
         | deposit => (totalDeposited + assets x, currentShares + shares x)
         | withdraw => (totalDeposited, currentShares - shares x)
         end)
      us (0, 0) in
  let currentPriceBigint :=
    match last us with
    | Some x => scaledPrice (pricePerShare x)
    | None => 10 ^ 18
    end in
  (totalDepositedBigint, currentSharesBigint,
   Z.quot (currentSharesBigint * currentPriceBigint) SCALE).

(** [reconcileInterestCalculation()], without the explanation text. *)
Record Reconciliation := {
  calculatedInterest : Z;
  simpleInterest : Z;
  methodsMatch : bool
}.

Definition reconcileInterestCalculation (c : Calculator) : Reconciliation :=
  let '(totalDepositedBigint, _, currentValueBigint) :=
    calculatePreciseTotalValue (userInteractions c) in
  let simpleInterest :=
    if currentValueBigint >? totalDepositedBigint
    then currentValueBigint - totalDepositedBigint
    else 0 in
  let calculatedInterest := totalInterestAccruedBigint c in
  {| calculatedInterest := calculatedInterest;
     simpleInterest := simpleInterest;
     methodsMatch := calculatedInterest =? simpleInterest |}.

(** Steps 2 and 3 of [calculateAverageAPY()], after the events were
    fetched: sort, then the period pass. *)
Definition calculateAverageAPY (client : Client) (cache : gmap Z BlockData)
    (depositEvents withdrawEvents : list VaultEvent) : option Calculator :=
  let us := fetchUserInteractions cache depositEvents withdrawEvents in
  match us with
  | [] => Some {| userInteractions := []; periods := []; blockCache := cache;
                  totalInterestAccruedBigint := 0 |}
  | _ => calculatePreciseInterestBetweenInteractions client
           (sortInteractions us) cache
  end.

(** [(Math.pow(priceRatio, 365 / durationDays) - 1) * 100] with
    [priceRatio = endPrice / startPrice]: the [apy] field of a period,
    over exact reals.  It stands for the code's number where the two
    prices and the duration are positive; rounding, overflow and the
    special values of [Math.pow] are not modelled. *)
Definition apy (p : EnhancedInterestPeriod) : R :=
  let priceRatio := Q2R (endPrice p / startPrice p) in
  ((Rpower priceRatio (Q2R (365 / durationDays p)) - 1) * 100)%R.

(** [memoizedEther(value)]; the memo is keyed by [value.toString()]. *)
Definition memoizedEther (memo : gmap Z Q) (value : Z) : Q * gmap Z Q :=
  match memo !! value with
  | Some cachedValue => (cachedValue, memo)
  | None => (etherOf value, <[ value := etherOf value ]> memo)
  end.

(** [calculateWeightedAverageAPY()], over the periods the pass pushed
    ([apyPeriods] holds the same [shares], [durationDays] and [apy]). *)
Definition calculateWeightedAverageAPY (memo : gmap Z Q)
    (apyPeriods : list EnhancedInterestPeriod) : R * gmap Z Q :=
  match apyPeriods with
  | [] => (0%R, memo)
  | _ =>
      let '(totalWeight, weightedSum, memo') :=
        fold_left
          (fun '(totalWeight, weightedSum, memo) period =>
             let '(normalizedShares, memo') :=
               memoizedEther memo (sharesHeldBigint period) in
             let weight := (normalizedShares * durationDays period)%Q in
             ((totalWeight + weight)%Q,
              (weightedSum + apy period * Q2R weight)%R,
              memo'))
          apyPeriods (0%Q, 0%R, memo) in
      (if Qltb 0 totalWeight then (weightedSum / Q2R totalWeight)%R else 0%R,
       memo')
  end.

(** [EnhancedInterestSummary], without [annualizedAPY], which is
    [calculateWeightedAverageAPY()]. *)
Record EnhancedInterestSummary := {
  summaryTotalDeposited : Z;
  summaryCurrentShares : Z;
  summaryCurrentValue : Z;
  summaryTotalInterestAccrued : Z;
  totalInterestPercent : Q;
  firstInteractionTimestamp : Z;
  lastInteractionTimestamp : Z;
  totalDurationDays : Q;
  interactionCount : nat;
  periodCount : nat
}.

(** [getPreciseInterestSummary()].  [totalDurationDays] is the exact sum
    of the periods' [durationDays]. *)
Definition getPreciseInterestSummary (c : Calculator)
  : option EnhancedInterestSummary :=
  let '(totalDepositedBigint, currentSharesBigint, currentValueBigint) :=
    calculatePreciseTotalValue (userInteractions c) in
  let? totalInterestPercent :=
    percentOf (totalInterestAccruedBigint c) totalDepositedBigint in
  let firstInteractionTimestamp :=
    match userInteractions c with
    | first :: _ => timestamp first
    | [] => 0
    end in
  let lastInteractionTimestamp :=
    match last (userInteractions c) with
    | Some lastInteraction => timestamp lastInteraction
    | None => 0
    end in
  let totalDurationDays :=
    fold_left (fun sum period => (sum + durationDays period)%Q) (periods c) 0%Q in
  Some {| summaryTotalDeposited := totalDepositedBigint;
          summaryCurrentShares := currentSharesBigint;
          summaryCurrentValue := currentValueBigint;
          summaryTotalInterestAccrued := totalInterestAccruedBigint c;
          totalInterestPercent := totalInterestPercent;
          firstInteractionTimestamp := firstInteractionTimestamp;
          lastInteractionTimestamp := lastInteractionTimestamp;
          totalDurationDays := totalDurationDays;
          interactionCount := length (userInteractions c);
          periodCount := length (periods c) |}.

(** The chain as the two batch fetches of [fetchUserInteractions] read
    it: [getBlock b] is the timestamp in the header of block [b] and
    [readContract b] the pair ([totalAssets], [totalSupply]) read at block
    [b]; [None] when a call rejects. *)
Record BlockReads := {
  getBlock : Z -> option Z;
  readContract : Z -> option (Z * Z)
}.

Definition setCachedTimestamp (cache : gmap Z BlockData) (b : Z) (t : Z)
  : gmap Z BlockData :=
  <[ b := {| cachedTimestamp := Some t;
             cachedPricePerShare := match cache !! b with
                                    | Some d => cachedPricePerShare d
                                    | None => None
                                    end |} ]> cache.

(** What [fetchBlockTimestamps] does with one block: the header read,
    then the write of its timestamp. *)
Definition storeTimestamp (reads : BlockReads) (acc : option (gmap Z BlockData))
    (b : Z) : option (gmap Z BlockData) :=
  let? cache := acc in
  let? t := getBlock reads b in
  Some (setCachedTimestamp cache b t).

(** [fetchBlockTimestamps(blockNumbers)].  A batch is a [Promise.all]:
    one rejected header read rejects the fetch; the batches differ from
    one pass over the blocks only in when the reads are sent. *)
Definition fetchBlockTimestamps (reads : BlockReads) (cache : gmap Z BlockData)
    (blockNumbers : list Z) : option (gmap Z BlockData) :=
  fold_left (storeTimestamp reads) blockNumbers (Some cache).

(** What [fetchPricePerShare] does with one block: the two reads, then
    the price when neither total is [0n] (the test
    [data.totalAssets && data.totalSupply]). *)
Definition storePrice (reads : BlockReads) (acc : option (gmap Z BlockData))
    (b : Z) : option (gmap Z BlockData) :=
  let? cache := acc in
  let? totals := readContract reads b in
  let '(totalAssets, totalSupply) := totals in
  if negb (totalAssets =? 0) && negb (totalSupply =? 0)
  then Some (setCachedPrice cache b (priceOfTotals totalAssets totalSupply))
  else Some cache.

(** [fetchPricePerShare(blockNumbers)].  One rejected read rejects the
    fetch; a block whose [totalAssets] or [totalSupply] is [0n] gets no
    price. *)
Definition fetchPricePerShare (reads : BlockReads) (cache : gmap Z BlockData)
    (blockNumbers : list Z) : option (gmap Z BlockData) :=
  fold_left (storePrice reads) blockNumbers (Some cache).

(** [fetchUserInteractions()], from the two lists of log entries on: the
    [Promise.all] of the two batch fetches, which rejects when either
    does, then the loop that builds the ledger.  Each fetch only adds its
    own field to a block's cache entry, so the order in which the two
    run does not show in the cache. *)
Definition fetchUserInteractionsFromLogs (reads : BlockReads)
    (cache : gmap Z BlockData) (depositEvents withdrawEvents : list VaultEvent)
  : option (list UserInteraction * gmap Z BlockData) :=
  let blockNumbers :=
    uniqueBlocks [] (map eventBlock (depositEvents ++ withdrawEvents)) in
  let? cache1 := fetchBlockTimestamps reads cache blockNumbers in
  let? cache2 := fetchPricePerShare reads cache1 blockNumbers in
  Some (fetchUserInteractions cache2 depositEvents withdrawEvents, cache2).

End Overview.

(** ** VaultPeriodTracker *)
Module Tracker.

Record UserInteraction := {
  blockNumber : Z;
  timestamp : Z;
  type : InteractionType;
  assets : Z;
  shares : Z
}.

(** An entry of the rewards API.  [entryAmount] is what [BigInt(amount)]
    gives for the entry's string, [None] when it throws. *)
Record TimeseriesEntry := {
  entryTimestamp : Z;
  entryAmount : option Z
}.

Record AssetTimeseries := {
  assetAddressOf : string;
  assetChainIdOf : Z;
  timeseries : list TimeseriesEntry
}.

(** [TokenData]; an absent or empty [priceUsd] string is [None], a present
    one is the number [parseFloat] reads from it. *)
Record TokenData := {
  tokenSymbol : string;
  tokenDecimals : Z;
  tokenPriceUsd : option Q
}.

(** [formattedAmount] is the number written by [formatUnits]. *)
Record RewardAccrual := {
  chainId : Z;
  assetAddress : string;
  symbol : string;
  decimals : Z;
  rawAmount : Z;
  formattedAmount : Q;
  priceUsd : option Q
}.

(** [Period], without the three yield figures, which
    [calculatePeriodYieldMetrics] gives. *)
Record Period := {
  periodeNumber : nat;
  periodType : InteractionType;
  startBlock : Z;
  endBlock : Z;
  startTimestamp : Z;
  endTimestamp : Z;
  positionShares : Z;
  positionAmountUnderlyingUnits : Z;
  positionAmountUSD : Q;
  positionAccruedInterestUnderlyingUnits : Z;
  positionAccruedInterestUSD : Q;
  rewardsAccrued : list RewardAccrual;
  totalRewardsAccruedUSD : Q;
  durationInSeconds : Z
}.

Record YieldMetrics := {
  nativeAPY : R;
  rewardsAPR : R;
  totalAPY : R
}.

(** The collaborators.  A [None] is a thrown error, except for
    [fetchBalanceTimeseries] and [fetchAssetData], which catch their own
    errors and return [null].  The rewards request is determined by the
    two timestamps of the period (its dates and interval derive from
    them). *)
Record Client := {
  latestBlock : option (Z * Z);
  getBlockTimestamp : Z -> option Z;
  readTotals : Z -> option (Z * Z);
  fetchBalanceTimeseries : Z -> Z -> option (list AssetTimeseries);
  fetchAssetData : Z -> string -> option TokenData
}.

(** The mutable fields of the tracker that the period pass touches. *)
Record TrackerState := {
  periods : list Period;
  rewardsCache : gmap (Z * Z) (list RewardAccrual);
  totalRewardsAccrued : gmap (Z * string) Z
}.

(** The comparator of [sortInteractions]. *)
Definition compareInteractions (a b : UserInteraction) : Z :=
  if blockNumber a <? blockNumber b then -1
  else if blockNumber a >? blockNumber b then 1
  else match type a, type b with
       | deposit, withdraw => -1
       | withdraw, deposit => 1
       | _, _ => 0
       end.

Definition sortInteractions (us : list UserInteraction) : list UserInteraction :=
  array_sort compareInteractions us.

(** [getPricePerShareAtBlock(blockNumber)]: 1.0 when a read throws. *)
Definition getPricePerShareAtBlock (client : Client) (b : Z) : Q :=
  match readTotals client b with
  | Some (totalAssets, totalSupply) => priceOfTotals totalAssets totalSupply
  | None => 1
  end.

(** [fetchTokenData]: the fallback token when no data comes back. *)
Definition fetchTokenData (client : Client) (address : string) (chain : Z)
  : TokenData :=
  match fetchAssetData client chain address with
  | Some d => d
  | None => {| tokenSymbol := "UNKNOWN"; tokenDecimals := 18; tokenPriceUsd := None |}
  end.

(** The inner loop of [calculateRewardsForPeriod]: first and last entry
    inside the time range. *)
Definition pickEntry (startTimestamp endTimestamp : Z)
    (acc : option TimeseriesEntry * option TimeseriesEntry)
    (entry : TimeseriesEntry) : option TimeseriesEntry * option TimeseriesEntry :=
  let '(firstEntry, lastEntry) := acc in
  if (entryTimestamp entry <? startTimestamp)
     || (entryTimestamp entry >? endTimestamp)
  then acc
  else
    (match firstEntry with
     | None => Some entry
     | Some f => if entryTimestamp entry <? entryTimestamp f
                 then Some entry else firstEntry
     end,
     match lastEntry with
     | None => Some entry
     | Some l => if entryTimestamp entry >? entryTimestamp l
                 then Some entry else lastEntry
     end).

(** [formatUnits(value, decimals)] read back as a number. *)
Definition unitsOf (value decimals : Z) : Q :=
  inject_Z value / inject_Z (10 ^ decimals).

(** One turn of the outer loop of [calculateRewardsForPeriod]: the
    rewards pushed for one asset (none or one). *)
Definition rewardsOfAsset (client : Client) (startTimestamp endTimestamp : Z)
    (assetData : AssetTimeseries) : option (list RewardAccrual) :=
  if (length (timeseries assetData) <? 2)%nat then Some []
  else
    match fold_left (pickEntry startTimestamp endTimestamp)
            (timeseries assetData) (None, None) with
    | (Some firstEntry, Some lastEntry) =>
        let? startAmount := entryAmount firstEntry in
        let? endAmount := entryAmount lastEntry in
        let accrued :=
          if endAmount >? startAmount then endAmount - startAmount else 0 in
        if accrued =? 0 then Some []
        else
          let tokenData :=
            fetchTokenData client (assetAddressOf assetData)
              (assetChainIdOf assetData) in
          Some [ {| chainId := assetChainIdOf assetData;
                    assetAddress := assetAddressOf assetData;
                    symbol := tokenSymbol tokenData;
                    decimals := tokenDecimals tokenData;
                    rawAmount := accrued;
                    formattedAmount := unitsOf accrued (tokenDecimals tokenData);
                    priceUsd := tokenPriceUsd tokenData |} ]
    | _ => Some []
    end.

(** [calculateRewardsForPeriod(userAddress, startTimestamp, endTimestamp)]. *)
Definition calculateRewardsForPeriod (client : Client)
    (startTimestamp endTimestamp : Z) : option (list RewardAccrual) :=
  match fetchBalanceTimeseries client startTimestamp endTimestamp with
  | None => Some []
  | Some rewardsData =>
      fold_left
        (fun acc assetData =>
           let? rewards := acc in
           let? pushed :=
             rewardsOfAsset client startTimestamp endTimestamp assetData in
           Some (rewards ++ pushed))
        rewardsData (Some [])
  end.

(** The update of [totalRewardsAccrued] for one reward. *)
Definition addToTotal (totals : gmap (Z * string) Z) (reward : RewardAccrual)
  : gmap (Z * string) Z :=
  let rewardKey := (chainId reward, assetAddress reward) in
  let currentTotal := default 0 (totals !! rewardKey) in
  <[ rewardKey := currentTotal + rawAmount reward ]> totals.

(** [fetchRewardsForPeriod(startBlock, endBlock)].  The two timestamp
    reads are outside the [try]; [calculateRewardsForPeriod] is inside. *)
Definition fetchRewardsForPeriod (client : Client) (st : TrackerState)
    (sBlock eBlock : Z) : option (list RewardAccrual * TrackerState) :=
  let? startTimestamp := getBlockTimestamp client sBlock in
  let? endTimestamp := getBlockTimestamp client eBlock in
  let periodCacheKey := (startTimestamp, endTimestamp) in
  match rewardsCache st !! periodCacheKey with
  | Some cached => Some (cached, st)
  | None =>
      match calculateRewardsForPeriod client startTimestamp endTimestamp with
      | Some rewards =>
          Some (rewards,
                {| periods := periods st;
                   rewardsCache := <[ periodCacheKey := rewards ]> (rewardsCache st);
                   totalRewardsAccrued :=
                     fold_left addToTotal rewards (totalRewardsAccrued st) |})
      | None => Some ([], st)
      end
  end.

(** The [reduce] giving [totalRewardsAccruedUSD]. *)
Definition rewardsValueUSD (rewards : list RewardAccrual) : Q :=
  fold_left
    (fun total reward =>
       match priceUsd reward with
       | Some price => (total + formattedAmount reward * price)%Q
       | None => total
       end)
    rewards 0%Q.

(** One iteration of the loop of [calculatePeriods]; the first component
    of the state is the local [currentShares]. *)
Definition loopBody (client : Client) (assetData : option TokenData)
    (us : list UserInteraction) (acc : Z * TrackerState) (i : nat)
  : option (Z * TrackerState) :=
  let '(shares0, st) := acc in
  match nth_error us i with
  | None => Some acc
  | Some interaction =>
      let currentShares :=
        match type interaction with
        | deposit => shares0 + shares interaction
        | withdraw => shares0 - shares interaction
        end in
      if currentShares =? 0 then Some (currentShares, st)
      else
        let isLastInteraction := (i =? length us - 1)%nat in
        let nextInteraction :=
          if isLastInteraction then None else nth_error us (i + 1) in
        let? ending :=
          if isLastInteraction then latestBlock client
          else option_map (fun n => (blockNumber n, timestamp n)) nextInteraction in
        let '(eBlock, eTimestamp) := ending in
        if negb isLastInteraction && (blockNumber interaction =? eBlock)
        then Some (currentShares, st)
        else
          let startPricePerShare :=
            getPricePerShareAtBlock client (blockNumber interaction) in
          let endPricePerShare := getPricePerShareAtBlock client eBlock in
          let positionUnderlyingStart :=
            Z.quot (currentShares * scaledPrice startPricePerShare) SCALE in
          let positionUnderlyingEnd :=
            Z.quot (currentShares * scaledPrice endPricePerShare) SCALE in
          let interestUnderlyingUnits :=
            positionUnderlyingEnd - positionUnderlyingStart in
          let '(positionUsdValue, interestUsdValue) :=
            match assetData with
            | Some {| tokenDecimals := d; tokenPriceUsd := Some priceUsd |} =>
                ((unitsOf positionUnderlyingStart d * priceUsd)%Q,
                 (unitsOf interestUnderlyingUnits d * priceUsd)%Q)
            | _ => (0%Q, 0%Q)
            end in
          let? fetched :=
            fetchRewardsForPeriod client st (blockNumber interaction) eBlock in
          let '(rewards, st') := fetched in
          let period :=
            {| periodeNumber := i + 1;
               periodType := type interaction;
               startBlock := blockNumber interaction;
               endBlock := eBlock;
               startTimestamp := timestamp interaction;
               endTimestamp := eTimestamp;
               positionShares := currentShares;
               positionAmountUnderlyingUnits := positionUnderlyingStart;
               positionAmountUSD := positionUsdValue;
               positionAccruedInterestUnderlyingUnits := interestUnderlyingUnits;
               positionAccruedInterestUSD := interestUsdValue;
               rewardsAccrued := rewards;
               totalRewardsAccruedUSD := rewardsValueUSD rewards;
               durationInSeconds := eTimestamp - timestamp interaction |} in
          let st'' := {| periods := periods st' ++ [period];
                         rewardsCache := rewardsCache st';
                         totalRewardsAccrued := totalRewardsAccrued st' |} in
          let closes :=
            match nextInteraction with
            | Some n => negb isLastInteraction
                        && InteractionType_eqb (type n) withdraw
                        && (currentShares =? shares n)
            | None => false
            end in
          Some (if closes then 0 else currentShares, st'')
  end.

Definition emptyTracker : TrackerState :=
  {| periods := []; rewardsCache := ∅; totalRewardsAccrued := ∅ |}.

(** [calculatePeriods()], on a fresh tracker. *)
Definition calculatePeriods (client : Client) (assetData : option TokenData)
    (us : list UserInteraction) : option TrackerState :=
  option_map snd
    (for_each (loopBody client assetData us) (seq 0 (length us))
       (0, emptyTracker)).

(** The last two steps of [initialize()]. *)
Definition initialize (client : Client) (assetData : option TokenData)
    (us : list UserInteraction) : option TrackerState :=
  calculatePeriods client assetData (sortInteractions us).

(** [calculatePeriodYieldMetrics(period)]: the three figures it adds,
    over exact reals.  They stand for the code's numbers on a period of
    positive length whose positive USD position is not wholly lost;
    rounding, [NaN] and [Infinity] are not modelled. *)
Definition calculatePeriodYieldMetrics (period : Period) : YieldMetrics :=
  let durationInSeconds := IZR (endTimestamp period - startTimestamp period) in
  let annualizationFactor := ((365 * 86400) / durationInSeconds)%R in
  let nativeAPY :=
    if Qltb 0 (positionAmountUSD period)
    then
      let periodReturn :=
        (Q2R (positionAccruedInterestUSD period)
         / Q2R (positionAmountUSD period))%R in
      ((Rpower (1 + periodReturn) annualizationFactor - 1) * 100)%R
    else 0%R in
  let rewardsAPR :=
    if Qltb 0 (positionAmountUSD period)
    then (Q2R (totalRewardsAccruedUSD period) / Q2R (positionAmountUSD period)
          * annualizationFactor * 100)%R
    else 0%R in
  {| nativeAPY := nativeAPY;
     rewardsAPR := rewardsAPR;
     totalAPY := (nativeAPY + rewardsAPR)%R |}.

(** A [Deposit] or [Withdraw] log entry; an absent argument is [None]. *)
Record VaultEvent := {
  eventBlockNumber : Z;
  eventAssets : option Z;
  eventShares : option Z
}.

(** The interaction pushed for an event, its timestamp still to fill. *)
Definition interactionOfEvent (kind : InteractionType) (event : VaultEvent)
  : UserInteraction :=
  {| blockNumber := eventBlockNumber event;
     timestamp := 0;
     type := kind;
     assets := default 0 (eventAssets event);
     shares := default 0 (eventShares event) |}.

(** The inner loop of [fetchUserInteractions]: every interaction of the
    block gets the timestamp. *)
Definition stampBlock (blockNumber0 timestamp0 : Z) (us : list UserInteraction)
  : list UserInteraction :=
  map (fun interaction =>
         if blockNumber interaction =? blockNumber0
         then {| blockNumber := blockNumber interaction;
                 timestamp := timestamp0;
                 type := type interaction;
                 assets := assets interaction;
                 shares := shares interaction |}
         else interaction)
      us.

(** [fetchUserInteractions()], from the two lists of log entries on. *)
Definition fetchUserInteractions (client : Client)
    (depositEvents withdrawEvents : list VaultEvent)
  : option (list UserInteraction) :=
  let pushed :=
    map (interactionOfEvent deposit) depositEvents
    ++ map (interactionOfEvent withdraw) withdrawEvents in
  fold_left
    (fun acc b =>
       let? us := acc in
       let? timestamp0 := getBlockTimestamp client b in
       Some (stampBlock b timestamp0 us))
    (uniqueBlocks [] (map blockNumber pushed)) (Some pushed).

(** [OverallPositionMetrics]. *)
Record OverallPositionMetrics := {
  overallNativeAPY : R;
  overallRewardsAPR : R;
  overallTotalAPY : R;
  totalInterestEarnedUSD : Q;
  totalRewardsEarnedUSD : Q;
  totalEarningsUSD : Q;
  weightedDuration : Q
}.

(** The sums [calculateOverallYieldMetrics] accumulates. *)
Record OverallSums := {
  weightedNativeAPYSum : R;
  weightedRewardsAPRSum : R;
  weightedDenominator : Q;
  sumInterestEarnedUSD : Q;
  sumRewardsEarnedUSD : Q;
  totalPositionDurationSeconds : Z
}.

Definition addPeriod (sums : OverallSums) (period : Period) : OverallSums :=
  let weight := (inject_Z (durationInSeconds period) * positionAmountUSD period)%Q in
  let metrics := calculatePeriodYieldMetrics period in
  {| weightedNativeAPYSum :=
       (weightedNativeAPYSum sums + Q2R weight * nativeAPY metrics)%R;
     weightedRewardsAPRSum :=
       (weightedRewardsAPRSum sums + Q2R weight * rewardsAPR metrics)%R;
     weightedDenominator := (weightedDenominator sums + weight)%Q;
     sumInterestEarnedUSD :=
       (sumInterestEarnedUSD sums + positionAccruedInterestUSD period)%Q;
     sumRewardsEarnedUSD :=
       (sumRewardsEarnedUSD sums + totalRewardsAccruedUSD period)%Q;
     totalPositionDurationSeconds :=
       totalPositionDurationSeconds sums + durationInSeconds period |}.

(** [calculateOverallYieldMetrics()]; the yield figures of a period are
    the ones [calculatePeriodYieldMetrics] stored in it. *)
Definition calculateOverallYieldMetrics (periods : list Period)
  : OverallPositionMetrics :=
  match periods with
  | [] =>
      {| overallNativeAPY := 0; overallRewardsAPR := 0; overallTotalAPY := 0;
         totalInterestEarnedUSD := 0; totalRewardsEarnedUSD := 0;
         totalEarningsUSD := 0; weightedDuration := 0 |}
  | _ =>
      let sums :=
        fold_left addPeriod periods
          {| weightedNativeAPYSum := 0; weightedRewardsAPRSum := 0;
             weightedDenominator := 0; sumInterestEarnedUSD := 0;
             sumRewardsEarnedUSD := 0; totalPositionDurationSeconds := 0 |} in
      let overallNativeAPY :=
        if Qltb 0 (weightedDenominator sums)
        then (weightedNativeAPYSum sums / Q2R (weightedDenominator sums))%R
        else 0%R in
      let overallRewardsAPR :=
        if Qltb 0 (weightedDenominator sums)
        then (weightedRewardsAPRSum sums / Q2R (weightedDenominator sums))%R
        else 0%R in
      {| overallNativeAPY := overallNativeAPY;
         overallRewardsAPR := overallRewardsAPR;
         overallTotalAPY := (overallNativeAPY + overallRewardsAPR)%R;
         totalInterestEarnedUSD := sumInterestEarnedUSD sums;
         totalRewardsEarnedUSD := sumRewardsEarnedUSD sums;
         totalEarningsUSD :=
           (sumInterestEarnedUSD sums + sumRewardsEarnedUSD sums)%Q;
         weightedDuration :=
           (inject_Z (totalPositionDurationSeconds sums) / 86400)%Q |}
  end.

End Tracker.

(** * Specification vocabulary *)

(** The annualised figure in the specification's words:
    [r = interestAccrued / startValue],
    [AF = secondsPerYear / periodDurationSeconds],
    [nativeAPY = ((1 + r)^AF - 1) * 100]. *)
Definition specNativeAPY (interestAccrued startValue periodDurationSeconds : R) : R :=
  let r := (interestAccrued / startValue)%R in
  let AF := (31536000 / periodDurationSeconds)%R in
  ((Rpower (1 + r) AF - 1) * 100)%R.

(** Two interactions in ledger order: by block, and at equal block never
    a withdrawal in front of a deposit. *)
Definition typeOrdered (ta tb : InteractionType) : Prop :=
  ~ (ta = withdraw /\ tb = deposit).

Definition ledgerOrder (ba : Z) (ta : InteractionType) (bb : Z) (tb : InteractionType)
  : Prop :=
  ba < bb \/ (ba = bb /\ typeOrdered ta tb).

Definition trackerOrder (a b : Tracker.UserInteraction) : Prop :=
  ledgerOrder (Tracker.blockNumber a) (Tracker.type a)
              (Tracker.blockNumber b) (Tracker.type b).

Definition overviewOrder (a b : Overview.UserInteraction) : Prop :=
  ledgerOrder (Overview.blockNumber a) (Overview.type a)
              (Overview.blockNumber b) (Overview.type b).

(** The calculator compares blocks only; its input, as
    [fetchUserInteractions] builds it, has every deposit in front of every
    withdrawal. *)
Definition depositsFirst (us : list Overview.UserInteraction) : Prop :=
  StronglySorted (fun a b => typeOrdered (Overview.type a) (Overview.type b)) us.

Module OverviewSpec.
Import Overview.

Definition clampedInterest (startValue endValue : Z) : Z :=
  if endValue >? startValue then endValue - startValue else 0.

(** What [makePeriod] puts in the record. *)
Record made_by (p : EnhancedInterestPeriod) (shares cumulativeBefore : Z)
    (sTime : Z) (sPrice : Q) (eTime : Z) (ePrice : Q) : Prop := {
  made_shares : sharesHeldBigint p = shares;
  made_start : startValueBigint p = Z.quot (shares * scaledPrice sPrice) SCALE;
  made_end : endValueBigint p = Z.quot (shares * scaledPrice ePrice) SCALE;
  made_interest :
    interestAccruedBigint p = clampedInterest (startValueBigint p) (endValueBigint p);
  made_cumulative :
    cumulativeInterest p = cumulativeBefore + interestAccruedBigint p;
  made_percent :
    percentOf (interestAccruedBigint p) (startValueBigint p) = Some (interestPercent p);
  made_times : startTimestamp p = sTime /\ endTimestamp p = eTime;
  made_prices : startPrice p = sPrice /\ endPrice p = ePrice;
  made_days : durationDays p = daysOfSeconds (eTime - sTime)
}.

(** A period the pass can push: made by [makePeriod] for a non-empty
    position, over a window the duration test let through. *)
Definition emitted (p : EnhancedInterestPeriod) : Prop :=
  exists cs cum sT sP eT eP,
    made_by p cs cum sT sP eT eP
    /\ cs <> 0
    /\ Qltb (daysOfSeconds (eT - sT)) 0.04 = false.

(** The running total and the pushed periods stay in step. *)
Inductive accumulates : list EnhancedInterestPeriod -> Z -> Prop :=
| acc_nil : accumulates [] 0
| acc_snoc ps c p :
    accumulates ps c ->
    cumulativeInterest p = c + interestAccruedBigint p ->
    accumulates (ps ++ [p]) (cumulativeInterest p).

Definition sumInterest (ps : list EnhancedInterestPeriod) : Z :=
  fold_right Z.add 0 (map interestAccruedBigint ps).

Definition loop_invariant (st : LoopState) : Prop :=
  Forall emitted (enhancedPeriods st)
  /\ accumulates (enhancedPeriods st) (runningInterest st).

End OverviewSpec.

Module TrackerSpec.
Import Tracker.

Definition positiveReward (r : RewardAccrual) : Prop := 0 < rawAmount r.

(** Where a listed reward comes from: an asset whose balance rose
    between the first and the last entry inside the window. *)
Definition accruedFrom (startTimestamp endTimestamp : Z)
    (assetData : AssetTimeseries) (r : RewardAccrual) : Prop :=
  exists firstEntry lastEntry startAmount endAmount,
    fold_left (pickEntry startTimestamp endTimestamp) (timeseries assetData)
      (None, None) = (Some firstEntry, Some lastEntry)
    /\ entryAmount firstEntry = Some startAmount
    /\ entryAmount lastEntry = Some endAmount
    /\ startAmount < endAmount
    /\ rawAmount r = endAmount - startAmount.

(** What [calculatePeriods] records in a period it pushes. *)
Record emitted (client : Client) (us : list UserInteraction) (p : Period)
  : Prop := {
  emitted_shares : positionShares p <> 0;
  emitted_start :
    positionAmountUnderlyingUnits p =
    Z.quot (positionShares p
            * scaledPrice (getPricePerShareAtBlock client (startBlock p))) SCALE;
  emitted_interest :
    positionAccruedInterestUnderlyingUnits p =
    Z.quot (positionShares p
            * scaledPrice (getPricePerShareAtBlock client (endBlock p))) SCALE
    - positionAmountUnderlyingUnits p;
  emitted_blocks :
    (periodeNumber p < length us)%nat -> startBlock p <> endBlock p;
  emitted_rewards : Forall positiveReward (rewardsAccrued p);
  emitted_rewardsUSD : totalRewardsAccruedUSD p = rewardsValueUSD (rewardsAccrued p);
  emitted_duration : durationInSeconds p = endTimestamp p - startTimestamp p
}.

Definition cachePositive (st : TrackerState) : Prop :=
  forall key rewards,
    rewardsCache st !! key = Some rewards -> Forall positiveReward rewards.

Definition loop_invariant (client : Client) (us : list UserInteraction)
    (acc : Z * TrackerState) : Prop :=
  Forall (emitted client us) (periods (snd acc)) /\ cachePositive (snd acc).

(** The client whose failed price reads are replaced by a vault holding
    exactly one asset unit per share. *)
Definition orUnitPrice (client : Client) : Client :=
  {| latestBlock := latestBlock client;
     getBlockTimestamp := getBlockTimestamp client;
     readTotals := fun b => match readTotals client b with
                            | Some totals => Some totals
                            | None => Some (SCALE, SCALE)
                            end;
     fetchBalanceTimeseries := fetchBalanceTimeseries client;
     fetchAssetData := fetchAssetData client |}.

(** The balance the ledger itself gives after interaction [i]. *)
Definition ledgerBalance (us : list UserInteraction) (i : nat) : Z :=
  fold_left
    (fun balance x =>
       match type x with
       | deposit => balance + shares x
       | withdraw => balance - shares x
       end)
    (firstn (S i) us) 0.

(** Every pushed period found a price sample at both of its blocks. *)
Definition pricedPeriodsOnly (client : Client) (assetData : option TokenData)
    (us : list UserInteraction) : Prop :=
  forall st p,
    calculatePeriods client assetData us = Some st ->
    In p (periods st) ->
    readTotals client (startBlock p) <> None
    /\ readTotals client (endBlock p) <> None.

(** No pushed period starts at an interaction that leaves the ledger
    with no shares. *)
Definition closedStaysClosed (client : Client) (assetData : option TokenData)
    (us : list UserInteraction) : Prop :=
  forall st p,
    calculatePeriods client assetData us = Some st ->
    In p (periods st) ->
    ledgerBalance us (periodeNumber p - 1) <> 0.

End TrackerSpec.

(** Ledgers and periods compared with their times left out: what stays
    when the interactions carry other timestamps. *)
Module RetimeSpec.
Import Tracker.




End RetimeSpec.

(** ** Sample ledgers *)
Module Samples.

Definition year : Z := 31536000.

Definition overviewRun (client : Overview.Client) (us : list Overview.UserInteraction)
  : option Overview.Calculator :=
  Overview.calculatePreciseInterestBetweenInteractions client us ∅.

(** One deposit of one share at price 1.0; a year later the price is 1.5. *)
Definition risingClient : Overview.Client :=
  {| Overview.latestBlock := (100, year);
     Overview.readTotals := fun b _ =>
       if b =? 100 then Some (3 * SCALE, 2 * SCALE) else None |}.

Definition oneDeposit : list Overview.UserInteraction :=
  [ {| Overview.blockNumber := 1; Overview.timestamp := 0;
       Overview.type := deposit; Overview.assets := SCALE;
       Overview.shares := SCALE; Overview.pricePerShare := 1 |} ].

(** One deposit of one share at price 2.0; a year later the price is 1.0. *)
Definition fallingClient : Overview.Client :=
  {| Overview.latestBlock := (100, year);
     Overview.readTotals := fun b _ =>
       if b =? 100 then Some (SCALE, SCALE) else None |}.

Definition dearDeposit : list Overview.UserInteraction :=
  [ {| Overview.blockNumber := 1; Overview.timestamp := 0;
       Overview.type := deposit; Overview.assets := 2 * SCALE;
       Overview.shares := SCALE; Overview.pricePerShare := 2 |} ].



(** Two deposits 3500 seconds apart, the price moving from 1.0 to 1.5. *)
Definition quickDeposits : list Overview.UserInteraction :=
  [ {| Overview.blockNumber := 1; Overview.timestamp := 0;
       Overview.type := deposit; Overview.assets := SCALE;
       Overview.shares := SCALE; Overview.pricePerShare := 1 |};
    {| Overview.blockNumber := 2; Overview.timestamp := 3500;
       Overview.type := deposit; Overview.assets := 3 * SCALE;
       Overview.shares := 2 * SCALE; Overview.pricePerShare := 1.5 |} ].

(** Deposit, deposit, withdrawal, a day apart each. *)
Definition threeSteps : list Overview.UserInteraction :=
  [ {| Overview.blockNumber := 1; Overview.timestamp := 0;
       Overview.type := deposit; Overview.assets := 100;
       Overview.shares := 100; Overview.pricePerShare := 1 |};
    {| Overview.blockNumber := 10; Overview.timestamp := 86400;
       Overview.type := deposit; Overview.assets := 150;
       Overview.shares := 100; Overview.pricePerShare := 1.5 |};
    {| Overview.blockNumber := 20; Overview.timestamp := 172800;
       Overview.type := withdraw; Overview.assets := 100;
       Overview.shares := 100; Overview.pricePerShare := 1 |} ].

(** A calculator client whose every price read throws. *)
Definition deafClient : Overview.Client :=
  {| Overview.latestBlock := (100, year);
     Overview.readTotals := fun _ _ => None |}.

(** The tracker's chain: block [b] is stamped [100 * b], the latest block
    is 20; the price is 2.0 at block 1 and 1.0 from then on. *)
Definition chain (readTotals : Z -> option (Z * Z))
    (fetchBalanceTimeseries : Z -> Z -> option (list Tracker.AssetTimeseries))
  : Tracker.Client :=
  {| Tracker.latestBlock := Some (20, 2000);
     Tracker.getBlockTimestamp := fun b => Some (100 * b);
     Tracker.readTotals := readTotals;
     Tracker.fetchBalanceTimeseries := fetchBalanceTimeseries;
     Tracker.fetchAssetData := fun _ _ => None |}.

Definition droppingPrice (b : Z) : option (Z * Z) :=
  if b =? 1 then Some (2 * SCALE, SCALE) else Some (SCALE, SCALE).

Definition droppingClient : Tracker.Client := chain droppingPrice (fun _ _ => None).

(** Every price read throws. *)
Definition blindClient : Tracker.Client := chain (fun _ => None) (fun _ _ => None).

Definition depositAt (b : Z) (amount : Z) : Tracker.UserInteraction :=
  {| Tracker.blockNumber := b; Tracker.timestamp := 100 * b;
     Tracker.type := deposit; Tracker.assets := amount; Tracker.shares := amount |}.

Definition withdrawAt (b : Z) (amount : Z) : Tracker.UserInteraction :=
  {| Tracker.blockNumber := b; Tracker.timestamp := 100 * b;
     Tracker.type := withdraw; Tracker.assets := amount; Tracker.shares := amount |}.

(** One deposit at block 1. *)
Definition soleDeposit : list Tracker.UserInteraction := [ depositAt 1 SCALE ].


(** A deposit of 100 shares at block 1 and their withdrawal at block
    10, in the order [fetchUserInteractions] pushes them. *)
Definition exitLedger : list Tracker.UserInteraction :=
  [ depositAt 1 (100 * SCALE); withdrawAt 10 (100 * SCALE) ].

(** A rewards answer with one asset whose balance rose from 5 to 12 and
    one whose balance stayed at 9. *)
Definition risingAsset : Tracker.AssetTimeseries :=
  {| Tracker.assetAddressOf := "0xA"; Tracker.assetChainIdOf := 8453;
     Tracker.timeseries :=
       [ {| Tracker.entryTimestamp := 150; Tracker.entryAmount := Some 5 |};
         {| Tracker.entryTimestamp := 1000; Tracker.entryAmount := Some 12 |} ] |}.

Definition flatAsset : Tracker.AssetTimeseries :=
  {| Tracker.assetAddressOf := "0xB"; Tracker.assetChainIdOf := 8453;
     Tracker.timeseries :=
       [ {| Tracker.entryTimestamp := 150; Tracker.entryAmount := Some 9 |};
         {| Tracker.entryTimestamp := 1000; Tracker.entryAmount := Some 9 |} ] |}.

Definition rewardingClient : Tracker.Client :=
  chain droppingPrice (fun _ _ => Some [ risingAsset; flatAsset ]).

(** Two deposits a day apart, then the withdrawal of everything. *)
Definition closedLedger : list Overview.UserInteraction :=
  [ {| Overview.blockNumber := 1; Overview.timestamp := 0;
       Overview.type := deposit; Overview.assets := 100;
       Overview.shares := 100; Overview.pricePerShare := 1 |};
    {| Overview.blockNumber := 10; Overview.timestamp := 86400;
       Overview.type := deposit; Overview.assets := 150;
       Overview.shares := 100; Overview.pricePerShare := 1.5 |};
    {| Overview.blockNumber := 20; Overview.timestamp := 172800;
       Overview.type := withdraw; Overview.assets := 400;
       Overview.shares := 200; Overview.pricePerShare := 2 |} ].

(** An underlying asset with 18 decimals, worth one dollar. *)
Definition dollarAsset : Tracker.TokenData :=
  {| Tracker.tokenSymbol := "USD"; Tracker.tokenDecimals := 18;
     Tracker.tokenPriceUsd := Some 1%Q |}.

(** Two deposits in block 3 and a withdrawal in block 7. *)
Definition loggedDeposits : list Tracker.VaultEvent :=
  [ {| Tracker.eventBlockNumber := 3; Tracker.eventAssets := Some 5;
       Tracker.eventShares := Some 4 |};
    {| Tracker.eventBlockNumber := 3; Tracker.eventAssets := Some 7;
       Tracker.eventShares := None |} ].

Definition loggedWithdrawals : list Tracker.VaultEvent :=
  [ {| Tracker.eventBlockNumber := 7; Tracker.eventAssets := Some 2;
       Tracker.eventShares := Some 1 |} ].

(** A cache that knows blocks 1 and 10, and two events at them. *)
Definition twoBlockCache : gmap Z Overview.BlockData :=
  <[ 1 := {| Overview.cachedTimestamp := Some 0;
             Overview.cachedPricePerShare := Some 1%Q |} ]>
    (<[ 10 := {| Overview.cachedTimestamp := Some year;
                 Overview.cachedPricePerShare := Some 1.5%Q |} ]> ∅).

Definition cachedDeposits : list Overview.VaultEvent :=
  [ {| Overview.eventBlock := 10; Overview.eventAssets := 3 * SCALE;
       Overview.eventShares := 2 * SCALE |};
    {| Overview.eventBlock := 1; Overview.eventAssets := SCALE;
       Overview.eventShares := SCALE |} ].


(** Batch reads: every header is read, block [b] stamped [100 * b]; no
    read of the totals succeeds. *)
Definition silentReads : Overview.BlockReads :=
  {| Overview.getBlock := fun b => Some (100 * b);
     Overview.readContract := fun _ => None |}.

(** Batch reads that find the vault without supply at block 10 and with
    three assets for two shares elsewhere. *)
Definition emptyAtTenReads : Overview.BlockReads :=
  {| Overview.getBlock := fun b => Some (100 * b);
     Overview.readContract := fun b =>
       if b =? 10 then Some (3 * SCALE, 0) else Some (3 * SCALE, 2 * SCALE) |}.

End Samples.

(** * Specification vocabulary for the further properties *)
Module RewardSpec.
Import Tracker.

(** An entry the rewards loop keeps: its timestamp is inside the window. *)
Definition inWindow (startTimestamp endTimestamp : Z) (entry : TimeseriesEntry)
  : Prop :=
  startTimestamp <= entryTimestamp entry <= endTimestamp.

(** The asset a reward, and a timeseries, is about. *)
Definition rewardAsset (r : RewardAccrual) : Z * string :=
  (chainId r, assetAddress r).

Definition seriesAsset (a : AssetTimeseries) : Z * string :=
  (assetChainIdOf a, assetAddressOf a).

(** What the pair of entries holds after the entries [seen]. *)
Definition picked (s e : Z) (seen : list TimeseriesEntry)
    (acc : option TimeseriesEntry * option TimeseriesEntry) : Prop :=
  match acc with
  | (None, None) => forall x, In x seen -> ~ inWindow s e x
  | (Some f, Some l) =>
      In f seen /\ In l seen /\ inWindow s e f /\ inWindow s e l
      /\ forall x, In x seen -> inWindow s e x ->
           entryTimestamp f <= entryTimestamp x <= entryTimestamp l
  | _ => False
  end.

Definition priced (r : RewardAccrual) : bool :=
  match priceUsd r with Some _ => true | None => false end.

End RewardSpec.

Module TrackerSegments.
Import Tracker.

(** A period of the tracker sits on the ledger: its number is the
    1-based index of the interaction it starts at, and it ends at the
    next interaction or, for the last one, at the latest block. *)
Record anchored (client : Client) (us : list UserInteraction) (p : Period)
  : Prop := {
  anchored_start :
    exists x,
      nth_error us (periodeNumber p - 1) = Some x
      /\ (1 <= periodeNumber p)%nat
      /\ startBlock p = blockNumber x
      /\ startTimestamp p = timestamp x
      /\ periodType p = type x;
  anchored_end :
    (periodeNumber p = length us
     /\ latestBlock client = Some (endBlock p, endTimestamp p))
    \/ (exists n,
          nth_error us (periodeNumber p) = Some n
          /\ endBlock p = blockNumber n
          /\ endTimestamp p = timestamp n)
}.

Definition segmented (client : Client) (us : list UserInteraction) (i : nat)
    (acc : Z * TrackerState) : Prop :=
  Forall (anchored client us) (periods (snd acc))
  /\ StronglySorted lt (map periodeNumber (periods (snd acc)))
  /\ Forall (fun p => (periodeNumber p <= i)%nat) (periods (snd acc)).

(** The ledger is in block order. *)
Definition blocksAscend (us : list UserInteraction) : Prop :=
  StronglySorted (fun a b => blockNumber a <= blockNumber b) us.

(** The block headers can be read. *)
Definition headersAvailable (client : Client) : Prop :=
  latestBlock client <> None /\ forall b, getBlockTimestamp client b <> None.

End TrackerSegments.

Module OverviewSegments.
Import Overview.

(** The balance after the first [n] interactions. *)
Definition balanceAfter (us : list UserInteraction) (n : nat) : Z :=
  fold_left applyInteraction (firstn n us) 0.

(** A period of the calculator sits on the ledger at [k]: it runs from
    interaction [k - 1] to interaction [k], or from the last interaction
    to the latest block when [k] is the number of interactions, and it
    holds the balance after interaction [k]. *)
Definition spans (client : Client) (us : list UserInteraction) (k : nat)
    (p : EnhancedInterestPeriod) : Prop :=
  (1 <= k)%nat
  /\ sharesHeldBigint p = balanceAfter us (S k)
  /\ (exists a,
        nth_error us (k - 1) = Some a
        /\ startBlock p = blockNumber a
        /\ startTimestamp p = timestamp a
        /\ startPrice p = pricePerShare a)
  /\ ((exists b,
         nth_error us k = Some b
         /\ endBlock p = blockNumber b
         /\ endTimestamp p = timestamp b
         /\ endPrice p = pricePerShare b)
      \/ (k = length us
          /\ latestBlock client = (endBlock p, endTimestamp p))).

Definition laid (client : Client) (us : list UserInteraction) (bound : nat)
    (ps : list EnhancedInterestPeriod) : Prop :=
  exists ks,
    Forall2 (spans client us) ks ps
    /\ StronglySorted lt ks
    /\ Forall (fun k => (k < bound)%nat) ks.

Definition numbered (ps : list EnhancedInterestPeriod) : Prop :=
  forall k p, nth_error ps k = Some p -> periodIndex p = S k.

Definition segmented (client : Client) (us : list UserInteraction) (i : nat)
    (st : LoopState) : Prop :=
  currentShares st = balanceAfter us i
  /\ laid client us i (enhancedPeriods st)
  /\ numbered (enhancedPeriods st).

(** The ledger is in time order. *)
Definition timesAscend (us : list UserInteraction) : Prop :=
  StronglySorted (fun a b => timestamp a <= timestamp b) us.

(** The test of the open period: the latest block is more than 0.04 day
    after the last interaction. *)
Definition openWindow (client : Client) (us : list UserInteraction) : bool :=
  match last us with
  | Some lastInteraction =>
      Qltb 0.04 (daysOfSeconds (snd (latestBlock client) - timestamp lastInteraction))
  | None => false
  end.

End OverviewSegments.

Module AverageSpec.

(** The memo of [memoizedEther] holds only what [formatEther] gives. *)
Definition coherent (memo : gmap Z Q) : Prop :=
  forall value cachedValue,
    memo !! value = Some cachedValue -> cachedValue = etherOf value.

(** The weight of a period in the calculator's average. *)
Definition overviewWeight (p : Overview.EnhancedInterestPeriod) : Q :=
  etherOf (Overview.sharesHeldBigint p) * Overview.durationDays p.

(** The weight of a period in the tracker's averages. *)
Definition trackerWeight (p : Tracker.Period) : Q :=
  inject_Z (Tracker.durationInSeconds p) * Tracker.positionAmountUSD p.

(** A period on which the yield figures are numbers: it has a positive
    length, and a positive USD position was not wholly lost, so that
    [Math.pow] has a positive base and a finite exponent. *)
Definition regular (p : Tracker.Period) : Prop :=
  Tracker.startTimestamp p < Tracker.endTimestamp p
  /\ ((0 < Tracker.positionAmountUSD p)%Q ->
      (- Tracker.positionAmountUSD p < Tracker.positionAccruedInterestUSD p)%Q).

End AverageSpec.

(** What [fetchUserInteractions] of the tracker leaves in the ledger. *)
Module StampSpec.
Import Tracker.

(** The entries pushed by the two event loops, before any timestamp. *)
Definition pushed (depositEvents withdrawEvents : list VaultEvent)
  : list UserInteraction :=
  map (interactionOfEvent deposit) depositEvents
  ++ map (interactionOfEvent withdraw) withdrawEvents.

Definition sameEvent (u0 u : UserInteraction) : Prop :=
  blockNumber u = blockNumber u0 /\ type u = type u0
  /\ assets u = assets u0 /\ shares u = shares u0.

(** [u] is the pushed entry [u0] with the timestamp of its block. *)
Definition stampOf (client : Client) (u0 u : UserInteraction) : Prop :=
  sameEvent u0 u
  /\ getBlockTimestamp client (blockNumber u0) = Some (timestamp u).

(** The state of an entry once the blocks [bs] have been handled. *)
Definition partly (client : Client) (bs : list Z) (u0 u : UserInteraction)
  : Prop :=
  sameEvent u0 u
  /\ if existsb (Z.eqb (blockNumber u0)) bs
     then getBlockTimestamp client (blockNumber u0) = Some (timestamp u)
     else timestamp u = timestamp u0.

Definition stamped (client : Client) (depositEvents withdrawEvents : list VaultEvent)
    (us : list UserInteraction) : Prop :=
  Forall2 (stampOf client) (pushed depositEvents withdrawEvents) us.

End StampSpec.

(** The time a list of periods covers. *)
Module SummarySpec.
Import Overview.

Definition secondsCovered (ps : list EnhancedInterestPeriod) : Z :=
  fold_right Z.add 0 (map (fun p => endTimestamp p - startTimestamp p) ps).

End SummarySpec.

(** What the block cache knows. *)
Module CacheSpec.
Import Overview.

(** Both the timestamp and the price of block [b] are in the cache. *)
Definition known (cache : gmap Z BlockData) (b : Z) : Prop :=
  exists t p,
    cache !! b = Some {| cachedTimestamp := Some t; cachedPricePerShare := Some p |}.

End CacheSpec.

(** The totals the tracker keeps per reward asset. *)
Module TotalsSpec.
Import Tracker TrackerSpec.

Definition rewardKeyOf (r : RewardAccrual) : Z * string :=
  (chainId r, assetAddress r).

(** [totalRewardsAccrued.get(key) || 0n]. *)
Definition totalOf (totals : gmap (Z * string) Z) (k : Z * string) : Z :=
  default 0 (totals !! k).

Definition totalsPositive (totals : gmap (Z * string) Z) : Prop :=
  forall k v, totals !! k = Some v -> 0 < v.

(** Every reward of the list is within the total of its asset. *)
Definition counted (totals : gmap (Z * string) Z) (rs : list RewardAccrual)
  : Prop :=
  Forall (fun r => rawAmount r <= totalOf totals (rewardKeyOf r)) rs.

Definition accounted (st : TrackerState) : Prop :=
  totalsPositive (totalRewardsAccrued st)
  /\ (forall key rs,
        rewardsCache st !! key = Some rs ->
        Forall positiveReward rs /\ counted (totalRewardsAccrued st) rs)
  /\ Forall (fun p => counted (totalRewardsAccrued st) (rewardsAccrued p))
       (periods st).

End TotalsSpec.

(** * Verification *)

(** ** Loops that may throw *)

Lemma for_each_preserves {St : Type} (P : St -> Prop) (body : St -> nat -> option St) :
  (forall s i s', P s -> body s i = Some s' -> P s') ->
  forall idx s s', P s -> for_each body idx s = Some s' -> P s'.
Proof.
  intros Hstep idx. induction idx as [|i idx IH]; simpl; intros s s' Hs H.
  - injection H as <-. exact Hs.
  - destruct (body s i) as [s1|] eqn:E; simpl in H; [|discriminate].
    eapply IH; [|exact H]. eapply Hstep; eauto.
Qed.

Lemma for_each_ext {St : Type} (f g : St -> nat -> option St) :
  (forall s i, f s i = g s i) ->
  forall idx s, for_each f idx s = for_each g idx s.
Proof.
  intros Hfg idx. induction idx as [|i idx IH]; simpl; intros s; [reflexivity|].
  rewrite Hfg. destruct (g s i); simpl; auto.
Qed.

Lemma for_each_seq_preserves {St : Type} (P : St -> Prop) (body : St -> nat -> option St)
    (n : nat) :
  (forall s i s', (i < n)%nat -> P s -> body s i = Some s' -> P s') ->
  forall len start s s', (start + len <= n)%nat ->
    P s -> for_each body (seq start len) s = Some s' -> P s'.
Proof.
  intros Hstep len. induction len as [|len IH]; simpl; intros start s s' Hn Hs H.
  - injection H as <-. exact Hs.
  - destruct (body s start) as [s1|] eqn:E; simpl in H; [|discriminate].
    eapply (IH (S start)); [lia | | exact H].
    eapply Hstep; [|exact Hs|exact E]. lia.
Qed.


Lemma uniqueBlocks_In l : forall seen x,
  In x (uniqueBlocks seen l) <-> In x l /\ ~ In x seen.
Proof.
  induction l as [|b l IH]; intros seen x; cbn [uniqueBlocks].
  - simpl. tauto.
  - destruct (existsb (Z.eqb b) seen) eqn:E.
    + apply existsb_exists in E. destruct E as (y & Hy & Eq). apply Z.eqb_eq in Eq. subst y.
      rewrite IH. simpl. split.
      * intros [H1 H2]. tauto.
      * intros [[-> | H1] H2]; [contradiction | tauto].
    + assert (Hb : ~ In b seen).
      { intros Hin. assert (existsb (Z.eqb b) seen = true) as Ht.
        { apply existsb_exists. exists b. split; [exact Hin | apply Z.eqb_refl]. }
        rewrite Ht in E. discriminate E. }
      simpl. rewrite IH. simpl. split.
      * intros [-> | [H1 H2]]; [tauto|]. split; [tauto|]. intros H3. apply H2. tauto.
      * intros [[-> | H1] H2]; [tauto|].
        destruct (Z.eq_dec b x) as [->|Hne]; [tauto|]. right. split; [exact H1|].
        intros [H3|H3]; [exact (Hne H3) | exact (H2 H3)].
Qed.

(** ** The precise period pass of [overview.ts] *)
Module OverviewFacts.
Import Overview OverviewSpec.

Lemma percentOf_total num den : exists q, percentOf num den = Some q.
Proof.
  unfold percentOf, bigint_div.
  destruct (den >? 0) eqn:E; [|eauto].
  destruct (den =? 0) eqn:E0; simpl; [lia | eauto].
Qed.


Lemma percentOf_guard num den q :
  den <= 0 -> percentOf num den = Some q -> q = 0%Q.
Proof.
  intros Hd. unfold percentOf.
  destruct (den >? 0) eqn:E; [lia|]. congruence.
Qed.

Lemma clampedInterest_max s e : clampedInterest s e = Z.max (e - s) 0.
Proof. unfold clampedInterest. destruct (e >? s) eqn:E; lia. Qed.

Lemma makePeriod_made index cs cum sB sT sP eB eT eP td p :
  makePeriod index cs cum sB sT sP eB eT eP td = Some p ->
  made_by p cs cum sT sP eT eP.
Proof.
  unfold makePeriod. fold (clampedInterest (Z.quot (cs * scaledPrice sP) SCALE)
                            (Z.quot (cs * scaledPrice eP) SCALE)).
  destruct (percentOf _ _) as [ip|] eqn:E1; simpl; [|discriminate].
  destruct (percentOf _ td) as [cp|] eqn:E2; simpl; [|discriminate].
  intros H. injection H as <-. constructor; simpl; auto.
Qed.

Lemma sumInterest_app ps qs : sumInterest (ps ++ qs) = sumInterest ps + sumInterest qs.
Proof.
  unfold sumInterest. induction ps as [|p ps IH]; simpl; [reflexivity|].
  rewrite IH. lia.
Qed.

Lemma accumulates_sum ps c : accumulates ps c -> c = sumInterest ps.
Proof.
  induction 1 as [|ps c p _ IH Hp]; [reflexivity|].
  rewrite sumInterest_app, Hp, IH. unfold sumInterest. simpl. lia.
Qed.

Lemma accumulates_prefix ps c :
  accumulates ps c ->
  forall k p, nth_error ps k = Some p ->
    cumulativeInterest p = sumInterest (firstn (S k) ps).
Proof.
  induction 1 as [|ps c p Hacc IH Hp]; intros k q Hk.
  - destruct k; discriminate.
  - destruct (Nat.lt_ge_cases k (length ps)) as [Hlt|Hge].
    + rewrite nth_error_app1 in Hk by exact Hlt.
      rewrite firstn_app.
      replace (S k - length ps)%nat with 0%nat by lia.
      simpl. rewrite app_nil_r. auto.
    + rewrite nth_error_app2 in Hk by exact Hge.
      destruct (k - length ps)%nat as [|n] eqn:En; simpl in Hk;
        [|destruct n; discriminate].
      injection Hk as <-.
      rewrite firstn_all2 by (rewrite length_app; simpl; lia).
      rewrite sumInterest_app, Hp, (accumulates_sum _ _ Hacc).
      unfold sumInterest. simpl. lia.
Qed.

Lemma overview_loopBody_preserves us st i st' :
  loop_invariant st -> loopBody us st i = Some st' -> loop_invariant st'.
Proof.
  intros [Hall Hacc]. unfold loopBody.
  destruct (nth_error us i) as [cur|]; [|intros [= <-]; split; assumption].
  destruct ((i =? 0)%nat || (applyInteraction (currentShares st) cur =? 0)) eqn:Eskip;
    [intros [= <-]; split; assumption|].
  destruct (nth_error us (i - 1)) as [prev|]; [|intros [= <-]; split; assumption].
  destruct (Qltb _ 0.04) eqn:Edur; [intros [= <-]; split; assumption|].
  destruct (makePeriod _ _ _ _ _ _ _ _ _ _) as [p|] eqn:Emk; simpl; [|discriminate].
  intros [= <-]. simpl.
  pose proof (makePeriod_made _ _ _ _ _ _ _ _ _ _ _ Emk) as Hm.
  apply orb_false_iff in Eskip as [_ Hcs]. apply Z.eqb_neq in Hcs.
  split.
  - apply Forall_app. split; [assumption|].
    constructor; [|constructor].
    do 6 eexists. split; [exact Hm|]. split; assumption.
  - eapply acc_snoc; [eassumption|]. apply (made_cumulative _ _ _ _ _ _ _ Hm).
Qed.

Lemma Qltb_asym x y : Qltb x y = true -> Qltb y x = false.
Proof.
  unfold Qltb. rewrite !negb_true_iff, negb_false_iff.
  intros H. apply Qle_bool_iff.
  destruct (Qlt_le_dec x y) as [Hlt|Hle].
  - apply Qlt_le_weak. exact Hlt.
  - apply Qle_bool_iff in Hle. congruence.
Qed.

Lemma latest_preserves client us cache st c :
  loop_invariant st ->
  calculateInterestToLatestBlock client us cache st = Some c ->
  Forall emitted (periods c)
  /\ accumulates (periods c) (sumInterest (periods c))
  /\ (totalInterestAccruedBigint c = 0
      \/ totalInterestAccruedBigint c = sumInterest (periods c)).
Proof.
  intros [Hall Hacc]. unfold calculateInterestToLatestBlock.
  pose proof (accumulates_sum _ _ Hacc) as Hsum.
  assert (Hkeep : Forall emitted (enhancedPeriods st)
                  /\ accumulates (enhancedPeriods st) (sumInterest (enhancedPeriods st))
                  /\ (0 = 0 \/ 0 = sumInterest (enhancedPeriods st))).
  { rewrite <- Hsum. auto. }
  destruct (last us) as [lastI|]; [|intros [= <-]; exact Hkeep].
  destruct (currentShares st =? 0) eqn:Ecs; [intros [= <-]; exact Hkeep|].
  destruct (latestBlock client) as [latestNumber latestTimestamp].
  destruct (getPricePerShareAtBlock client cache latestNumber 3) as [latestPrice cache'].
  destruct (Qltb 0.04 _) eqn:Edur; [|intros [= <-]; exact Hkeep].
  destruct (makePeriod _ _ _ _ _ _ _ _ _ _) as [p|] eqn:Emk; simpl; [|discriminate].
  intros [= <-]. simpl.
  pose proof (makePeriod_made _ _ _ _ _ _ _ _ _ _ _ Emk) as Hm.
  apply Z.eqb_neq in Ecs.
  assert (Hacc' : accumulates (enhancedPeriods st ++ [p]) (cumulativeInterest p)).
  { eapply acc_snoc; [eassumption|]. apply (made_cumulative _ _ _ _ _ _ _ Hm). }
  pose proof (accumulates_sum _ _ Hacc') as Hsum'.
  split; [|split].
  - apply Forall_app. split; [assumption|].
    constructor; [|constructor].
    do 6 eexists. split; [exact Hm|]. split; [assumption|].
    apply Qltb_asym. exact Edur.
  - rewrite <- Hsum'. exact Hacc'.
  - right. exact Hsum'.
Qed.

Lemma pass_invariant client us cache c :
  calculatePreciseInterestBetweenInteractions client us cache = Some c ->
  Forall emitted (periods c)
  /\ accumulates (periods c) (sumInterest (periods c))
  /\ (totalInterestAccruedBigint c = 0
      \/ totalInterestAccruedBigint c = sumInterest (periods c)).
Proof.
  unfold calculatePreciseInterestBetweenInteractions.
  destruct (for_each _ _ _) as [st|] eqn:Eloop; simpl; [|discriminate].
  apply latest_preserves.
  eapply (for_each_preserves loop_invariant); [|..|exact Eloop].
  - intros s i s' Hs. apply overview_loopBody_preserves. exact Hs.
  - split; [constructor|constructor].
Qed.

(** Every interaction that leaves the calculator's balance at zero is
    passed over: a pushed period holds shares. *)
Lemma pushed_period_holds_shares client us cache c p :
  calculatePreciseInterestBetweenInteractions client us cache = Some c ->
  In p (periods c) -> sharesHeldBigint p <> 0.
Proof.
  intros Hrun Hin. apply pass_invariant in Hrun as [Hall _].
  rewrite List.Forall_forall in Hall.
  destruct (Hall p Hin) as (cs & cum & sT & sP & eT & eP & Hm & Hcs & _).
  rewrite (made_shares _ _ _ _ _ _ _ Hm). exact Hcs.
Qed.

End OverviewFacts.

(** ** The two sorts *)
Section SortFacts.
Context {A : Type} (cmp : A -> A -> Z).

Lemma sort_insert_perm x l : Permutation (x :: l) (sort_insert cmp x l).
Proof.
  induction l as [|y l IH]; simpl; [reflexivity|].
  destruct (cmp x y <=? 0); [reflexivity|].
  rewrite perm_swap. constructor. exact IH.
Qed.

Lemma array_sort_perm l : Permutation l (array_sort cmp l).
Proof.
  induction l as [|x l IH]; simpl; [constructor|].
  rewrite <- sort_insert_perm. constructor. exact IH.
Qed.

(** Insertion keeps a list sorted for [le] when [x] may go in front of
    whatever the comparator puts it in front of, and behind whatever it
    refuses to precede. *)
Lemma sort_insert_sorted (le : A -> A -> Prop) x l :
  (forall y z, In y l -> In z l -> cmp x y <= 0 -> le y z -> le x z) ->
  (forall y, In y l -> cmp x y <= 0 -> le x y) ->
  (forall y, In y l -> ~ cmp x y <= 0 -> le y x) ->
  StronglySorted le l -> StronglySorted le (sort_insert cmp x l).
Proof.
  intros Htrans Hfront Hback Hs.
  induction Hs as [|y l Hs IH Hy]; simpl.
  - constructor; constructor.
  - destruct (cmp x y <=? 0) eqn:E.
    + apply Z.leb_le in E. constructor; [constructor; assumption|].
      constructor.
      * apply Hfront; [left; reflexivity | exact E].
      * rewrite List.Forall_forall in Hy |- *. intros z Hz.
        apply (Htrans y z); [left; reflexivity | right; exact Hz | exact E | auto].
    + apply Z.leb_gt in E. constructor.
      * apply IH.
        -- intros a b Ha Hb. apply Htrans; right; assumption.
        -- intros a Ha. apply Hfront. right; assumption.
        -- intros a Ha. apply Hback. right; assumption.
      * rewrite List.Forall_forall in Hy |- *. intros z Hz.
        apply (Permutation_in _ (Permutation_sym (sort_insert_perm x l))) in Hz.
        destruct Hz as [<-|Hz]; [|auto].
        apply Hback; [left; reflexivity | lia].
Qed.
End SortFacts.

Module SortingFacts.

Lemma compareInteractions_le a b :
  Tracker.compareInteractions a b <= 0 <-> trackerOrder a b.
Proof.
  unfold Tracker.compareInteractions, trackerOrder, ledgerOrder, typeOrdered.
  destruct (Tracker.blockNumber a <? Tracker.blockNumber b) eqn:E1.
  - apply Z.ltb_lt in E1. split; [auto | lia].
  - apply Z.ltb_ge in E1.
    destruct (Tracker.blockNumber a >? Tracker.blockNumber b) eqn:E2.
    + split; [lia | intros [H|[H _]]; lia].
    + assert (Tracker.blockNumber a = Tracker.blockNumber b) by lia.
      destruct (Tracker.type a), (Tracker.type b); split; intros H0;
        try lia; try (right; split; [assumption | intros [? ?]; discriminate]).
      destruct H0 as [H0|[_ H0]]; [lia | exfalso; apply H0; auto].
Qed.

Lemma trackerOrder_total a b : trackerOrder a b \/ trackerOrder b a.
Proof.
  unfold trackerOrder, ledgerOrder, typeOrdered.
  destruct (Z.lt_trichotomy (Tracker.blockNumber a) (Tracker.blockNumber b))
    as [H|[H|H]]; [auto | | auto].
  destruct (Tracker.type a), (Tracker.type b);
    solve [ left; right; split; [assumption | intros [? ?]; discriminate]
          | right; right; split; [auto | intros [? ?]; discriminate] ].
Qed.

Lemma ledgerOrder_trans ba ta bb tb bc tc :
  ledgerOrder ba ta bb tb -> ledgerOrder bb tb bc tc -> ledgerOrder ba ta bc tc.
Proof.
  unfold ledgerOrder, typeOrdered. intros [H1|[H1 T1]] [H2|[H2 T2]]; try (left; lia).
  right. split; [lia|]. intros [-> ->].
  destruct tb; [apply T1 | apply T2]; auto.
Qed.

Lemma tracker_sorted us :
  StronglySorted trackerOrder (Tracker.sortInteractions us).
Proof.
  unfold Tracker.sortInteractions.
  induction us as [|x us IH]; simpl; [constructor|].
  apply sort_insert_sorted; [| | |exact IH].
  - intros y z _ _ Hxy Hyz. apply compareInteractions_le in Hxy.
    exact (ledgerOrder_trans _ _ _ _ _ _ Hxy Hyz).
  - intros y _ H. apply compareInteractions_le. exact H.
  - intros y _ H. destruct (trackerOrder_total x y) as [Hxy|Hyx]; [|exact Hyx].
    exfalso. apply H. apply compareInteractions_le. exact Hxy.
Qed.

Lemma overview_sorted us :
  depositsFirst us -> StronglySorted overviewOrder (Overview.sortInteractions us).
Proof.
  unfold Overview.sortInteractions, depositsFirst.
  induction 1 as [|x us Hs IH Hx]; simpl; [constructor|].
  assert (Hx' : forall y, In y (array_sort Overview.byBlock us) ->
                          typeOrdered (Overview.type x) (Overview.type y)).
  { intros y Hy. rewrite List.Forall_forall in Hx. apply Hx.
    exact (Permutation_in _ (Permutation_sym (array_sort_perm _ us)) Hy). }
  apply sort_insert_sorted; [| | |exact IH].
  - intros y z _ Hz Hxy Hyz. unfold Overview.byBlock in Hxy.
    unfold overviewOrder, ledgerOrder in *.
    destruct Hyz as [Hyz|[Hyz _]].
    + left. lia.
    + destruct (Z.eq_dec (Overview.blockNumber x) (Overview.blockNumber z)) as [E|E].
      * right. split; [exact E | apply Hx'; exact Hz].
      * left. lia.
  - intros y Hy Hxy. unfold Overview.byBlock in Hxy.
    unfold overviewOrder, ledgerOrder.
    destruct (Z.eq_dec (Overview.blockNumber x) (Overview.blockNumber y)) as [E|E].
    + right. split; [exact E | apply Hx'; exact Hy].
    + left. lia.
  - intros y _ Hxy. unfold Overview.byBlock in Hxy.
    unfold overviewOrder, ledgerOrder. left. lia.
Qed.

Lemma interactionOfEvent_type cache ev x :
  In x (Overview.interactionOfEvent cache ev) -> Overview.type x = fst ev.
Proof.
  unfold Overview.interactionOfEvent.
  destruct (cache !! Overview.eventBlock (snd ev)) as [[[t|] [p|]]|]; simpl;
    try contradiction.
  intros [<-|[]]. reflexivity.
Qed.

Lemma fetched_types cache ty evs x :
  In x (flat_map (Overview.interactionOfEvent cache) (map (pair ty) evs)) ->
  Overview.type x = ty.
Proof.
  rewrite in_flat_map. intros [ev [Hev Hx]].
  apply interactionOfEvent_type in Hx. rewrite in_map_iff in Hev.
  destruct Hev as [e [<- _]]. exact Hx.
Qed.

Lemma fetched_depositsFirst cache depositEvents withdrawEvents :
  depositsFirst (Overview.fetchUserInteractions cache depositEvents withdrawEvents).
Proof.
  unfold Overview.fetchUserInteractions, depositsFirst.
  rewrite flat_map_app.
  pose proof (fetched_types cache withdraw withdrawEvents) as Hw.
  pose proof (fetched_types cache deposit depositEvents) as Hd.
  revert Hw Hd.
  generalize (flat_map (Overview.interactionOfEvent cache) (map (pair withdraw) withdrawEvents)).
  generalize (flat_map (Overview.interactionOfEvent cache) (map (pair deposit) depositEvents)).
  intros ds ws Hw. induction ds as [|d ds IH]; simpl; intros Hd.
  - induction ws as [|w ws IHw]; constructor.
    + apply IHw. intros x Hx. apply Hw. right; exact Hx.
    + rewrite List.Forall_forall. intros y Hy [_ Hdep].
      rewrite (Hw y) in Hdep by (right; exact Hy). discriminate.
  - constructor.
    + apply IH. intros x Hx. apply Hd. right; exact Hx.
    + rewrite List.Forall_forall. intros y Hy [Hwd _].
      rewrite (Hd d) in Hwd by (left; reflexivity). discriminate.
Qed.

End SortingFacts.

(** ** The period pass of the tracker *)
Module TrackerFacts.
Import Tracker TrackerSpec.

Lemma rewardsOfAsset_accrued client s e a rs :
  rewardsOfAsset client s e a = Some rs ->
  Forall (fun r => positiveReward r /\ accruedFrom s e a r) rs.
Proof.
  unfold rewardsOfAsset.
  destruct (length (timeseries a) <? 2)%nat; [intros [= <-]; constructor|].
  destruct (fold_left _ _ _) as [[f|] [l|]] eqn:Epick;
    try (intros [= <-]; constructor).
  destruct (entryAmount f) as [sa|] eqn:Ef; simpl; [|discriminate].
  destruct (entryAmount l) as [ea|] eqn:El; simpl; [|discriminate].
  destruct (ea >? sa) eqn:Egt.
  - destruct (ea - sa =? 0) eqn:Ez; intros [= <-]; constructor; [|constructor].
    split.
    + unfold positiveReward. simpl. lia.
    + exists f, l, sa, ea. simpl. repeat split; auto; lia.
  - simpl. intros [= <-]. constructor.
Qed.

Lemma rewardsOfAsset_omits client s e a f l sa ea :
  fold_left (pickEntry s e) (timeseries a) (None, None) = (Some f, Some l) ->
  entryAmount f = Some sa -> entryAmount l = Some ea -> ea <= sa ->
  rewardsOfAsset client s e a = Some [].
Proof.
  intros Hpick Hf Hl Hle. unfold rewardsOfAsset.
  destruct (length (timeseries a) <? 2)%nat; [reflexivity|].
  rewrite Hpick, Hf, Hl. simpl.
  destruct (ea >? sa) eqn:Egt; [lia|]. reflexivity.
Qed.

Lemma rewards_fold_positive client s e data acc rs :
  (forall l, acc = Some l -> Forall positiveReward l) ->
  fold_left
    (fun acc assetData =>
       let? rewards := acc in
       let? pushed := rewardsOfAsset client s e assetData in
       Some (rewards ++ pushed))
    data acc = Some rs ->
  Forall positiveReward rs.
Proof.
  revert acc. induction data as [|a data IH]; simpl; intros acc Hacc H.
  - auto.
  - eapply IH; [|exact H]. intros l.
    destruct acc as [l0|]; simpl; [|discriminate].
    destruct (rewardsOfAsset client s e a) as [pushed|] eqn:Ea; simpl; [|discriminate].
    intros [= <-]. apply Forall_app. split; [auto|].
    apply rewardsOfAsset_accrued in Ea.
    eapply List.Forall_impl; [|exact Ea]. intros r [Hr _]. exact Hr.
Qed.

Lemma calculateRewardsForPeriod_positive client s e rs :
  calculateRewardsForPeriod client s e = Some rs -> Forall positiveReward rs.
Proof.
  unfold calculateRewardsForPeriod.
  destruct (fetchBalanceTimeseries client s e) as [data|];
    [|intros [= <-]; constructor].
  apply rewards_fold_positive. intros l [= <-]. constructor.
Qed.

Lemma fetchRewardsForPeriod_positive client st sBlock eBlock rs st' :
  cachePositive st ->
  fetchRewardsForPeriod client st sBlock eBlock = Some (rs, st') ->
  Forall positiveReward rs /\ cachePositive st' /\ periods st' = periods st.
Proof.
  intros Hc. unfold fetchRewardsForPeriod.
  destruct (getBlockTimestamp client sBlock) as [s|]; simpl; [|discriminate].
  destruct (getBlockTimestamp client eBlock) as [e|]; simpl; [|discriminate].
  destruct (rewardsCache st !! (s, e)) as [cached|] eqn:Ecache.
  - intros [= <- <-]. split; [eapply Hc; eauto | auto].
  - destruct (calculateRewardsForPeriod client s e) as [rewards|] eqn:Ecalc.
    + intros [= <- <-]. apply calculateRewardsForPeriod_positive in Ecalc.
      split; [exact Ecalc|]. split; [|reflexivity].
      intros key v. simpl. rewrite lookup_insert.
      destruct (decide ((s, e) = key)); [intros [= <-]; exact Ecalc | apply Hc].
    + intros [= <- <-]. split; [constructor | auto].
Qed.

Lemma tracker_loopBody_preserves client assetData us acc i acc' :
  (i < length us)%nat ->
  loop_invariant client us acc ->
  loopBody client assetData us acc i = Some acc' ->
  loop_invariant client us acc'.
Proof.
  intros Hi [Hall Hc]. unfold loopBody. destruct acc as [shares0 st]. simpl in Hall, Hc.
  destruct (nth_error us i) as [x|]; [|intros [= <-]; split; assumption].
  set (cs := match type x with
             | deposit => shares0 + shares x
             | withdraw => shares0 - shares x
             end).
  destruct (cs =? 0) eqn:Ecs; [intros [= <-]; split; assumption|].
  apply Z.eqb_neq in Ecs.
  destruct (i =? length us - 1)%nat eqn:Elast.
  - destruct (latestBlock client) as [[eB eT]|]; simpl; [|discriminate].
    destruct (match assetData with Some _ => _ | None => _ end) as [posUsd intUsd].
    destruct (fetchRewardsForPeriod client st (blockNumber x) eB) as [[rs st']|] eqn:Ef;
      simpl; [|discriminate].
    intros [= <-]. apply fetchRewardsForPeriod_positive in Ef as (Hrs & Hc' & Hp); [|exact Hc].
    split; simpl; [|exact Hc'].
    rewrite Hp. apply Forall_app. split; [exact Hall|].
    constructor; [|constructor].
    constructor; simpl; auto.
    apply Nat.eqb_eq in Elast. lia.
  - destruct (nth_error us (i + 1)) as [n|]; simpl; [|discriminate].
    destruct (blockNumber x =? blockNumber n) eqn:Eblk; [intros [= <-]; split; assumption|].
    apply Z.eqb_neq in Eblk.
    destruct (match assetData with Some _ => _ | None => _ end) as [posUsd intUsd].
    destruct (fetchRewardsForPeriod client st (blockNumber x) (blockNumber n))
      as [[rs st']|] eqn:Ef; simpl; [|discriminate].
    intros [= <-]. apply fetchRewardsForPeriod_positive in Ef as (Hrs & Hc' & Hp); [|exact Hc].
    split; simpl; [|exact Hc'].
    rewrite Hp. apply Forall_app. split; [exact Hall|].
    constructor; [|constructor].
    constructor; simpl; auto.
Qed.

Lemma calculatePeriods_emitted client assetData us st :
  calculatePeriods client assetData us = Some st ->
  Forall (emitted client us) (periods st).
Proof.
  unfold calculatePeriods.
  destruct (for_each _ _ _) as [[cs st0]|] eqn:Eloop; simpl; [|discriminate].
  intros [= <-].
  assert (H : loop_invariant client us (cs, st0)); [|exact (proj1 H)].
  eapply (for_each_seq_preserves (loop_invariant client us) _ (length us));
    [| |split|exact Eloop].
  - intros s i s' Hi Hs. apply tracker_loopBody_preserves; assumption.
  - simpl. lia.
  - constructor.
  - intros key v. simpl. rewrite lookup_empty. discriminate.
Qed.

(** A failed price read and a price of exactly 1.0 give the same run. *)
Lemma scaledPrice_orUnitPrice client b :
  scaledPrice (getPricePerShareAtBlock (orUnitPrice client) b)
  = scaledPrice (getPricePerShareAtBlock client b).
Proof.
  unfold getPricePerShareAtBlock, orUnitPrice. simpl.
  destruct (readTotals client b) as [[ta ts]|]; [reflexivity|].
  vm_compute. reflexivity.
Qed.

Lemma loopBody_orUnitPrice client assetData us acc i :
  loopBody (orUnitPrice client) assetData us acc i
  = loopBody client assetData us acc i.
Proof.
  unfold loopBody. destruct acc as [shares0 st].
  destruct (nth_error us i) as [x|]; [|reflexivity].
  destruct (_ =? 0); [reflexivity|].
  change (latestBlock (orUnitPrice client)) with (latestBlock client).
  destruct (if (i =? length us - 1)%nat then latestBlock client else _) as [[eB eT]|];
    simpl; [|reflexivity].
  destruct (negb _ && _); [reflexivity|].
  rewrite !scaledPrice_orUnitPrice. reflexivity.
Qed.

Lemma calculatePeriods_orUnitPrice client assetData us :
  calculatePeriods (orUnitPrice client) assetData us
  = calculatePeriods client assetData us.
Proof.
  unfold calculatePeriods. f_equal.
  apply for_each_ext. intros s i. apply loopBody_orUnitPrice.
Qed.

Lemma fetchRewardsForPeriod_no_sample client st sBlock eBlock s e :
  getBlockTimestamp client sBlock = Some s ->
  getBlockTimestamp client eBlock = Some e ->
  rewardsCache st !! (s, e) = None ->
  fetchBalanceTimeseries client s e = None
  \/ fetchBalanceTimeseries client s e = Some []
  \/ calculateRewardsForPeriod client s e = None ->
  exists st', fetchRewardsForPeriod client st sBlock eBlock = Some ([], st')
              /\ periods st' = periods st.
Proof.
  intros Hs He Hcache H. unfold fetchRewardsForPeriod.
  rewrite Hs, He. simpl. rewrite Hcache.
  destruct H as [H|[H|H]].
  - unfold calculateRewardsForPeriod. rewrite H. eauto.
  - unfold calculateRewardsForPeriod. rewrite H. simpl. eauto.
  - rewrite H. eauto.
Qed.

End TrackerFacts.

(** ** The tracker and the interactions' times *)
Module RetimeFacts.
Import Tracker RetimeSpec.






End RetimeFacts.

(** ** What a period of the calculator records *)
Module OverviewPeriods.
Import Overview OverviewSpec OverviewFacts.

Lemma duration_threshold t : Qltb (daysOfSeconds t) 0.04 = false -> 3456 <= t.
Proof.
  unfold Qltb, daysOfSeconds. rewrite negb_false_iff, Qle_bool_iff.
  unfold Qle, Qdiv, Qmult, Qinv, inject_Z. simpl. lia.
Qed.

Lemma emitted_values p :
  emitted p ->
  startValueBigint p
  = Z.quot (sharesHeldBigint p * scaledPrice (startPrice p)) SCALE
  /\ endValueBigint p
     = Z.quot (sharesHeldBigint p * scaledPrice (endPrice p)) SCALE
  /\ interestAccruedBigint p = Z.max (endValueBigint p - startValueBigint p) 0.
Proof.
  intros (cs & cum & sT & sP & eT & eP & Hm & _ & _).
  destruct Hm as [Hs Hst Hen Hi _ _ _ [Hp1 Hp2] _].
  rewrite Hs, Hp1, Hp2, Hi, clampedInterest_max. auto.
Qed.

Lemma emitted_duration p :
  emitted p ->
  durationDays p = daysOfSeconds (endTimestamp p - startTimestamp p)
  /\ 3456 <= endTimestamp p - startTimestamp p.
Proof.
  intros (cs & cum & sT & sP & eT & eP & Hm & _ & Hd).
  destruct Hm as [_ _ _ _ _ _ [Ht1 Ht2] _ Hdays].
  rewrite Ht1, Ht2. split; [exact Hdays | apply duration_threshold; exact Hd].
Qed.



End OverviewPeriods.

(** ** Annualised figures *)
Module YieldFacts.

Lemma Q2R_inject_Z z : Q2R (inject_Z z) = IZR z.
Proof. unfold Q2R, inject_Z. simpl. rewrite Rinv_1. ring. Qed.

Lemma annualization_exponent secs :
  0 < secs -> Q2R (365 / daysOfSeconds secs) = (31536000 / IZR secs)%R.
Proof.
  intros Hs. unfold daysOfSeconds.
  assert (Hnz : ~ (inject_Z secs == 0)%Q).
  { unfold Qeq, inject_Z. simpl. lia. }
  assert (Hnz' : ~ (inject_Z secs / 86400 == 0)%Q).
  { unfold Qeq, Qdiv, Qmult, Qinv, inject_Z. simpl. lia. }
  rewrite Q2R_div by exact Hnz'.
  rewrite Q2R_div by (unfold Qeq; simpl; lia).
  rewrite Q2R_inject_Z.
  replace (Q2R 365) with 365%R by (unfold Q2R; simpl; lra).
  replace (Q2R 86400) with 86400%R by (unfold Q2R; simpl; lra).
  assert (IZR secs <> 0)%R by (apply not_0_IZR; lia).
  field. assumption.
Qed.

Lemma overview_apy_formula (p : Overview.EnhancedInterestPeriod) secs :
  Overview.durationDays p = daysOfSeconds secs ->
  0 < secs ->
  0 < Overview.startValueBigint p ->
  Overview.startValueBigint p <= Overview.endValueBigint p ->
  Overview.interestAccruedBigint p
  = Z.max (Overview.endValueBigint p - Overview.startValueBigint p) 0 ->
  Q2R (Overview.endPrice p / Overview.startPrice p)
  = (IZR (Overview.endValueBigint p) / IZR (Overview.startValueBigint p))%R ->
  Overview.apy p
  = specNativeAPY (IZR (Overview.interestAccruedBigint p))
      (IZR (Overview.startValueBigint p)) (IZR secs).
Proof.
  intros Hdays Hsecs Hpos Hle Hint Hratio.
  unfold Overview.apy, specNativeAPY. cbv zeta.
  rewrite Hdays, annualization_exponent by exact Hsecs.
  rewrite Hratio, Hint, Z.max_l by lia.
  rewrite minus_IZR.
  assert (IZR (Overview.startValueBigint p) <> 0)%R by (apply not_0_IZR; lia).
  f_equal. f_equal. f_equal. field. assumption.
Qed.

Lemma tracker_apy_formula (period : Tracker.Period) :
  Tracker.nativeAPY (Tracker.calculatePeriodYieldMetrics period)
  = if Qltb 0 (Tracker.positionAmountUSD period)
    then specNativeAPY (Q2R (Tracker.positionAccruedInterestUSD period))
           (Q2R (Tracker.positionAmountUSD period))
           (IZR (Tracker.endTimestamp period - Tracker.startTimestamp period))
    else 0%R.
Proof.
  unfold Tracker.calculatePeriodYieldMetrics, specNativeAPY. simpl.
  destruct (Qltb 0 (Tracker.positionAmountUSD period)); [|reflexivity].
  replace (365 * 86400)%R with 31536000%R by lra. reflexivity.
Qed.

End YieldFacts.

Module AnnualFacts.

(** [Math.pow(x, y)] against 1, for a positive base and exponent. *)
Lemma Rpower_sign x y :
  (0 < x)%R -> (0 < y)%R ->
  ((1 < x -> 1 < Rpower x y)
   /\ (x = 1 -> Rpower x y = 1)
   /\ (x < 1 -> Rpower x y < 1))%R.
Proof.
  intros Hx Hy. unfold Rpower. repeat split.
  - intros H. rewrite <- exp_0. apply exp_increasing.
    apply Rmult_lt_0_compat; [exact Hy|]. rewrite <- ln_1. apply ln_increasing; lra.
  - intros ->. rewrite ln_1, Rmult_0_r. apply exp_0.
  - intros H. rewrite <- exp_0. apply exp_increasing.
    assert (ln x < 0)%R by (rewrite <- ln_1; apply ln_increasing; lra).
    nra.
Qed.

Lemma annualized_sign x y :
  (0 < x)%R -> (0 < y)%R ->
  ((0 < (Rpower x y - 1) * 100 <-> 1 < x)
   /\ ((Rpower x y - 1) * 100 = 0 <-> x = 1))%R.
Proof.
  intros Hx Hy. destruct (Rpower_sign x y Hx Hy) as (Hgt & Heq & Hlt).
  destruct (Rtotal_order x 1) as [H | [H | H]].
  - specialize (Hlt H). split; split; intros; lra.
  - specialize (Heq H). split; split; intros; lra.
  - specialize (Hgt H). split; split; intros; lra.
Qed.

Lemma Q_nonzero q : (0 < q)%Q -> ~ (q == 0)%Q.
Proof. intros H E. rewrite E in H. exact (Qlt_irrefl 0 H). Qed.

End AnnualFacts.

(** ** Substituted prices *)
Module PriceFacts.

Lemma overview_price_fallback (client : Overview.Client) cache b :
  Overview.cachedPrice cache b = None ->
  (forall k, Overview.readTotals client b k = None) ->
  Overview.getPricePerShareAtBlock client cache b 3 = (1%Q, cache).
Proof.
  intros Hc Hr. simpl. rewrite !Hc, !Hr. reflexivity.
Qed.

Lemma tracker_price_fallback (client : Tracker.Client) b :
  Tracker.readTotals client b = None ->
  Tracker.getPricePerShareAtBlock client b = 1%Q.
Proof.
  intros Hr. unfold Tracker.getPricePerShareAtBlock. rewrite Hr. reflexivity.
Qed.

Lemma scaledPrice_le p q : (p <= q)%Q -> scaledPrice p <= scaledPrice q.
Proof.
  intros H. unfold scaledPrice. apply Qfloor_resp_le.
  apply Qmult_le_compat_r; [exact H | discriminate].
Qed.

End PriceFacts.

(** ** Prices of the calculator's ledger *)
Module FetchFacts.
Import Overview.

Lemma cachedPrice_setPrice cache b p b' :
  cachedPrice (setCachedPrice cache b p) b'
  = if decide (b = b') then Some p else cachedPrice cache b'.
Proof.
  unfold cachedPrice, setCachedPrice. rewrite lookup_insert.
  destruct (decide (b = b')); reflexivity.
Qed.

Lemma cachedPrice_setTimestamp cache b t b' :
  cachedPrice (setCachedTimestamp cache b t) b' = cachedPrice cache b'.
Proof.
  unfold cachedPrice, setCachedTimestamp. rewrite lookup_insert.
  destruct (decide (b = b')) as [<-|]; reflexivity.
Qed.

Lemma storeTimestamp_None reads bs : fold_left (storeTimestamp reads) bs None = None.
Proof. induction bs as [|y bs IH]; [reflexivity | exact IH]. Qed.

Lemma storePrice_None reads bs : fold_left (storePrice reads) bs None = None.
Proof. induction bs as [|y bs IH]; [reflexivity | exact IH]. Qed.

Lemma fetchBlockTimestamps_prices reads bs : forall cache cache',
  fetchBlockTimestamps reads cache bs = Some cache' ->
  forall b, cachedPrice cache' b = cachedPrice cache b.
Proof.
  unfold fetchBlockTimestamps.
  induction bs as [|x bs IH]; intros cache cache' H b.
  - injection H as <-. reflexivity.
  - cbn [fold_left] in H. unfold storeTimestamp at 2 in H. cbn [bind] in H.
    destruct (getBlock reads x) as [t|]; cbn [bind] in H.
    + rewrite (IH _ _ H b). apply cachedPrice_setTimestamp.
    + rewrite storeTimestamp_None in H. discriminate H.
Qed.

Lemma fetchPricePerShare_abort reads bs : forall cache b,
  In b bs -> readContract reads b = None ->
  fetchPricePerShare reads cache bs = None.
Proof.
  unfold fetchPricePerShare.
  induction bs as [|x bs IH]; intros cache b Hin Hb; [destruct Hin|].
  cbn [fold_left]. unfold storePrice at 2. cbn [bind].
  destruct Hin as [->|Hin].
  - rewrite Hb. cbn [bind]. apply storePrice_None.
  - destruct (readContract reads x) as [[ta ts]|]; cbn [bind];
      [|apply storePrice_None].
    destruct (negb (ta =? 0) && negb (ts =? 0)); apply (IH _ b Hin Hb).
Qed.

(** A price in the cache after the fetch was there before, or was
    computed from two totals really read, neither of them 0. *)
Lemma fetchPricePerShare_prices reads bs : forall cache cache',
  fetchPricePerShare reads cache bs = Some cache' ->
  forall b p,
    cachedPrice cache' b = Some p ->
    cachedPrice cache b = Some p
    \/ exists totalAssets totalSupply,
         readContract reads b = Some (totalAssets, totalSupply)
         /\ totalAssets <> 0 /\ totalSupply <> 0
         /\ p = priceOfTotals totalAssets totalSupply.
Proof.
  unfold fetchPricePerShare.
  induction bs as [|x bs IH]; intros cache cache' H b p Hp.
  - injection H as <-. left. exact Hp.
  - cbn [fold_left] in H. unfold storePrice at 2 in H. cbn [bind] in H.
    destruct (readContract reads x) as [[ta ts]|] eqn:Ex; cbn [bind] in H.
    + destruct (negb (ta =? 0) && negb (ts =? 0)) eqn:Enz.
      * destruct (IH _ _ H b p Hp) as [Hold|Hnew]; [|right; exact Hnew].
        rewrite cachedPrice_setPrice in Hold.
        destruct (decide (x = b)) as [<-|]; [|left; exact Hold].
        injection Hold as <-. right. exists ta, ts.
        apply andb_true_iff in Enz as [Ha Hs].
        rewrite negb_true_iff in Ha, Hs.
        apply Z.eqb_neq in Ha. apply Z.eqb_neq in Hs. auto.
      * exact (IH _ _ H b p Hp).
    + rewrite storePrice_None in H. discriminate H.
Qed.

Lemma interactionOfEvent_price cache ev u :
  In u (interactionOfEvent cache ev) ->
  blockNumber u = eventBlock (snd ev)
  /\ cachedPrice cache (blockNumber u) = Some (pricePerShare u).
Proof.
  unfold interactionOfEvent, cachedPrice.
  destruct (cache !! eventBlock (snd ev)) as [[[t|] [p|]]|] eqn:E; simpl;
    try contradiction.
  intros [<-|[]]. simpl. rewrite E. auto.
Qed.

Lemma fetched_price cache ds ws u :
  In u (fetchUserInteractions cache ds ws) ->
  cachedPrice cache (blockNumber u) = Some (pricePerShare u)
  /\ exists ev, In ev (ds ++ ws) /\ blockNumber u = eventBlock ev.
Proof.
  unfold fetchUserInteractions. rewrite in_flat_map. intros ([k ev] & Hev & Hu).
  apply interactionOfEvent_price in Hu as [Hb Hp]. split; [exact Hp|].
  exists ev. split; [|exact Hb].
  apply in_app_or in Hev. apply in_or_app.
  destruct Hev as [Hev|Hev]; [left|right];
    apply in_map_iff in Hev; destruct Hev as (e & [= _ <-] & He); exact He.
Qed.

Lemma ledger_prices reads cache ds ws us cache2 u :
  fetchUserInteractionsFromLogs reads cache ds ws = Some (us, cache2) ->
  In u us ->
  cachedPrice cache (blockNumber u) = Some (pricePerShare u)
  \/ exists totalAssets totalSupply,
       readContract reads (blockNumber u) = Some (totalAssets, totalSupply)
       /\ totalAssets <> 0 /\ totalSupply <> 0
       /\ pricePerShare u = priceOfTotals totalAssets totalSupply.
Proof.
  unfold fetchUserInteractionsFromLogs. cbv zeta.
  destruct (fetchBlockTimestamps reads cache _) as [cache1|] eqn:E1; simpl;
    [|discriminate].
  destruct (fetchPricePerShare reads cache1 _) as [cache2'|] eqn:E2; simpl;
    [|discriminate].
  intros [= <- <-] Hu. apply fetched_price in Hu as [Hp _].
  destruct (fetchPricePerShare_prices _ _ _ _ E2 _ _ Hp) as [Hold|Hnew];
    [|right; exact Hnew].
  left. rewrite <- (fetchBlockTimestamps_prices _ _ _ _ E1). exact Hold.
Qed.

Lemma ledger_abort reads cache ds ws ev :
  In ev (ds ++ ws) ->
  readContract reads (eventBlock ev) = None ->
  fetchUserInteractionsFromLogs reads cache ds ws = None.
Proof.
  intros Hin Hread. unfold fetchUserInteractionsFromLogs. cbv zeta.
  destruct (fetchBlockTimestamps reads cache _) as [cache1|]; simpl; [|reflexivity].
  rewrite (fetchPricePerShare_abort reads _ cache1 (eventBlock ev)); [reflexivity| |exact Hread].
  apply uniqueBlocks_In. split; [apply in_map; exact Hin | intros []].
Qed.

Lemma scaledPrice_one : scaledPrice 1 = SCALE.
Proof. reflexivity. Qed.

(** The open period when the latest price cannot be read. *)
Lemma open_period_at_unit_price client us cache st c lastInteraction :
  last us = Some lastInteraction ->
  currentShares st <> 0 ->
  Qltb 0.04 (daysOfSeconds (snd (latestBlock client) - timestamp lastInteraction))
  = true ->
  cachedPrice cache (fst (latestBlock client)) = None ->
  (forall k, readTotals client (fst (latestBlock client)) k = None) ->
  calculateInterestToLatestBlock client us cache st = Some c ->
  exists p,
    periods c = enhancedPeriods st ++ [p]
    /\ endBlock p = fst (latestBlock client)
    /\ endTimestamp p = snd (latestBlock client)
    /\ endPrice p = 1%Q
    /\ sharesHeldBigint p = currentShares st
    /\ endValueBigint p = currentShares st
    /\ interestAccruedBigint p
       = Z.max (endValueBigint p - startValueBigint p) 0.
Proof.
  intros Hlast Hcs Hopen Hcache Hreads. unfold calculateInterestToLatestBlock.
  rewrite Hlast. apply Z.eqb_neq in Hcs. rewrite Hcs.
  destruct (latestBlock client) as [latestNumber latestTimestamp].
  cbn [fst snd] in *.
  assert (Hprice : getPricePerShareAtBlock client cache latestNumber 3 = (1%Q, cache)).
  { simpl. rewrite !Hcache, !Hreads. reflexivity. }
  rewrite Hprice, Hopen.
  destruct (makePeriod _ _ _ _ _ _ _ _ _ _) as [p|] eqn:Emk; simpl; [|discriminate].
  intros [= <-]. exists p. simpl.
  pose proof (OverviewFacts.makePeriod_made _ _ _ _ _ _ _ _ _ _ _ Emk) as Hm.
  destruct Hm as [Hsh Hst Hen Hint _ _ [_ Het] [_ Hep] _].
  assert (HeB : endBlock p = latestNumber).
  { unfold makePeriod in Emk.
    destruct (percentOf _ _); simpl in Emk; [|discriminate].
    destruct (percentOf _ _); simpl in Emk; [|discriminate].
    injection Emk as <-. reflexivity. }
  assert (Hend : endValueBigint p = currentShares st).
  { rewrite Hen, scaledPrice_one. apply Z.quot_mul. discriminate. }
  repeat split; try assumption.
  rewrite Hint. apply OverviewFacts.clampedInterest_max.
Qed.

End FetchFacts.

(** * The claims *)

(** C1, as amended: every period of the [overview.ts] calculator has
    [startValue = shares * startPrice / 1e18] and
    [endValue = shares * endPrice / 1e18] in [bigint] arithmetic and
    [interestAccrued = max(endValue - startValue, 0)], hence never
    negative; every period of the [VaultPeriodTracker] records the signed
    difference [endValue - startValue] of the two [bigint] values, with
    no clamp: it is negative exactly when [endValue < startValue], and
    for a positive balance it is never positive when the end price is
    not above the start price. *)
Theorem interest_clamped_in_overview_signed_in_tracker :
  (forall client us cache c p,
     Overview.calculatePreciseInterestBetweenInteractions client us cache = Some c ->
     In p (Overview.periods c) ->
     Overview.startValueBigint p
     = Z.quot (Overview.sharesHeldBigint p * scaledPrice (Overview.startPrice p)) SCALE
     /\ Overview.endValueBigint p
        = Z.quot (Overview.sharesHeldBigint p * scaledPrice (Overview.endPrice p)) SCALE
     /\ Overview.interestAccruedBigint p
        = Z.max (Overview.endValueBigint p - Overview.startValueBigint p) 0
     /\ 0 <= Overview.interestAccruedBigint p)
  /\
  (forall client assetData us st p,
     Tracker.calculatePeriods client assetData us = Some st ->
     In p (Tracker.periods st) ->
     Tracker.positionAmountUnderlyingUnits p
     = Z.quot (Tracker.positionShares p
               * scaledPrice (Tracker.getPricePerShareAtBlock client (Tracker.startBlock p)))
         SCALE
     /\ Tracker.positionAccruedInterestUnderlyingUnits p
        = Z.quot (Tracker.positionShares p
                  * scaledPrice (Tracker.getPricePerShareAtBlock client (Tracker.endBlock p)))
            SCALE
          - Tracker.positionAmountUnderlyingUnits p
     /\ (Tracker.positionAccruedInterestUnderlyingUnits p < 0
         <-> Z.quot (Tracker.positionShares p
                     * scaledPrice (Tracker.getPricePerShareAtBlock client
                                      (Tracker.endBlock p)))
               SCALE
             < Tracker.positionAmountUnderlyingUnits p)
     /\ (0 < Tracker.positionShares p ->
         (Tracker.getPricePerShareAtBlock client (Tracker.endBlock p)
          <= Tracker.getPricePerShareAtBlock client (Tracker.startBlock p))%Q ->
         Tracker.positionAccruedInterestUnderlyingUnits p <= 0)).
Proof.
  split.
  - intros client us cache c p Hrun Hin.
    apply OverviewFacts.pass_invariant in Hrun as [Hall _].
    rewrite List.Forall_forall in Hall.
    destruct (OverviewPeriods.emitted_values p (Hall p Hin)) as (Hs & He & Hi).
    repeat split; try assumption. rewrite Hi. lia.
  - intros client assetData us st p Hrun Hin.
    apply TrackerFacts.calculatePeriods_emitted in Hrun.
    rewrite List.Forall_forall in Hrun.
    destruct (Hrun p Hin) as [_ Hs Hi _ _ _ _].
    split; [exact Hs|]. split; [exact Hi|]. split; [rewrite Hi; lia|].
    intros Hpos Hprice. rewrite Hi, Hs.
    pose proof (PriceFacts.scaledPrice_le _ _ Hprice) as Hscaled.
    assert (Z.quot (Tracker.positionShares p
                    * scaledPrice (Tracker.getPricePerShareAtBlock client
                                     (Tracker.endBlock p))) SCALE
            <= Z.quot (Tracker.positionShares p
                       * scaledPrice (Tracker.getPricePerShareAtBlock client
                                        (Tracker.startBlock p))) SCALE).
    { apply Z.quot_le_mono; [reflexivity|]. apply Z.mul_le_mono_nonneg_l; lia. }
    lia.
Qed.

Lemma interest_clamped_in_overview_signed_in_tracker_witness :
  (exists c p,
     Samples.overviewRun Samples.fallingClient Samples.dearDeposit = Some c
     /\ In p (Overview.periods c)
     /\ Overview.interestAccruedBigint p
        = Z.max (Overview.endValueBigint p - Overview.startValueBigint p) 0)
  /\
  (exists st p,
     Tracker.calculatePeriods Samples.droppingClient None Samples.soleDeposit = Some st
     /\ In p (Tracker.periods st)
     /\ Tracker.positionAccruedInterestUnderlyingUnits p
        = Z.quot (Tracker.positionShares p
                  * scaledPrice (Tracker.getPricePerShareAtBlock Samples.droppingClient
                                   (Tracker.endBlock p)))
            SCALE
          - Tracker.positionAmountUnderlyingUnits p
     /\ Tracker.positionAccruedInterestUnderlyingUnits p <= 0).
Proof.
  split.
  - eexists. eexists. split; [vm_compute; reflexivity|].
    split; [left; reflexivity|].
    eapply (proj1 interest_clamped_in_overview_signed_in_tracker
              Samples.fallingClient Samples.dearDeposit ∅);
      [vm_compute; reflexivity | left; reflexivity].
  - eexists. eexists. split; [vm_compute; reflexivity|].
    split; [left; reflexivity|]. split.
    + refine (proj1 (proj2 (proj2 interest_clamped_in_overview_signed_in_tracker
                              Samples.droppingClient None Samples.soleDeposit _ _ _ _)));
        [vm_compute; reflexivity | left; reflexivity].
    + refine (proj2 (proj2 (proj2 (proj2 interest_clamped_in_overview_signed_in_tracker
                                     Samples.droppingClient None Samples.soleDeposit
                                     _ _ _ _))) _ _);
        [vm_compute; reflexivity | left; reflexivity | vm_compute; reflexivity
        | vm_compute; discriminate].
Defined.

(** C1 as stated fails on the tracker: one share deposited at price 2.0
    and valued at price 1.0 at the latest block gives a period whose
    interest is [-1e18]. *)
Lemma tracker_interest_negative :
  exists st p,
    Tracker.calculatePeriods Samples.droppingClient None Samples.soleDeposit = Some st
    /\ In p (Tracker.periods st)
    /\ Tracker.positionAccruedInterestUnderlyingUnits p = - SCALE
    /\ ~ 0 <= Tracker.positionAccruedInterestUnderlyingUnits p
    /\ Tracker.positionAccruedInterestUnderlyingUnits p
       <> Z.max (Z.quot (Tracker.positionShares p
                         * scaledPrice (Tracker.getPricePerShareAtBlock
                                          Samples.droppingClient (Tracker.endBlock p)))
                   SCALE
                 - Tracker.positionAmountUnderlyingUnits p) 0.
Proof.
  eexists. eexists. split; [vm_compute; reflexivity|].
  split; [left; reflexivity|].
  split; [vm_compute; reflexivity|].
  split; vm_compute; intros H; [apply H; reflexivity | discriminate H].
Qed.




(** The calculator's own cut-off sits below the hour its comments name:
    a window of 3500 seconds, in which the price moved, is pushed as a
    period with interest. *)
Lemma overview_emits_3500_second_period :
  exists c p,
    Samples.overviewRun Samples.risingClient Samples.quickDeposits = Some c
    /\ In p (Overview.periods c)
    /\ Overview.endTimestamp p - Overview.startTimestamp p = 3500
    /\ 0 < Overview.interestAccruedBigint p.
Proof.
  eexists. eexists. split; [vm_compute; reflexivity|].
  split; [left; reflexivity|].
  split; reflexivity.
Qed.

(** C3, as amended: with one deposit and nothing else, the
    reconciliation values the position at the deposit's own price, so
    [simpleInterest = max(shares * depositPrice / 1e18 - assets, 0)],
    while the period figure is the sum over the pushed periods: nothing,
    or the one open period with
    [max(shares * latestPrice / 1e18 - shares * depositPrice / 1e18, 0)]. *)
Theorem single_deposit_reconciliation :
  forall client cache d c,
    Overview.type d = deposit ->
    Overview.calculatePreciseInterestBetweenInteractions client [d] cache = Some c ->
    let depositValue :=
      Z.quot (Overview.shares d * scaledPrice (Overview.pricePerShare d)) SCALE in
    let latestPrice :=
      fst (Overview.getPricePerShareAtBlock client cache
             (fst (Overview.latestBlock client)) 3) in
    let latestValue := Z.quot (Overview.shares d * scaledPrice latestPrice) SCALE in
    let r := Overview.reconcileInterestCalculation c in
    Overview.simpleInterest r = Z.max (depositValue - Overview.assets d) 0
    /\ Overview.calculatedInterest r = OverviewSpec.sumInterest (Overview.periods c)
    /\ (Overview.periods c = []
        \/ exists p, Overview.periods c = [p]
                     /\ Overview.interestAccruedBigint p
                        = Z.max (latestValue - depositValue) 0).
Proof.
  intros client cache d c Hty Hrun.
  unfold Overview.calculatePreciseInterestBetweenInteractions in Hrun.
  simpl in Hrun. unfold Overview.applyInteraction in Hrun.
  rewrite Hty, Z.add_0_l in Hrun.
  unfold Overview.calculateInterestToLatestBlock in Hrun.
  change (last [d]) with (Some d) in Hrun.
  cbn [Overview.currentShares Overview.runningInterest Overview.enhancedPeriods]
    in Hrun.
  assert (Hsimple : forall c', Overview.userInteractions c' = [d] ->
            Overview.simpleInterest (Overview.reconcileInterestCalculation c')
            = Z.max (Z.quot (Overview.shares d * scaledPrice (Overview.pricePerShare d))
                       SCALE - Overview.assets d) 0).
  { intros c' Hus. unfold Overview.reconcileInterestCalculation,
      Overview.calculatePreciseTotalValue. rewrite Hus. simpl. rewrite Hty. simpl.
    rewrite !Z.add_0_l. destruct (_ >? _) eqn:E; lia. }
  assert (Hcalc : forall c',
            Overview.calculatedInterest (Overview.reconcileInterestCalculation c')
            = Overview.totalInterestAccruedBigint c').
  { intros c'. unfold Overview.reconcileInterestCalculation.
    destruct (Overview.calculatePreciseTotalValue _) as [[td cs] cv]. reflexivity. }
  destruct (Overview.shares d =? 0) eqn:Ecs.
  { injection Hrun as <-. cbv zeta. split; [apply Hsimple; reflexivity|].
    split; [apply Hcalc | left; reflexivity]. }
  destruct (Overview.latestBlock client) as [latestNumber latestTimestamp].
  cbn [fst]. destruct (Overview.getPricePerShareAtBlock client cache latestNumber 3)
    as [latestPrice cache'].
  destruct (Qltb 0.04 _).
  - destruct (Overview.makePeriod _ _ _ _ _ _ _ _ _ _) as [p|] eqn:Emk;
      simpl in Hrun; [|discriminate].
    injection Hrun as <-. cbv zeta.
    apply OverviewFacts.makePeriod_made in Emk.
    destruct Emk as [_ Hs He Hi Hc _ _ _ _].
    split; [apply Hsimple; reflexivity|].
    split.
    + rewrite Hcalc. unfold OverviewSpec.sumInterest.
      cbn [Overview.totalInterestAccruedBigint Overview.periods map fold_right app].
      lia.
    + right. exists p. split; [reflexivity|].
      rewrite Hi, OverviewFacts.clampedInterest_max, Hs, He. reflexivity.
  - injection Hrun as <-. cbv zeta. split; [apply Hsimple; reflexivity|].
    split; [apply Hcalc | left; reflexivity].
Qed.

Lemma single_deposit_reconciliation_witness :
  exists c,
    Samples.overviewRun Samples.risingClient Samples.oneDeposit = Some c
    /\ Overview.simpleInterest (Overview.reconcileInterestCalculation c) = 0
    /\ Overview.calculatedInterest (Overview.reconcileInterestCalculation c)
       = OverviewSpec.sumInterest (Overview.periods c).
Proof.
  eexists. split; [vm_compute; reflexivity|].
  match goal with |- context [Overview.reconcileInterestCalculation ?c] =>
    pose proof (single_deposit_reconciliation Samples.risingClient ∅
                  {| Overview.blockNumber := 1; Overview.timestamp := 0;
                     Overview.type := deposit; Overview.assets := SCALE;
                     Overview.shares := SCALE; Overview.pricePerShare := 1 |}
                  c eq_refl) as H
  end.
  specialize (H ltac:(vm_compute; reflexivity)).
  cbv zeta in H. destruct H as (H1 & H2 & _).
  split; [rewrite H1; vm_compute; reflexivity | exact H2].
Defined.

(** C3 as stated fails: one share deposited at price 1.0, a year later
    the price is 1.5.  The period figure is [0.5e18]; the simple figure,
    taken at the deposit's price, is 0. *)
Lemma single_deposit_figures_differ :
  exists c,
    Samples.overviewRun Samples.risingClient Samples.oneDeposit = Some c
    /\ Overview.calculatedInterest (Overview.reconcileInterestCalculation c)
       = 500000000000000000
    /\ Overview.simpleInterest (Overview.reconcileInterestCalculation c) = 0
    /\ Overview.simpleInterest (Overview.reconcileInterestCalculation c)
       <> Overview.calculatedInterest (Overview.reconcileInterestCalculation c).
Proof.
  eexists. split; [vm_compute; reflexivity|].
  vm_compute. repeat split; discriminate.
Qed.

(** C4, as amended, with numbers taken as exact reals: for a period of
    positive length whose USD position is positive and was not wholly
    lost, the tracker's [nativeAPY] is [((1 + r)^AF - 1) * 100] with [r]
    the period's USD interest over its USD position and
    [AF = 31536000 / durationSeconds]; with no positive USD position it
    is 0.  For every period the calculator pushes between positive
    prices, [apy] is
    [((endPrice / startPrice)^(31536000 / durationSeconds) - 1) * 100]
    over a positive duration: it is taken from the raw price ratio, not
    from the period's clamped interest, so it is negative when the price
    fell; it is the claimed formula on the period's own interest and
    start value when the value did not fall and the value ratio is the
    price ratio. *)
Theorem native_apy_formulas :
  (forall period,
     (0 < Tracker.positionAmountUSD period)%Q ->
     Tracker.startTimestamp period < Tracker.endTimestamp period ->
     (- Tracker.positionAmountUSD period
      < Tracker.positionAccruedInterestUSD period)%Q ->
     Tracker.nativeAPY (Tracker.calculatePeriodYieldMetrics period)
     = specNativeAPY (Q2R (Tracker.positionAccruedInterestUSD period))
         (Q2R (Tracker.positionAmountUSD period))
         (IZR (Tracker.endTimestamp period - Tracker.startTimestamp period)))
  /\
  (forall period,
     (Tracker.positionAmountUSD period <= 0)%Q ->
     Tracker.nativeAPY (Tracker.calculatePeriodYieldMetrics period) = 0%R)
  /\
  (forall client us cache c p,
     Overview.calculatePreciseInterestBetweenInteractions client us cache = Some c ->
     In p (Overview.periods c) ->
     (0 < Overview.startPrice p)%Q ->
     (0 < Overview.endPrice p)%Q ->
     0 < Overview.endTimestamp p - Overview.startTimestamp p
     /\ Overview.apy p
        = ((Rpower (Q2R (Overview.endPrice p) / Q2R (Overview.startPrice p))
              (31536000
               / IZR (Overview.endTimestamp p - Overview.startTimestamp p))
            - 1) * 100)%R
     /\ ((Overview.endPrice p < Overview.startPrice p)%Q ->
         (Overview.apy p < 0)%R)
     /\ (0 < Overview.startValueBigint p ->
         Overview.startValueBigint p <= Overview.endValueBigint p ->
         (Q2R (Overview.endPrice p) / Q2R (Overview.startPrice p)
          = IZR (Overview.endValueBigint p) / IZR (Overview.startValueBigint p))%R ->
         Overview.apy p
         = specNativeAPY (IZR (Overview.interestAccruedBigint p))
             (IZR (Overview.startValueBigint p))
             (IZR (Overview.endTimestamp p - Overview.startTimestamp p)))).
Proof.
  split; [|split].
  - intros period Hpos _ _. rewrite YieldFacts.tracker_apy_formula.
    replace (Qltb 0 (Tracker.positionAmountUSD period)) with true; [reflexivity|].
    symmetry. unfold Qltb. rewrite negb_true_iff.
    destruct (Qle_bool (Tracker.positionAmountUSD period) 0) eqn:E; [|reflexivity].
    apply Qle_bool_iff in E. exfalso. exact (Qlt_not_le _ _ Hpos E).
  - intros period Hpos. rewrite YieldFacts.tracker_apy_formula.
    replace (Qltb 0 (Tracker.positionAmountUSD period)) with false; [reflexivity|].
    symmetry. unfold Qltb. rewrite negb_false_iff. apply Qle_bool_iff. exact Hpos.
  - intros client us cache c p Hrun Hin Hs He.
    apply OverviewFacts.pass_invariant in Hrun as [Hall _].
    rewrite List.Forall_forall in Hall. specialize (Hall p Hin).
    destruct (OverviewPeriods.emitted_duration p Hall) as [Hdays Hlen].
    destruct (OverviewPeriods.emitted_values p Hall) as (_ & _ & Hint).
    set (secs := Overview.endTimestamp p - Overview.startTimestamp p) in *.
    assert (Hsecs : 0 < secs) by lia.
    assert (Hratio : Q2R (Overview.endPrice p / Overview.startPrice p)
                     = (Q2R (Overview.endPrice p) / Q2R (Overview.startPrice p))%R).
    { apply Q2R_div. apply AnnualFacts.Q_nonzero. exact Hs. }
    assert (Hapy : Overview.apy p
                   = ((Rpower (Q2R (Overview.endPrice p) / Q2R (Overview.startPrice p))
                         (31536000 / IZR secs) - 1) * 100)%R).
    { unfold Overview.apy. cbv zeta.
      rewrite Hdays, YieldFacts.annualization_exponent by exact Hsecs.
      rewrite Hratio. reflexivity. }
    split; [exact Hsecs|]. split; [exact Hapy|]. split.
    + intros Hfall. rewrite Hapy.
      assert (Hs' : (0 < Q2R (Overview.startPrice p))%R).
      { apply Qlt_Rlt in Hs. rewrite RMicromega.Q2R_0 in Hs. exact Hs. }
      assert (He' : (0 < Q2R (Overview.endPrice p))%R).
      { apply Qlt_Rlt in He. rewrite RMicromega.Q2R_0 in He. exact He. }
      apply Qlt_Rlt in Hfall.
      assert (Hx : (0 < Q2R (Overview.endPrice p) / Q2R (Overview.startPrice p) < 1)%R).
      { split; [apply Rdiv_lt_0_compat; assumption|].
        apply Rmult_lt_reg_r with (Q2R (Overview.startPrice p)); [exact Hs'|].
        unfold Rdiv. rewrite Rmult_assoc, Rinv_l by lra. lra. }
      assert (Hy : (0 < 31536000 / IZR secs)%R).
      { apply Rdiv_lt_0_compat; [lra | apply IZR_lt; exact Hsecs]. }
      destruct (AnnualFacts.Rpower_sign _ _ (proj1 Hx) Hy) as (_ & _ & Hlt).
      specialize (Hlt (proj2 Hx)). lra.
    + intros Hpos Hle Hval.
      apply (YieldFacts.overview_apy_formula p secs Hdays Hsecs Hpos Hle);
        [rewrite Hint; reflexivity | rewrite Hratio; exact Hval].
Qed.

Lemma native_apy_formulas_witness :
  (exists st period,
     Tracker.calculatePeriods Samples.droppingClient (Some Samples.dollarAsset)
       Samples.soleDeposit = Some st
     /\ Tracker.periods st = [period]
     /\ Tracker.nativeAPY (Tracker.calculatePeriodYieldMetrics period)
        = specNativeAPY (Q2R (Tracker.positionAccruedInterestUSD period))
            (Q2R (Tracker.positionAmountUSD period)) 1900)
  /\
  (exists st period,
     Tracker.calculatePeriods Samples.droppingClient None Samples.soleDeposit = Some st
     /\ Tracker.periods st = [period]
     /\ Tracker.nativeAPY (Tracker.calculatePeriodYieldMetrics period) = 0%R)
  /\
  (exists c p,
     Samples.overviewRun Samples.risingClient Samples.oneDeposit = Some c
     /\ In p (Overview.periods c)
     /\ Overview.apy p
        = specNativeAPY (IZR (Overview.interestAccruedBigint p))
            (IZR (Overview.startValueBigint p)) (IZR Samples.year)).
Proof.
  destruct native_apy_formulas as (Htracker & Hunpriced & Hoverview).
  split; [|split].
  - eexists. eexists. split; [vm_compute; reflexivity|]. split; [reflexivity|].
    match goal with |- Tracker.nativeAPY (Tracker.calculatePeriodYieldMetrics ?q) = _ =>
      exact (Htracker q ltac:(vm_compute; reflexivity) ltac:(vm_compute; reflexivity)
               ltac:(vm_compute; reflexivity))
    end.
  - eexists. eexists. split; [vm_compute; reflexivity|]. split; [reflexivity|].
    apply Hunpriced. vm_compute. discriminate.
  - eexists. eexists. split; [vm_compute; reflexivity|].
    split; [left; reflexivity|].
    refine (proj2 (proj2 (proj2 (Hoverview Samples.risingClient Samples.oneDeposit ∅
                                   _ _ _ _ _ _))) _ _ _).
    + vm_compute. reflexivity.
    + left. reflexivity.
    + vm_compute. reflexivity.
    + vm_compute. reflexivity.
    + vm_compute. reflexivity.
    + vm_compute. discriminate.
    + cbn [Overview.endPrice Overview.startPrice Overview.endValueBigint
           Overview.startValueBigint].
      match goal with |- (Q2R ?a / Q2R ?b = _)%R =>
        rewrite (Qeq_eqR a (3 # 2)) by (vm_compute; reflexivity)
      end.
      unfold Q2R. simpl. lra.
Defined.

(** C4 as stated fails on the calculator: one share bought at price 2.0
    and valued at 1.0 a year later has interest 0 after the clamp, so the
    claimed formula gives 0, while the recorded [apy] is
    [(0.5^1 - 1) * 100 = -50]. *)
Lemma falling_price_apy :
  exists c p,
    Samples.overviewRun Samples.fallingClient Samples.dearDeposit = Some c
    /\ In p (Overview.periods c)
    /\ Overview.apy p
       <> specNativeAPY (IZR (Overview.interestAccruedBigint p))
            (IZR (Overview.startValueBigint p))
            (IZR (Overview.endTimestamp p - Overview.startTimestamp p)).
Proof.
  eexists. eexists. split; [vm_compute; reflexivity|].
  split; [left; reflexivity|].
  unfold Overview.apy, specNativeAPY. cbv zeta.
  cbn [Overview.endPrice Overview.startPrice Overview.durationDays
       Overview.interestAccruedBigint Overview.startValueBigint
       Overview.endTimestamp Overview.startTimestamp].
  match goal with |- context [Rpower (Q2R ?a) (Q2R ?b)] =>
    rewrite (Qeq_eqR a (1 # 2)) by (vm_compute; reflexivity);
    rewrite (Qeq_eqR b 1) by (vm_compute; reflexivity)
  end.
  replace (Q2R (1 # 2)) with (1 / 2)%R by (unfold Q2R; simpl; lra).
  replace (Q2R 1) with 1%R by (unfold Q2R; simpl; lra).
  change (31536000 - 0) with 31536000.
  match goal with |- context [Rpower (1 + ?a) ?b] =>
    replace (1 + a)%R with 1%R by (unfold Rdiv; rewrite Rmult_0_l; ring);
    replace b with 1%R by (field; apply not_0_IZR; lia)
  end.
  rewrite !Rpower_1 by lra. lra.
Qed.

(** C5: in the list of periods the calculator pushes, the
    [cumulativeInterest] of the period at index [k] is the sum, in
    [bigint] arithmetic, of [interestAccruedBigint] over the periods at
    indices [0 .. k]. *)
Theorem cumulative_interest_is_prefix_sum :
  forall client us cache c k p,
    Overview.calculatePreciseInterestBetweenInteractions client us cache = Some c ->
    nth_error (Overview.periods c) k = Some p ->
    Overview.cumulativeInterest p
    = OverviewSpec.sumInterest (firstn (S k) (Overview.periods c)).
Proof.
  intros client us cache c k p Hrun Hk.
  apply OverviewFacts.pass_invariant in Hrun as (_ & Hacc & _).
  exact (OverviewFacts.accumulates_prefix _ _ Hacc k p Hk).
Qed.

Lemma cumulative_interest_is_prefix_sum_witness :
  exists c p,
    Samples.overviewRun Samples.risingClient Samples.threeSteps = Some c
    /\ nth_error (Overview.periods c) 2 = Some p
    /\ Overview.cumulativeInterest p = 150
    /\ Overview.cumulativeInterest p
       = OverviewSpec.sumInterest (firstn 3 (Overview.periods c)).
Proof.
  eexists. eexists. split; [vm_compute; reflexivity|].
  split; [reflexivity|].
  split; [reflexivity|].
  eapply (cumulative_interest_is_prefix_sum Samples.risingClient Samples.threeSteps ∅);
    [vm_compute; reflexivity | reflexivity].
Defined.

(** C6: whatever the order of the incoming interactions, the tracker's
    [sortInteractions] returns them, all of them and nothing else, by
    ascending block with, at equal block, no withdrawal in front of a
    deposit; the calculator's sort by block does the same on the list
    [fetchUserInteractions] builds, whatever the order of the deposit
    and of the withdrawal events. *)
Theorem interactions_sorted_deposit_first :
  (forall us,
     Permutation us (Tracker.sortInteractions us)
     /\ StronglySorted trackerOrder (Tracker.sortInteractions us))
  /\
  (forall cache depositEvents withdrawEvents,
     let us := Overview.fetchUserInteractions cache depositEvents withdrawEvents in
     Permutation us (Overview.sortInteractions us)
     /\ StronglySorted overviewOrder (Overview.sortInteractions us)).
Proof.
  split.
  - intros us. split; [apply array_sort_perm | apply SortingFacts.tracker_sorted].
  - intros cache depositEvents withdrawEvents us.
    split; [apply array_sort_perm|].
    apply SortingFacts.overview_sorted, SortingFacts.fetched_depositsFirst.
Qed.

(** C7, at the input where the tracker breaks it: a deposit of 100
    shares at block 1 and the withdrawal of the 100 shares at block 10.
    The ledger holds no share after the withdrawal, yet the tracker
    pushes a second period that starts at the withdrawal, runs to the
    latest block and holds [-100] shares: the balance was set to zero
    before the withdrawal was processed and the withdrawal then
    subtracted again. *)
Theorem tracker_period_after_full_withdrawal :
  TrackerSpec.ledgerBalance (Tracker.sortInteractions Samples.exitLedger) 1 = 0
  /\ (exists st,
        Tracker.initialize Samples.droppingClient None Samples.exitLedger = Some st
        /\ map (fun p => (Tracker.periodeNumber p, Tracker.startBlock p,
                          Tracker.endBlock p, Tracker.positionShares p))
             (Tracker.periods st)
           = [ (1%nat, 1, 10, 100 * SCALE); (2%nat, 10, 20, - (100 * SCALE)) ])
  /\ ~ TrackerSpec.closedStaysClosed Samples.droppingClient None
         (Tracker.sortInteractions Samples.exitLedger).
Proof.
  split; [vm_compute; reflexivity|].
  split.
  - eexists. split; vm_compute; reflexivity.
  - intros H.
    assert (Hrun : exists st p,
               Tracker.calculatePeriods Samples.droppingClient None
                 (Tracker.sortInteractions Samples.exitLedger) = Some st
               /\ In p (Tracker.periods st)
               /\ Tracker.periodeNumber p = 2%nat).
    { eexists. eexists. split; [vm_compute; reflexivity|].
      split; [right; left; reflexivity | reflexivity]. }
    destruct Hrun as (st & p & Hst & Hin & Hn).
    apply (H st p Hst Hin). rewrite Hn. vm_compute. reflexivity.
Qed.

(** C8, as amended: in the tracker a price read that fails is answered
    with the price 1.0 at once and the period is computed and pushed with
    it: the tracker's run is the run it makes when every failed read is
    replaced by a vault holding one asset unit per share.  In
    [overview.ts] only the price of the latest block, the end of the open
    period, is read by [getPricePerShareAtBlock]: when the retries fail
    it answers 1.0 and the open period is computed and pushed with end
    price 1.0.  The prices at the interactions' blocks come from
    [fetchPricePerShare], which substitutes nothing: a rejected read
    rejects [fetchUserInteractions], a block one of whose totals reads 0
    gets no price and its events are left out of the ledger, and every
    price of the ledger comes from two totals really read or was in the
    cache already.  A rewards sample that is missing, empty or unreadable
    gives the period an empty reward list, worth 0, and no error. *)
Theorem failed_price_read_is_priced_at_one :
  (forall (client : Tracker.Client) b,
     Tracker.readTotals client b = None ->
     Tracker.getPricePerShareAtBlock client b = 1%Q)
  /\
  (forall (client : Overview.Client) cache b,
     Overview.cachedPrice cache b = None ->
     (forall k, Overview.readTotals client b k = None) ->
     Overview.getPricePerShareAtBlock client cache b 3 = (1%Q, cache))
  /\
  (forall client assetData us,
     Tracker.calculatePeriods (TrackerSpec.orUnitPrice client) assetData us
     = Tracker.calculatePeriods client assetData us)
  /\
  (forall client st sBlock eBlock s e,
     Tracker.getBlockTimestamp client sBlock = Some s ->
     Tracker.getBlockTimestamp client eBlock = Some e ->
     Tracker.rewardsCache st !! (s, e) = None ->
     Tracker.fetchBalanceTimeseries client s e = None
     \/ Tracker.fetchBalanceTimeseries client s e = Some []
     \/ Tracker.calculateRewardsForPeriod client s e = None ->
     exists st',
       Tracker.fetchRewardsForPeriod client st sBlock eBlock = Some ([], st')
       /\ Tracker.periods st' = Tracker.periods st)
  /\ Tracker.rewardsValueUSD [] = 0%Q
  /\
  (forall client us cache st c lastInteraction,
     last us = Some lastInteraction ->
     Overview.currentShares st <> 0 ->
     Qltb 0.04 (daysOfSeconds (snd (Overview.latestBlock client)
                               - Overview.timestamp lastInteraction)) = true ->
     Overview.cachedPrice cache (fst (Overview.latestBlock client)) = None ->
     (forall k, Overview.readTotals client (fst (Overview.latestBlock client)) k
                = None) ->
     Overview.calculateInterestToLatestBlock client us cache st = Some c ->
     exists p,
       Overview.periods c = Overview.enhancedPeriods st ++ [p]
       /\ Overview.endBlock p = fst (Overview.latestBlock client)
       /\ Overview.endTimestamp p = snd (Overview.latestBlock client)
       /\ Overview.endPrice p = 1%Q
       /\ Overview.sharesHeldBigint p = Overview.currentShares st
       /\ Overview.endValueBigint p = Overview.currentShares st
       /\ Overview.interestAccruedBigint p
          = Z.max (Overview.endValueBigint p - Overview.startValueBigint p) 0)
  /\
  (forall reads cache depositEvents withdrawEvents ev,
     In ev (depositEvents ++ withdrawEvents) ->
     Overview.readContract reads (Overview.eventBlock ev) = None ->
     Overview.fetchUserInteractionsFromLogs reads cache depositEvents withdrawEvents
     = None)
  /\
  (forall reads cache depositEvents withdrawEvents us cache2,
     Overview.fetchUserInteractionsFromLogs reads cache depositEvents withdrawEvents
     = Some (us, cache2) ->
     (forall u,
        In u us ->
        Overview.cachedPrice cache (Overview.blockNumber u)
        = Some (Overview.pricePerShare u)
        \/ exists totalAssets totalSupply,
             Overview.readContract reads (Overview.blockNumber u)
             = Some (totalAssets, totalSupply)
             /\ totalAssets <> 0 /\ totalSupply <> 0
             /\ Overview.pricePerShare u = priceOfTotals totalAssets totalSupply)
     /\ (forall b totalAssets totalSupply,
           Overview.cachedPrice cache b = None ->
           Overview.readContract reads b = Some (totalAssets, totalSupply) ->
           totalAssets = 0 \/ totalSupply = 0 ->
           forall u, In u us -> Overview.blockNumber u <> b)).
Proof.
  split; [exact PriceFacts.tracker_price_fallback|].
  split; [exact PriceFacts.overview_price_fallback|].
  split; [exact TrackerFacts.calculatePeriods_orUnitPrice|].
  split; [exact TrackerFacts.fetchRewardsForPeriod_no_sample|].
  split; [reflexivity|].
  split; [exact FetchFacts.open_period_at_unit_price|].
  split; [exact FetchFacts.ledger_abort|].
  intros reads cache ds ws us cache2 Hfetch.
  split; [intros u Hu; exact (FetchFacts.ledger_prices _ _ _ _ _ _ u Hfetch Hu)|].
  intros b ta ts Hcache Hread Hzero u Hu Hb. subst b.
  destruct (FetchFacts.ledger_prices _ _ _ _ _ _ u Hfetch Hu)
    as [Hold|(ta' & ts' & Hread' & Ha & Hs & _)].
  - rewrite Hcache in Hold. discriminate Hold.
  - rewrite Hread in Hread'. injection Hread' as <- <-. destruct Hzero; contradiction.
Qed.

Lemma failed_price_read_is_priced_at_one_witness :
  Tracker.getPricePerShareAtBlock Samples.blindClient 1 = 1%Q
  /\ Overview.getPricePerShareAtBlock Samples.deafClient ∅ 100 3 = (1%Q, ∅)
  /\ (exists st',
        Tracker.fetchRewardsForPeriod Samples.blindClient Tracker.emptyTracker 1 20
        = Some ([], st')
        /\ Tracker.periods st' = [])
  /\ (exists c p,
        Samples.overviewRun Samples.deafClient Samples.oneDeposit = Some c
        /\ Overview.periods c = [p]
        /\ Overview.endPrice p = 1%Q
        /\ Overview.endValueBigint p = SCALE)
  /\ Overview.fetchUserInteractionsFromLogs Samples.silentReads ∅
       Samples.cachedDeposits [] = None
  /\ (exists us cache2,
        Overview.fetchUserInteractionsFromLogs Samples.emptyAtTenReads ∅
          Samples.cachedDeposits [] = Some (us, cache2)
        /\ map Overview.blockNumber us = [1]
        /\ forall u, In u us -> Overview.blockNumber u <> 10).
Proof.
  destruct failed_price_read_is_priced_at_one
    as (H1 & H2 & _ & H4 & _ & H6 & H7 & H8).
  split; [apply H1; reflexivity|].
  split; [apply H2; [reflexivity | intros k; reflexivity]|].
  split.
  { apply (H4 Samples.blindClient Tracker.emptyTracker 1 20 100 2000);
      [reflexivity | reflexivity | reflexivity | left; reflexivity]. }
  split.
  { edestruct (H6 Samples.deafClient Samples.oneDeposit ∅
                 {| Overview.currentShares := SCALE; Overview.runningInterest := 0;
                    Overview.enhancedPeriods := [] |})
      as (p & Hp & _ & _ & Hprice & _ & Hend & _);
      [vm_compute; reflexivity | vm_compute; discriminate | vm_compute; reflexivity
      | vm_compute; reflexivity | intros k; reflexivity | vm_compute; reflexivity |].
    eexists. exists p. split; [vm_compute; reflexivity|].
    split; [exact Hp|]. split; [exact Hprice | exact Hend]. }
  split.
  { refine (H7 Samples.silentReads ∅ Samples.cachedDeposits [] _ _ _);
      [left; reflexivity | reflexivity]. }
  eexists. eexists. split; [vm_compute; reflexivity|]. split; [reflexivity|].
  refine (proj2 (H8 Samples.emptyAtTenReads ∅ Samples.cachedDeposits [] _ _ _)
            10 (3 * SCALE) 0 _ _ _);
    [vm_compute; reflexivity | reflexivity | reflexivity | right; reflexivity].
Defined.

(** C8 as stated fails: with every price read failing, the period of a
    single deposit is still pushed, valued at price 1.0 at both ends. *)
Lemma unpriced_period_is_emitted :
  (exists st p,
     Tracker.calculatePeriods Samples.blindClient None Samples.soleDeposit = Some st
     /\ Tracker.periods st = [p]
     /\ Tracker.positionAmountUnderlyingUnits p = Tracker.positionShares p
     /\ Tracker.positionAccruedInterestUnderlyingUnits p = 0)
  /\ ~ TrackerSpec.pricedPeriodsOnly Samples.blindClient None Samples.soleDeposit.
Proof.
  assert (Hrun : exists st p,
     Tracker.calculatePeriods Samples.blindClient None Samples.soleDeposit = Some st
     /\ Tracker.periods st = [p]
     /\ Tracker.positionAmountUnderlyingUnits p = Tracker.positionShares p
     /\ Tracker.positionAccruedInterestUnderlyingUnits p = 0).
  { eexists. eexists. split; [vm_compute; reflexivity|].
    split; [reflexivity|]. split; reflexivity. }
  split; [exact Hrun|].
  destruct Hrun as (st & p & Hst & Hp & _). intros H.
  destruct (H st p Hst) as [Hs _]; [rewrite Hp; left; reflexivity|].
  apply Hs. reflexivity.
Qed.




(** C10: every reward listed in a period the tracker pushes has
    [rawAmount > 0]; a listed reward is the rise of its asset's balance
    between the first and the last entry inside the window; an asset
    whose balance fell or stayed is not listed. *)
Theorem listed_rewards_are_positive :
  (forall client assetData us st p r,
     Tracker.calculatePeriods client assetData us = Some st ->
     In p (Tracker.periods st) ->
     In r (Tracker.rewardsAccrued p) ->
     0 < Tracker.rawAmount r)
  /\
  (forall client s e a rs r,
     Tracker.rewardsOfAsset client s e a = Some rs ->
     In r rs ->
     TrackerSpec.accruedFrom s e a r)
  /\
  (forall client s e a firstEntry lastEntry startAmount endAmount,
     fold_left (Tracker.pickEntry s e) (Tracker.timeseries a) (None, None)
     = (Some firstEntry, Some lastEntry) ->
     Tracker.entryAmount firstEntry = Some startAmount ->
     Tracker.entryAmount lastEntry = Some endAmount ->
     endAmount <= startAmount ->
     Tracker.rewardsOfAsset client s e a = Some []).
Proof.
  split; [|split].
  - intros client assetData us st p r Hrun Hp Hr.
    apply TrackerFacts.calculatePeriods_emitted in Hrun.
    rewrite List.Forall_forall in Hrun.
    pose proof (TrackerSpec.emitted_rewards _ _ _ (Hrun p Hp)) as Hpos.
    rewrite List.Forall_forall in Hpos. exact (Hpos r Hr).
  - intros client s e a rs r Hrs Hr.
    apply TrackerFacts.rewardsOfAsset_accrued in Hrs.
    rewrite List.Forall_forall in Hrs. exact (proj2 (Hrs r Hr)).
  - intros client s e a f l sa ea. apply TrackerFacts.rewardsOfAsset_omits.
Qed.

Lemma listed_rewards_are_positive_witness :
  (exists st p r,
     Tracker.calculatePeriods Samples.rewardingClient None Samples.soleDeposit = Some st
     /\ In p (Tracker.periods st)
     /\ Tracker.rewardsAccrued p = [r]
     /\ Tracker.rawAmount r = 7
     /\ 0 < Tracker.rawAmount r)
  /\ Tracker.rewardsOfAsset Samples.rewardingClient 100 2000 Samples.flatAsset = Some [].
Proof.
  destruct listed_rewards_are_positive as (H1 & _ & H3).
  split.
  - eexists. eexists. eexists. split; [vm_compute; reflexivity|].
    split; [left; reflexivity|].
    split; [reflexivity|]. split; [reflexivity|].
    eapply (H1 Samples.rewardingClient None Samples.soleDeposit);
      [vm_compute; reflexivity | left; reflexivity | left; reflexivity].
  - eapply (H3 Samples.rewardingClient 100 2000 Samples.flatAsset);
      [vm_compute; reflexivity | reflexivity | reflexivity | lia].
Defined.

(** * Further properties of the code *)

(** ** The price cache of the calculator *)
Module PriceCacheFacts.
Import Overview.

Lemma price_cache_hit client cache b k p :
  cachedPrice cache b = Some p ->
  getPricePerShareAtBlock client cache b k = (p, cache).
Proof. intros H. destruct k; simpl; rewrite H; reflexivity. Qed.

Lemma cachedPrice_set cache b p : cachedPrice (setCachedPrice cache b p) b = Some p.
Proof.
  unfold cachedPrice, setCachedPrice. rewrite lookup_insert_eq. reflexivity.
Qed.

Lemma setCachedPrice_other cache b p b' :
  b' <> b -> setCachedPrice cache b p !! b' = cache !! b'.
Proof. intros H. unfold setCachedPrice. apply lookup_insert_ne. congruence. Qed.

Lemma price_read_cases client cache b k p cache' :
  getPricePerShareAtBlock client cache b k = (p, cache') ->
  (cachedPrice cache' b = Some p
   /\ forall b', b' <> b -> cache' !! b' = cache !! b')
  \/ (p = 1%Q /\ cache' = cache /\ cachedPrice cache b = None
      /\ forall j, (j <= k)%nat -> readTotals client b j = None).
Proof.
  revert p cache'. induction k as [|k IH]; intros p cache'; simpl.
  - destruct (cachedPrice cache b) as [q|] eqn:Ec.
    + intros [= <- <-]. left. auto.
    + destruct (readTotals client b 0) as [[ta ts]|] eqn:Er.
      * intros [= <- <-]. left. split; [apply cachedPrice_set|].
        intros b' Hb. apply setCachedPrice_other. exact Hb.
      * intros [= <- <-]. right. repeat split; auto.
        intros j Hj. replace j with 0%nat by lia. exact Er.
  - destruct (cachedPrice cache b) as [q|] eqn:Ec.
    + intros [= <- <-]. left. auto.
    + destruct (readTotals client b (S k)) as [[ta ts]|] eqn:Er.
      * intros [= <- <-]. left. split; [apply cachedPrice_set|].
        intros b' Hb. apply setCachedPrice_other. exact Hb.
      * intros H. destruct (IH _ _ H) as [Hl|(Hp & Hc & Hn & Hall)]; [left; exact Hl|].
        right. repeat split; auto.
        intros j Hj. destruct (Nat.eq_dec j (S k)) as [->|Hne]; [exact Er|].
        apply Hall. lia.
Qed.

End PriceCacheFacts.

(** X1: a price the calculator has read for a block is served from its
    cache from then on, whatever the chain answers later, and reading it
    touches no other block's entry; the price 1.0 it falls back to when
    every attempt fails is not cached. *)
Theorem price_once_read_is_served_from_cache :
  forall client cache b k p cache',
    Overview.getPricePerShareAtBlock client cache b k = (p, cache') ->
    (Overview.cachedPrice cache' b = Some p
     /\ (forall b', b' <> b -> cache' !! b' = cache !! b')
     /\ forall client2 k2,
          Overview.getPricePerShareAtBlock client2 cache' b k2 = (p, cache'))
    \/ (p = 1%Q /\ cache' = cache /\ Overview.cachedPrice cache b = None
        /\ forall j, (j <= k)%nat -> Overview.readTotals client b j = None).
Proof.
  intros client cache b k p cache' H.
  destruct (PriceCacheFacts.price_read_cases _ _ _ _ _ _ H) as [[Hc Hf]|Hr];
    [left | right; exact Hr].
  split; [exact Hc|]. split; [exact Hf|].
  intros client2 k2. apply PriceCacheFacts.price_cache_hit. exact Hc.
Qed.

Lemma price_once_read_is_served_from_cache_witness :
  exists p cache',
    Overview.getPricePerShareAtBlock Samples.risingClient ∅ 100 3 = (p, cache')
    /\ (p == 1.5)%Q
    /\ Overview.getPricePerShareAtBlock Samples.deafClient cache' 100 3 = (p, cache').
Proof.
  destruct (Overview.getPricePerShareAtBlock Samples.risingClient ∅ 100 3)
    as [p cache'] eqn:E.
  exists p, cache'. split; [reflexivity|].
  split; [vm_compute in E; injection E as <- _; vm_compute; reflexivity|].
  destruct (price_once_read_is_served_from_cache _ _ _ _ _ _ E)
    as [(_ & _ & Hserve)|(_ & _ & _ & Hall)].
  - apply Hserve.
  - specialize (Hall 3%nat (le_n _)). vm_compute in Hall. discriminate Hall.
Defined.

(** ** Rewards *)
Module RewardFacts.
Import Tracker RewardSpec.

Lemma pickEntry_snoc s e l x acc :
  fold_left (pickEntry s e) (l ++ [x]) acc
  = pickEntry s e (fold_left (pickEntry s e) l acc) x.
Proof. rewrite fold_left_app. reflexivity. Qed.

Lemma pickEntry_picked s e seen :
  picked s e seen (fold_left (pickEntry s e) seen (None, None)).
Proof.
  induction seen as [|x seen IH] using rev_ind.
  - simpl. intros x [].
  - rewrite pickEntry_snoc.
    destruct (fold_left (pickEntry s e) seen (None, None)) as [fo lo].
    unfold pickEntry.
    destruct ((entryTimestamp x <? s) || (entryTimestamp x >? e)) eqn:Eout.
    + assert (Hx : ~ inWindow s e x).
      { unfold inWindow. apply orb_true_iff in Eout as [H|H]; lia. }
      destruct fo as [f|], lo as [l|]; simpl in *; try contradiction.
      * destruct IH as (Hf & Hl & Hwf & Hwl & Hall).
        repeat split; try (apply in_or_app; left; assumption); try apply Hwf;
          try apply Hwl; apply in_app_or in H as [H|[<-|[]]];
          try contradiction; apply Hall; assumption.
      * intros y Hy. apply in_app_or in Hy as [Hy|[<-|[]]]; auto.
    + assert (Hx : inWindow s e x).
      { unfold inWindow. apply orb_false_iff in Eout as [H1 H2]. lia. }
      destruct fo as [f|], lo as [l|]; simpl in IH; try contradiction.
      * destruct IH as (Hf & Hl & Hwf & Hwl & Hall).
        pose proof (Hall f Hf Hwf) as Hfl.
        destruct (entryTimestamp x <? entryTimestamp f) eqn:E1;
          destruct (entryTimestamp x >? entryTimestamp l) eqn:E2; simpl;
          repeat split;
          try (apply in_or_app; (left; assumption) || (right; left; reflexivity));
          try apply Hwf; try apply Hwl; try apply Hx;
          try (apply in_app_or in H as [H|[<-|[]]];
               [pose proof (Hall _ H H0); lia | lia]).
      * simpl. repeat split;
          try (apply in_or_app; right; left; reflexivity); try apply Hx;
          apply in_app_or in H as [H|[<-|[]]]; try lia;
          exfalso; exact (IH _ H H0).
Qed.

Lemma fetch_twice client st sBlock eBlock rs st' :
  fetchRewardsForPeriod client st sBlock eBlock = Some (rs, st') ->
  fetchRewardsForPeriod client st' sBlock eBlock = Some (rs, st').
Proof.
  unfold fetchRewardsForPeriod.
  destruct (getBlockTimestamp client sBlock) as [s|]; simpl; [|discriminate].
  destruct (getBlockTimestamp client eBlock) as [e|]; simpl; [|discriminate].
  destruct (rewardsCache st !! (s, e)) as [cached|] eqn:Ecache.
  - intros [= <- <-]. rewrite Ecache. reflexivity.
  - destruct (calculateRewardsForPeriod client s e) as [rewards|] eqn:Ecalc.
    + intros [= <- <-]. simpl. rewrite lookup_insert_eq. reflexivity.
    + intros [= <- <-]. rewrite Ecache. reflexivity.
Qed.

Lemma rewardsValueUSD_from rewards total :
  fold_left
    (fun total reward =>
       match priceUsd reward with
       | Some price => (total + formattedAmount reward * price)%Q
       | None => total
       end)
    rewards total
  = fold_left
      (fun total reward =>
         match priceUsd reward with
         | Some price => (total + formattedAmount reward * price)%Q
         | None => total
         end)
      (List.filter priced rewards) total.
Proof.
  revert total. induction rewards as [|r rewards IH]; intros total; [reflexivity|].
  simpl. unfold priced at 1. destruct (priceUsd r) as [price|] eqn:E; simpl.
  - rewrite E. apply IH.
  - apply IH.
Qed.

Lemma rewards_fold_assets client s e data l0 rs :
  fold_left
    (fun acc assetData =>
       let? rewards := acc in
       let? pushed := rewardsOfAsset client s e assetData in
       Some (rewards ++ pushed))
    data (Some l0) = Some rs ->
  exists rs', rs = l0 ++ rs'
              /\ sublist (map rewardAsset rs') (map seriesAsset data).
Proof.
  revert l0. induction data as [|a data IH]; simpl; intros l0 H.
  - injection H as <-. exists []. rewrite app_nil_r. split; [reflexivity|constructor].
  - destruct (rewardsOfAsset client s e a) as [pushed|] eqn:Ea; simpl in H.
    + destruct (IH _ H) as (rs' & -> & Hsub).
      exists (pushed ++ rs'). split; [rewrite app_assoc; reflexivity|].
      assert (Hp : pushed = [] \/ exists r, pushed = [r] /\ rewardAsset r = seriesAsset a).
      { clear -Ea. unfold rewardsOfAsset in Ea.
        destruct (length (timeseries a) <? 2)%nat; [injection Ea as <-; auto|].
        destruct (fold_left _ _ _) as [[f|] [l|]];
          try (injection Ea as <-; auto; fail).
        destruct (entryAmount f) as [sa|]; simpl in Ea; [|discriminate].
        destruct (entryAmount l) as [ea|]; simpl in Ea; [|discriminate].
        destruct (_ =? 0); injection Ea as <-; [auto|].
        right. eexists. split; reflexivity. }
      destruct Hp as [->|(r & -> & Hr)]; simpl.
      * apply sublist_cons. exact Hsub.
      * rewrite Hr. apply sublist_skip. exact Hsub.
    + exfalso. clear -H. induction data as [|b data IH]; simpl in H;
        [discriminate | auto].
Qed.

End RewardFacts.

(** X2: fetching the rewards of the same pair of blocks a second time
    returns the same list and leaves the tracker as it is: a window is
    computed, cached and added to the totals once. *)
Theorem rewards_fetch_is_idempotent :
  forall client st sBlock eBlock rs st',
    Tracker.fetchRewardsForPeriod client st sBlock eBlock = Some (rs, st') ->
    Tracker.fetchRewardsForPeriod client st' sBlock eBlock = Some (rs, st').
Proof. exact RewardFacts.fetch_twice. Qed.

Lemma rewards_fetch_is_idempotent_witness :
  exists rs st',
    Tracker.fetchRewardsForPeriod Samples.rewardingClient Tracker.emptyTracker 1 20
    = Some (rs, st')
    /\ map Tracker.rawAmount rs = [7]
    /\ Tracker.fetchRewardsForPeriod Samples.rewardingClient st' 1 20 = Some (rs, st').
Proof.
  eexists. eexists. split; [vm_compute; reflexivity|].
  split; [reflexivity|].
  apply (rewards_fetch_is_idempotent Samples.rewardingClient Tracker.emptyTracker).
  vm_compute. reflexivity.
Defined.

(** X3: of the entries of a timeseries, the rewards loop keeps as first
    entry one with the earliest timestamp inside the window and as last
    entry one with the latest; it keeps none exactly when no entry is
    inside the window. *)
Theorem first_and_last_entry_bracket_the_window :
  forall s e entries,
    match fold_left (Tracker.pickEntry s e) entries (None, None) with
    | (None, None) => forall x, In x entries -> ~ RewardSpec.inWindow s e x
    | (Some f, Some l) =>
        In f entries /\ In l entries
        /\ RewardSpec.inWindow s e f /\ RewardSpec.inWindow s e l
        /\ forall x, In x entries -> RewardSpec.inWindow s e x ->
             Tracker.entryTimestamp f <= Tracker.entryTimestamp x
             <= Tracker.entryTimestamp l
    | _ => False
    end.
Proof. exact RewardFacts.pickEntry_picked. Qed.

(** X4: a reward without a USD price adds nothing to
    [totalRewardsAccruedUSD]: the figure is the one of the priced
    rewards alone. *)
Theorem unpriced_rewards_are_worth_nothing :
  forall rewards,
    Tracker.rewardsValueUSD rewards
    = Tracker.rewardsValueUSD (List.filter RewardSpec.priced rewards).
Proof. intros rewards. apply RewardFacts.rewardsValueUSD_from. Qed.

(** X5: [calculateRewardsForPeriod] lists at most one reward per asset of
    the answer, in the order of the answer; without an answer it lists
    none. *)
Theorem one_reward_per_asset_in_order :
  forall client s e rs,
    Tracker.calculateRewardsForPeriod client s e = Some rs ->
    match Tracker.fetchBalanceTimeseries client s e with
    | None => rs = []
    | Some data =>
        sublist (map RewardSpec.rewardAsset rs) (map RewardSpec.seriesAsset data)
        /\ (length rs <= length data)%nat
    end.
Proof.
  intros client s e rs. unfold Tracker.calculateRewardsForPeriod.
  destruct (Tracker.fetchBalanceTimeseries client s e) as [data|];
    [|intros [= <-]; reflexivity].
  intros H. apply RewardFacts.rewards_fold_assets in H as (rs' & -> & Hsub).
  simpl. split; [exact Hsub|].
  apply sublist_length in Hsub. rewrite !length_map in Hsub. exact Hsub.
Qed.

Lemma one_reward_per_asset_in_order_witness :
  exists rs,
    Tracker.calculateRewardsForPeriod Samples.rewardingClient 100 2000 = Some rs
    /\ map RewardSpec.rewardAsset rs = [ (8453, "0xA"%string) ]
    /\ sublist (map RewardSpec.rewardAsset rs)
         (map RewardSpec.seriesAsset [ Samples.risingAsset; Samples.flatAsset ]).
Proof.
  eexists. split; [vm_compute; reflexivity|]. split; [reflexivity|].
  exact (proj1 (one_reward_per_asset_in_order Samples.rewardingClient 100 2000 _
                  ltac:(vm_compute; reflexivity))).
Defined.

(** ** Loops again: invariants that follow the index *)

Lemma for_each_seq_indexed {St : Type} (P : nat -> St -> Prop)
    (body : St -> nat -> option St) (n : nat) :
  (forall s i s', (i < n)%nat -> P i s -> body s i = Some s' -> P (S i) s') ->
  forall len start s s', (start + len <= n)%nat ->
    P start s -> for_each body (seq start len) s = Some s' -> P (start + len)%nat s'.
Proof.
  intros Hstep len. induction len as [|len IH]; simpl; intros start s s' Hn Hs H.
  - injection H as <-. rewrite Nat.add_0_r. exact Hs.
  - destruct (body s start) as [s1|] eqn:E; simpl in H; [|discriminate].
    replace (start + S len)%nat with (S start + len)%nat by lia.
    eapply (IH (S start)); [lia | | exact H].
    eapply Hstep; [|exact Hs|exact E]. lia.
Qed.

Lemma nth_error_bound {A : Type} (l : list A) (n : nat) (x : A) :
  nth_error l n = Some x -> (n < length l)%nat.
Proof. intros H. apply nth_error_Some. congruence. Qed.

Lemma for_each_seq_total {St : Type} (body : St -> nat -> option St) (n : nat) :
  (forall s i, (i < n)%nat -> exists s', body s i = Some s') ->
  forall len start s, (start + len <= n)%nat ->
    exists s', for_each body (seq start len) s = Some s'.
Proof.
  intros Hstep len. induction len as [|len IH]; simpl; intros start s Hn.
  - eauto.
  - destruct (Hstep s start) as [s1 ->]; [lia|]. simpl. apply IH. lia.
Qed.

(** ** The tracker's periods on the ledger *)
Module SegmentFacts.
Import Tracker TrackerSegments.

Lemma sorted_snoc (l : list nat) (i : nat) :
  StronglySorted lt l -> Forall (fun k => (k <= i)%nat) l ->
  StronglySorted lt (l ++ [S i]).
Proof.
  induction 1 as [|k l Hs IH Hk]; intros Hall; simpl.
  - constructor; constructor.
  - inversion Hall as [|? ? Hki Hl]; subst.
    constructor; [apply IH; exact Hl|].
    apply Forall_app. split; [exact Hk|]. constructor; [lia | constructor].
Qed.

Lemma sorted_length (l : list nat) (lo hi : nat) :
  StronglySorted lt l -> Forall (fun k => (lo <= k <= hi)%nat) l ->
  (length l <= hi + 1 - lo)%nat.
Proof.
  intros Hs. revert lo. induction Hs as [|k l Hs IH Hk]; intros lo Hb; simpl; [lia|].
  inversion Hb as [|? ? Hkb Hb']; subst.
  assert (Hl : (length l <= hi + 1 - S k)%nat).
  { apply IH. rewrite List.Forall_forall in Hk, Hb' |- *. intros j Hj.
    specialize (Hk j Hj). specialize (Hb' j Hj). lia. }
  lia.
Qed.

Lemma fetchRewards_periods client st sB eB rs st' :
  fetchRewardsForPeriod client st sB eB = Some (rs, st') ->
  periods st' = periods st.
Proof.
  unfold fetchRewardsForPeriod.
  destruct (getBlockTimestamp client sB) as [s|]; simpl; [|discriminate].
  destruct (getBlockTimestamp client eB) as [e|]; simpl; [|discriminate].
  destruct (rewardsCache st !! (s, e)); [intros [= <- <-]; reflexivity|].
  destruct (calculateRewardsForPeriod client s e); intros [= <- <-]; reflexivity.
Qed.

Lemma tracker_segmented_step client assetData us acc i acc' :
  (i < length us)%nat ->
  segmented client us i acc ->
  loopBody client assetData us acc i = Some acc' ->
  segmented client us (S i) acc'.
Proof.
  intros Hi (Hall & Hsort & Hle). unfold loopBody. destruct acc as [shares0 st].
  simpl in Hall, Hsort, Hle.
  assert (Hkeep : forall cs, segmented client us (S i) (cs, st)).
  { intros cs. split; [exact Hall|]. split; [exact Hsort|]. simpl.
    eapply List.Forall_impl; [|exact Hle]. intros p Hp. simpl in Hp. lia. }
  destruct (nth_error us i) as [x|] eqn:Ex; [|intros [= <-]; apply Hkeep].
  destruct (_ =? 0); [intros [= <-]; apply Hkeep|].
  assert (Hpush : forall st' p cs,
            periods st' = periods st ->
            periodeNumber p = (i + 1)%nat ->
            anchored client us p ->
            segmented client us (S i)
              (cs, {| periods := periods st' ++ [p];
                      rewardsCache := rewardsCache st';
                      totalRewardsAccrued := totalRewardsAccrued st' |})).
  { intros st' p cs Hp Hn Ha. unfold segmented. simpl. rewrite Hp.
    split; [apply Forall_app; split; [exact Hall | constructor; [exact Ha|constructor]]|].
    split.
    - rewrite map_app. simpl. rewrite Hn. replace (i + 1)%nat with (S i) by lia.
      apply sorted_snoc; [exact Hsort|]. rewrite Forall_map. exact Hle.
    - apply Forall_app. split.
      + eapply List.Forall_impl; [|exact Hle]. intros q Hq. simpl in Hq. lia.
      + constructor; [lia | constructor]. }
  assert (Hstart : forall p,
            periodeNumber p = (i + 1)%nat ->
            startBlock p = blockNumber x -> startTimestamp p = timestamp x ->
            periodType p = type x ->
            exists y, nth_error us (periodeNumber p - 1) = Some y
                      /\ (1 <= periodeNumber p)%nat
                      /\ startBlock p = blockNumber y
                      /\ startTimestamp p = timestamp y
                      /\ periodType p = type y).
  { intros p Hn H1 H2 H3. exists x. rewrite Hn.
    replace (i + 1 - 1)%nat with i by lia. repeat split; auto. lia. }
  destruct (i =? length us - 1)%nat eqn:Elast.
  - apply Nat.eqb_eq in Elast.
    destruct (latestBlock client) as [[eB eT]|] eqn:Elatest; simpl; [|discriminate].
    destruct (match assetData with Some _ => _ | None => _ end) as [posUsd intUsd].
    destruct (fetchRewardsForPeriod client st (blockNumber x) eB) as [[rs st']|] eqn:Ef;
      simpl; [|discriminate].
    intros [= <-]. apply fetchRewards_periods in Ef.
    apply Hpush; [exact Ef | reflexivity|].
    constructor; [apply Hstart; reflexivity|].
    left. simpl. split; [lia | exact Elatest].
  - apply Nat.eqb_neq in Elast.
    destruct (nth_error us (i + 1)) as [n|] eqn:En; simpl; [|discriminate].
    destruct (blockNumber x =? blockNumber n); [intros [= <-]; apply Hkeep|].
    destruct (match assetData with Some _ => _ | None => _ end) as [posUsd intUsd].
    destruct (fetchRewardsForPeriod client st (blockNumber x) (blockNumber n))
      as [[rs st']|] eqn:Ef; simpl; [|discriminate].
    intros [= <-]. apply fetchRewards_periods in Ef.
    apply Hpush; [exact Ef | reflexivity|].
    constructor; [apply Hstart; reflexivity|].
    right. exists n. simpl. auto.
Qed.

Lemma calculatePeriods_segmented client assetData us st :
  calculatePeriods client assetData us = Some st ->
  Forall (anchored client us) (periods st)
  /\ StronglySorted lt (map periodeNumber (periods st)).
Proof.
  unfold calculatePeriods.
  destruct (for_each _ _ _) as [[cs st0]|] eqn:Eloop; simpl; [|discriminate].
  intros [= <-].
  assert (H : segmented client us (0 + length us) (cs, st0)).
  { eapply (for_each_seq_indexed (segmented client us) _ (length us));
      [| |
       |exact Eloop].
    - intros s i s' Hi Hs. apply tracker_segmented_step; assumption.
    - simpl. lia.
    - repeat split; constructor. }
  destruct H as (Hall & Hsort & _). split; assumption.
Qed.

Lemma sorted_nth (us : list UserInteraction) a b x y :
  blocksAscend us -> (a <= b)%nat ->
  nth_error us a = Some x -> nth_error us b = Some y ->
  blockNumber x <= blockNumber y.
Proof.
  intros Hs. revert a b. induction Hs as [|u us Hs IH Hu]; intros a b Hab Ha Hb.
  - destruct a; discriminate.
  - destruct a as [|a], b as [|b]; simpl in Ha, Hb.
    + injection Ha as <-. injection Hb as <-. lia.
    + injection Ha as <-. rewrite List.Forall_forall in Hu.
      apply Hu. eapply nth_error_In. exact Hb.
    + lia.
    + apply (IH a b); [lia | assumption | assumption].
Qed.

Lemma anchored_apart client us p q :
  blocksAscend us -> anchored client us p -> anchored client us q ->
  (periodeNumber p < periodeNumber q)%nat ->
  endBlock p <= startBlock q.
Proof.
  intros Hs [_ Hpe] [(y & Hy & Hy1 & Hyb & _) Hqe] Hlt.
  assert (Hq : (periodeNumber q <= length us)%nat).
  { apply nth_error_bound in Hy. lia. }
  destruct Hpe as [[Hlast _]|(n & Hn & Hnb & _)]; [lia|].
  rewrite Hnb, Hyb. apply (sorted_nth us (periodeNumber p) (periodeNumber q - 1));
    [exact Hs | lia | exact Hn | exact Hy].
Qed.

Lemma fetchRewards_total client st sB eB :
  headersAvailable client ->
  exists r, fetchRewardsForPeriod client st sB eB = Some r.
Proof.
  intros [_ Hts]. unfold fetchRewardsForPeriod.
  destruct (getBlockTimestamp client sB) as [s|] eqn:Es; [|destruct (Hts sB Es)].
  destruct (getBlockTimestamp client eB) as [e|] eqn:Ee; [|destruct (Hts eB Ee)].
  simpl. destruct (rewardsCache st !! (s, e)); [eauto|].
  destruct (calculateRewardsForPeriod client s e); eauto.
Qed.

Lemma loopBody_total client assetData us acc i :
  headersAvailable client -> (i < length us)%nat ->
  exists acc', loopBody client assetData us acc i = Some acc'.
Proof.
  intros Hh Hi. unfold loopBody. destruct acc as [shares0 st].
  destruct (nth_error us i) as [x|]; [|eauto].
  destruct (_ =? 0); [eauto|].
  destruct (i =? length us - 1)%nat eqn:Elast.
  - destruct (latestBlock client) as [[eB eT]|] eqn:El; [|destruct (proj1 Hh El)].
    simpl.
    destruct (match assetData with Some _ => _ | None => _ end) as [posUsd intUsd].
    destruct (fetchRewards_total client st (blockNumber x) eB Hh) as [[rs st'] ->].
    simpl. eauto.
  - apply Nat.eqb_neq in Elast.
    destruct (nth_error us (i + 1)) as [n|] eqn:En.
    + simpl. destruct (blockNumber x =? blockNumber n); [eauto|].
      destruct (match assetData with Some _ => _ | None => _ end) as [posUsd intUsd].
      destruct (fetchRewards_total client st (blockNumber x) (blockNumber n) Hh)
        as [[rs st'] ->].
      simpl. eauto.
    + apply nth_error_None in En. lia.
Qed.

End SegmentFacts.

(** X6: the periods the tracker pushes sit on the ledger.  Their numbers
    rise strictly, so there are no more periods than interactions; the
    period numbered [k] starts at the block, timestamp and kind of the
    [k]-th interaction and ends at the next interaction, or at the latest
    block when the [k]-th interaction is the last. *)
Theorem tracker_periods_sit_on_the_ledger :
  forall client assetData us st,
    Tracker.calculatePeriods client assetData us = Some st ->
    Forall (TrackerSegments.anchored client us) (Tracker.periods st)
    /\ StronglySorted lt (map Tracker.periodeNumber (Tracker.periods st))
    /\ (length (Tracker.periods st) <= length us)%nat.
Proof.
  intros client assetData us st Hrun.
  destruct (SegmentFacts.calculatePeriods_segmented _ _ _ _ Hrun) as [Hall Hsort].
  split; [exact Hall|]. split; [exact Hsort|].
  assert (Hb : Forall (fun k => (1 <= k <= length us)%nat)
                 (map Tracker.periodeNumber (Tracker.periods st))).
  { rewrite Forall_map. eapply List.Forall_impl; [|exact Hall].
    intros p [(x & Hx & H1 & _) _]. simpl.
    apply nth_error_bound in Hx. lia. }
  rewrite <- (length_map Tracker.periodeNumber).
  pose proof (SegmentFacts.sorted_length _ 1 (length us) Hsort Hb). lia.
Qed.

Lemma tracker_periods_sit_on_the_ledger_witness :
  exists st,
    Tracker.calculatePeriods Samples.droppingClient None
      (Tracker.sortInteractions Samples.exitLedger) = Some st
    /\ map Tracker.periodeNumber (Tracker.periods st) = [1%nat; 2%nat]
    /\ StronglySorted lt (map Tracker.periodeNumber (Tracker.periods st))
    /\ (length (Tracker.periods st) <= 2)%nat.
Proof.
  eexists. split; [vm_compute; reflexivity|]. split; [reflexivity|].
  exact (proj2 (tracker_periods_sit_on_the_ledger Samples.droppingClient None
                  (Tracker.sortInteractions Samples.exitLedger) _
                  ltac:(vm_compute; reflexivity))).
Defined.

(** X7: on a ledger in block order the tracker's periods do not
    overlap: a period ends no later than the block at which any later
    period starts. *)
Theorem tracker_periods_do_not_overlap :
  forall client assetData us st,
    TrackerSegments.blocksAscend us ->
    Tracker.calculatePeriods client assetData us = Some st ->
    StronglySorted (fun p q => Tracker.endBlock p <= Tracker.startBlock q)
      (Tracker.periods st).
Proof.
  intros client assetData us st Hs Hrun.
  destruct (SegmentFacts.calculatePeriods_segmented _ _ _ _ Hrun) as [Hall Hsort].
  revert Hall Hsort. generalize (Tracker.periods st). intros ps.
  induction ps as [|p ps IH]; intros Hall Hsort; [constructor|].
  inversion Hall as [|? ? Hp Hps]; subst.
  simpl in Hsort. inversion Hsort as [|? ? Hs' Hlt]; subst.
  constructor; [apply IH; assumption|].
  rewrite Forall_map in Hlt.
  rewrite List.Forall_forall in Hlt, Hps |- *. intros q Hq.
  apply (SegmentFacts.anchored_apart client us p q Hs Hp (Hps q Hq)).
  exact (Hlt q Hq).
Qed.

Lemma tracker_periods_do_not_overlap_witness :
  exists st,
    Tracker.calculatePeriods Samples.droppingClient None
      (Tracker.sortInteractions Samples.exitLedger) = Some st
    /\ map (fun p => (Tracker.startBlock p, Tracker.endBlock p)) (Tracker.periods st)
       = [ (1, 10); (10, 20) ]
    /\ StronglySorted (fun p q => Tracker.endBlock p <= Tracker.startBlock q)
         (Tracker.periods st).
Proof.
  eexists. split; [vm_compute; reflexivity|]. split; [reflexivity|].
  apply (tracker_periods_do_not_overlap Samples.droppingClient None
           (Tracker.sortInteractions Samples.exitLedger)).
  - vm_compute. repeat constructor; discriminate.
  - vm_compute. reflexivity.
Defined.

(** X8: when the block headers can be read, the tracker's period pass
    completes whatever the price reads and the rewards service do: a
    failing price read or rewards call never aborts it. *)
Theorem tracker_pass_completes_when_headers_are_read :
  forall client assetData us,
    TrackerSegments.headersAvailable client ->
    exists st, Tracker.calculatePeriods client assetData us = Some st.
Proof.
  intros client assetData us Hh. unfold Tracker.calculatePeriods.
  destruct (for_each_seq_total (Tracker.loopBody client assetData us) (length us)
              (fun s i Hi => SegmentFacts.loopBody_total client assetData us s i Hh Hi)
              (length us) 0%nat (0, Tracker.emptyTracker) (le_n _)) as [[cs st] ->].
  simpl. eauto.
Qed.

Lemma tracker_pass_completes_when_headers_are_read_witness :
  TrackerSegments.headersAvailable Samples.blindClient
  /\ exists st,
       Tracker.calculatePeriods Samples.blindClient None Samples.soleDeposit = Some st.
Proof.
  assert (H : TrackerSegments.headersAvailable Samples.blindClient).
  { split; [discriminate | intros b; discriminate]. }
  split; [exact H|].
  exact (tracker_pass_completes_when_headers_are_read Samples.blindClient None
           Samples.soleDeposit H).
Defined.

(** ** The calculator's periods on the ledger *)
Module OverviewSegmentFacts.
Import Overview OverviewSpec OverviewSegments.

Lemma makePeriod_fields index cs cum sB sT sP eB eT eP td p :
  makePeriod index cs cum sB sT sP eB eT eP td = Some p ->
  periodIndex p = index /\ startBlock p = sB /\ endBlock p = eB.
Proof.
  unfold makePeriod.
  destruct (percentOf _ _) as [ip|]; simpl; [|discriminate].
  destruct (percentOf _ td) as [cp|]; simpl; [|discriminate].
  intros H. injection H as <-. auto.
Qed.

Lemma firstn_snoc {A : Type} (l : list A) (i : nat) (x : A) :
  nth_error l i = Some x -> firstn (S i) l = firstn i l ++ [x].
Proof.
  revert i. induction l as [|y l IH]; intros i H; [destruct i; discriminate|].
  destruct i as [|i]; simpl in H.
  - injection H as <-. reflexivity.
  - simpl. f_equal. apply IH. exact H.
Qed.

Lemma balanceAfter_step us i x :
  nth_error us i = Some x ->
  balanceAfter us (S i) = applyInteraction (balanceAfter us i) x.
Proof.
  intros H. unfold balanceAfter. rewrite (firstn_snoc _ _ _ H), fold_left_app.
  reflexivity.
Qed.

Lemma balanceAfter_all us n :
  (length us <= n)%nat -> balanceAfter us n = fold_left applyInteraction us 0.
Proof.
  intros H. unfold balanceAfter. rewrite firstn_all2 by exact H. reflexivity.
Qed.

Lemma last_nth {A : Type} (l : list A) :
  last l = match l with [] => None | _ => nth_error l (length l - 1) end.
Proof.
  induction l as [|x l IH]; [reflexivity|].
  destruct l as [|y l]; [reflexivity|].
  change (last (x :: y :: l)) with (last (y :: l)). rewrite IH. simpl.
  rewrite Nat.sub_0_r. reflexivity.
Qed.

Lemma laid_weaken client us i j ps :
  (i <= j)%nat -> laid client us i ps -> laid client us j ps.
Proof.
  intros Hij (ks & Hf & Hs & Hb). exists ks. split; [exact Hf|]. split; [exact Hs|].
  eapply List.Forall_impl; [|exact Hb]. intros k Hk. simpl in Hk. lia.
Qed.

Lemma sorted_snoc_lt (l : list nat) (i : nat) :
  StronglySorted lt l -> Forall (fun k => (k < i)%nat) l ->
  StronglySorted lt (l ++ [i]).
Proof.
  induction 1 as [|k l Hs IH Hk]; intros Hall; simpl.
  - constructor; constructor.
  - inversion Hall as [|? ? Hki Hl]; subst.
    constructor; [apply IH; exact Hl|].
    apply Forall_app. split; [exact Hk|]. constructor; [lia | constructor].
Qed.

Lemma laid_push client us i ps p :
  laid client us i ps -> spans client us i p -> laid client us (S i) (ps ++ [p]).
Proof.
  intros (ks & Hf & Hs & Hb) Hp. exists (ks ++ [i]).
  split; [apply Forall2_app; [exact Hf | constructor; [exact Hp | constructor]]|].
  split; [apply sorted_snoc_lt; assumption|].
  apply Forall_app. split.
  - eapply List.Forall_impl; [|exact Hb]. intros k Hk. simpl in Hk. lia.
  - constructor; [lia | constructor].
Qed.

Lemma numbered_push ps p :
  numbered ps -> periodIndex p = (length ps + 1)%nat -> numbered (ps ++ [p]).
Proof.
  intros Hn Hp k q Hk.
  destruct (Nat.lt_ge_cases k (length ps)) as [Hlt|Hge].
  - rewrite nth_error_app1 in Hk by exact Hlt. apply Hn. exact Hk.
  - rewrite nth_error_app2 in Hk by exact Hge.
    destruct (k - length ps)%nat as [|m] eqn:Em; simpl in Hk;
      [|destruct m; discriminate].
    injection Hk as <-. rewrite Hp. lia.
Qed.

Lemma overview_segmented_step client us st i st' :
  (i < length us)%nat ->
  segmented client us i st -> loopBody us st i = Some st' ->
  segmented client us (S i) st'.
Proof.
  intros Hi (Hbal & Hlaid & Hnum). unfold loopBody.
  destruct (nth_error us i) as [cur|] eqn:Ecur;
    [|apply nth_error_None in Ecur; lia].
  pose proof (balanceAfter_step us i cur Ecur) as Hnext. rewrite <- Hbal in Hnext.
  assert (Hkeep : segmented client us (S i)
            {| currentShares := applyInteraction (currentShares st) cur;
               runningInterest := runningInterest st;
               enhancedPeriods := enhancedPeriods st |}).
  { split; [simpl; symmetry; exact Hnext|].
    split; [apply (laid_weaken client us i); [lia | exact Hlaid] | exact Hnum]. }
  destruct ((i =? 0)%nat || _) eqn:Eskip; [intros [= <-]; exact Hkeep|].
  apply orb_false_iff in Eskip as [Hi0 _]. apply Nat.eqb_neq in Hi0.
  destruct (nth_error us (i - 1)) as [prev|] eqn:Eprev; [|intros [= <-]; exact Hkeep].
  destruct (Qltb _ 0.04); [intros [= <-]; exact Hkeep|].
  destruct (makePeriod _ _ _ _ _ _ _ _ _ _) as [p|] eqn:Emk; simpl; [|discriminate].
  intros [= <-].
  destruct (makePeriod_fields _ _ _ _ _ _ _ _ _ _ _ Emk) as (Hidx & HsB & HeB).
  apply OverviewFacts.makePeriod_made in Emk.
  destruct Emk as [Hsh _ _ _ _ _ [Hst Het] [Hsp Hep] _].
  split; [simpl; symmetry; exact Hnext|]. simpl. split.
  - apply laid_push; [exact Hlaid|].
    split; [lia|]. split; [rewrite Hsh; symmetry; exact Hnext|].
    split; [exists prev; auto|]. left. exists cur. auto.
  - apply numbered_push; assumption.
Qed.

Lemma loop_segmented client us st :
  for_each (loopBody us) (seq 0 (length us)) initialLoopState = Some st ->
  segmented client us (length us) st.
Proof.
  intros H.
  apply (for_each_seq_indexed (segmented client us) (loopBody us) (length us)
           (overview_segmented_step client us) (length us) 0%nat initialLoopState st (le_n _));
    [|exact H].
  split; [reflexivity|]. split.
  - exists []. repeat split; constructor.
  - intros k p Hk. destruct k; discriminate.
Qed.

(** The shape of the result of the final step. *)
Lemma latest_cases client us cache st c :
  calculateInterestToLatestBlock client us cache st = Some c ->
  (periods c = enhancedPeriods st /\ totalInterestAccruedBigint c = 0
   /\ (currentShares st =? 0) || negb (openWindow client us) = true)
  \/ (exists p,
        periods c = enhancedPeriods st ++ [p]
        /\ totalInterestAccruedBigint c = cumulativeInterest p
        /\ cumulativeInterest p = runningInterest st + interestAccruedBigint p
        /\ currentShares st <> 0 /\ openWindow client us = true
        /\ periodIndex p = (length (enhancedPeriods st) + 1)%nat
        /\ sharesHeldBigint p = currentShares st
        /\ latestBlock client = (endBlock p, endTimestamp p)
        /\ exists a, last us = Some a
                     /\ startBlock p = blockNumber a
                     /\ startTimestamp p = timestamp a
                     /\ startPrice p = pricePerShare a).
Proof.
  unfold calculateInterestToLatestBlock, openWindow.
  destruct (last us) as [a|];
    [|intros [= <-]; left; simpl; rewrite orb_true_r; auto].
  destruct (currentShares st =? 0) eqn:Ecs; [intros [= <-]; left; auto|].
  destruct (latestBlock client) as [latestNumber latestTimestamp]. cbn [snd].
  destruct (getPricePerShareAtBlock client cache latestNumber 3) as [latestPrice cache'].
  destruct (Qltb 0.04 _) eqn:Eopen; [|intros [= <-]; left; auto].
  destruct (makePeriod _ _ _ _ _ _ _ _ _ _) as [p|] eqn:Emk; simpl; [|discriminate].
  intros [= <-]. right. exists p. simpl.
  destruct (makePeriod_fields _ _ _ _ _ _ _ _ _ _ _ Emk) as (Hidx & HsB & HeB).
  apply OverviewFacts.makePeriod_made in Emk.
  destruct Emk as [Hsh _ _ _ Hcum _ [Hst Het] [Hsp Hep] _].
  apply Z.eqb_neq in Ecs. repeat split; auto.
  - rewrite HeB, Het. reflexivity.
  - exists a. auto.
Qed.

Lemma pass_segmented client us cache c :
  calculatePreciseInterestBetweenInteractions client us cache = Some c ->
  laid client us (S (length us)) (periods c) /\ numbered (periods c).
Proof.
  unfold calculatePreciseInterestBetweenInteractions.
  destruct (for_each _ _ _) as [st|] eqn:Eloop; simpl; [|discriminate].
  apply (loop_segmented client) in Eloop. destruct Eloop as (Hbal & Hlaid & Hnum).
  intros H. apply latest_cases in H
    as [(Hp & _ & _)|(p & Hp & _ & _ & _ & _ & Hidx & Hsh & Hend & a & Ha & Hb & Ht & Hpr)];
    rewrite Hp.
  - split; [apply (laid_weaken client us (length us)); [lia | exact Hlaid] | exact Hnum].
  - split; [|apply numbered_push; assumption].
    apply laid_push; [exact Hlaid|].
    assert (Hn : (1 <= length us)%nat).
    { destruct us; [discriminate Ha | simpl; lia]. }
    split; [exact Hn|].
    split; [rewrite Hsh, Hbal; unfold balanceAfter;
            rewrite !firstn_all2 by lia; reflexivity|].
    split.
    + exists a. rewrite last_nth in Ha. destruct us; [discriminate|]. auto.
    + right. auto.
Qed.

Lemma times_nth (us : list UserInteraction) a b x y :
  timesAscend us -> (a <= b)%nat ->
  nth_error us a = Some x -> nth_error us b = Some y ->
  timestamp x <= timestamp y.
Proof.
  intros Hs. revert a b. induction Hs as [|u us Hs IH Hu]; intros a b Hab Ha Hb.
  - destruct a; discriminate.
  - destruct a as [|a], b as [|b]; simpl in Ha, Hb.
    + injection Ha as <-. injection Hb as <-. lia.
    + injection Ha as <-. rewrite List.Forall_forall in Hu.
      apply Hu. eapply nth_error_In. exact Hb.
    + lia.
    + apply (IH a b); [lia | assumption | assumption].
Qed.

Lemma spans_apart client us j k p q :
  timesAscend us -> spans client us j p -> spans client us k q -> (j < k)%nat ->
  endTimestamp p <= startTimestamp q.
Proof.
  intros Hs (_ & _ & _ & Hpe) (Hk1 & _ & (a & Ha & _ & Hat & _) & _) Hjk.
  pose proof (nth_error_bound _ _ _ Ha) as Hbound.
  destruct Hpe as [(b & Hb & _ & Hbt & _)|[Hlast _]]; [|lia].
  rewrite Hbt, Hat. apply (times_nth us j (k - 1)); [exact Hs | lia | exact Hb | exact Ha].
Qed.

Lemma periods_chronological client us cache c :
  timesAscend us ->
  calculatePreciseInterestBetweenInteractions client us cache = Some c ->
  StronglySorted (fun p q => endTimestamp p <= startTimestamp q) (periods c).
Proof.
  intros Hs Hrun.
  destruct (pass_segmented _ _ _ _ Hrun) as [(ks & Hf & Hsort & _) _].
  revert Hsort. induction Hf as [|k p ks ps Hkp Hf IH]; intros Hsort; [constructor|].
  inversion Hsort as [|? ? Hs' Hlt]; subst.
  constructor; [apply IH; exact Hs'|].
  clear IH Hs' Hsort. induction Hf as [|j q ks ps Hjq Hf IH]; [constructor|].
  inversion Hlt as [|? ? Hkj Hlt']; subst.
  constructor; [|apply IH; exact Hlt'].
  exact (spans_apart client us k j p q Hs Hkp Hjq Hkj).
Qed.

End OverviewSegmentFacts.

(** X9: the periods of the calculator sit on the ledger.  Each runs from
    one interaction to the next, or from the last interaction to the
    latest block, in rising order; it holds the balance left after the
    interaction that closes it; periods are numbered 1, 2, ... in the
    order pushed, and there are no more periods than interactions. *)
Theorem overview_periods_sit_on_the_ledger :
  forall client us cache c,
    Overview.calculatePreciseInterestBetweenInteractions client us cache = Some c ->
    OverviewSegments.laid client us (S (length us)) (Overview.periods c)
    /\ OverviewSegments.numbered (Overview.periods c)
    /\ (length (Overview.periods c) <= length us)%nat.
Proof.
  intros client us cache c Hrun.
  destruct (OverviewSegmentFacts.pass_segmented _ _ _ _ Hrun) as [Hlaid Hnum].
  split; [exact Hlaid|]. split; [exact Hnum|].
  destruct Hlaid as (ks & Hf & Hs & Hb).
  rewrite <- (Forall2_length _ _ _ Hf).
  assert (Hr : Forall (fun k => (1 <= k <= length us)%nat) ks).
  { clear -Hf Hb. induction Hf as [|k p ks ps Hkp Hf IH]; [constructor|].
    inversion Hb as [|? ? Hk Hb']; subst.
    constructor; [|apply IH; exact Hb'].
    destruct Hkp as (H1 & _). lia. }
  pose proof (SegmentFacts.sorted_length ks 1 (length us) Hs Hr). lia.
Qed.

Lemma overview_periods_sit_on_the_ledger_witness :
  exists c,
    Samples.overviewRun Samples.risingClient Samples.threeSteps = Some c
    /\ map Overview.periodIndex (Overview.periods c) = [1%nat; 2%nat; 3%nat]
    /\ map Overview.sharesHeldBigint (Overview.periods c) = [200; 100; 100]
    /\ (length (Overview.periods c) <= 3)%nat.
Proof.
  eexists. split; [vm_compute; reflexivity|].
  split; [reflexivity|]. split; [reflexivity|].
  refine (proj2 (proj2 (overview_periods_sit_on_the_ledger Samples.risingClient
                          Samples.threeSteps ∅ _ _))).
  vm_compute. reflexivity.
Defined.

(** X10: on a ledger in time order the calculator's periods follow one
    another without overlap: a period ends no later than any later
    period starts. *)
Theorem overview_periods_are_chronological :
  forall client us cache c,
    OverviewSegments.timesAscend us ->
    Overview.calculatePreciseInterestBetweenInteractions client us cache = Some c ->
    StronglySorted
      (fun p q => Overview.endTimestamp p <= Overview.startTimestamp q)
      (Overview.periods c).
Proof.
  intros client us cache c Hs Hrun.
  exact (OverviewSegmentFacts.periods_chronological client us cache c Hs Hrun).
Qed.

Lemma overview_periods_are_chronological_witness :
  exists c,
    Samples.overviewRun Samples.risingClient Samples.threeSteps = Some c
    /\ map (fun p => (Overview.startTimestamp p, Overview.endTimestamp p))
         (Overview.periods c)
       = [ (0, 86400); (86400, 172800); (172800, Samples.year) ]
    /\ StronglySorted
         (fun p q => Overview.endTimestamp p <= Overview.startTimestamp q)
         (Overview.periods c).
Proof.
  eexists. split; [vm_compute; reflexivity|]. split; [reflexivity|].
  apply (overview_periods_are_chronological Samples.risingClient Samples.threeSteps ∅).
  - vm_compute. repeat constructor; discriminate.
  - vm_compute. reflexivity.
Defined.

Module TotalsFacts.
Import Overview OverviewSpec OverviewSegments.

Lemma totals_fold us td cs :
  fold_left
    (fun '(totalDeposited, currentShares) x =>
       match type x with
       | deposit => (totalDeposited + assets x, currentShares + shares x)
       | withdraw => (totalDeposited, currentShares - shares x)
       end)
    us (td, cs)
  = (fold_left (fun t x => match type x with
                           | deposit => t + assets x
                           | withdraw => t
                           end) us td,
     fold_left applyInteraction us cs).
Proof.
  revert td cs. induction us as [|x us IH]; intros td cs; [reflexivity|].
  simpl. unfold applyInteraction at 2. destruct (type x); apply IH.
Qed.

Lemma currentShares_balance us :
  snd (fst (calculatePreciseTotalValue us)) = fold_left applyInteraction us 0.
Proof.
  unfold calculatePreciseTotalValue. rewrite totals_fold. reflexivity.
Qed.

Lemma totalDeposited_fold us :
  fst (fst (calculatePreciseTotalValue us))
  = fold_left (fun t x => match type x with
                          | deposit => t + assets x
                          | withdraw => t
                          end) us 0.
Proof.
  unfold calculatePreciseTotalValue. rewrite totals_fold. reflexivity.
Qed.

End TotalsFacts.

(** X11: the calculator reports a total interest only with the open
    period: [totalInterestAccruedBigint] is the sum of the periods'
    interest when the position still holds shares and the latest block
    is more than 0.04 day after the last interaction, and 0 otherwise,
    whatever the earlier periods earned. *)
Theorem reported_total_needs_the_open_period :
  forall client us cache c,
    Overview.calculatePreciseInterestBetweenInteractions client us cache = Some c ->
    Overview.totalInterestAccruedBigint c
    = if negb (snd (fst (Overview.calculatePreciseTotalValue us)) =? 0)
         && OverviewSegments.openWindow client us
      then OverviewSpec.sumInterest (Overview.periods c)
      else 0.
Proof.
  intros client us cache c. rewrite TotalsFacts.currentShares_balance.
  unfold Overview.calculatePreciseInterestBetweenInteractions.
  destruct (for_each _ _ _) as [st|] eqn:Eloop; simpl; [|discriminate].
  pose proof (OverviewSegmentFacts.loop_segmented client us st Eloop) as (Hbal & _ & _).
  rewrite OverviewSegmentFacts.balanceAfter_all in Hbal by lia.
  assert (Hinv : OverviewSpec.loop_invariant st).
  { eapply (for_each_preserves OverviewSpec.loop_invariant); [| |exact Eloop].
    - intros s i s' Hs. apply OverviewFacts.overview_loopBody_preserves. exact Hs.
    - split; constructor. }
  destruct Hinv as [_ Hacc]. apply OverviewFacts.accumulates_sum in Hacc.
  intros H. apply OverviewSegmentFacts.latest_cases in H
    as [(Hp & Ht & Hc)|(p & Hp & Ht & Hcum & Hcs & Hopen & _)]; rewrite Ht, <- Hbal.
  - apply orb_true_iff in Hc as [Hc|Hc].
    + rewrite Hc. reflexivity.
    + apply negb_true_iff in Hc. rewrite Hc, andb_false_r. reflexivity.
  - apply Z.eqb_neq in Hcs. rewrite Hcs, Hopen, Hp. simpl.
    rewrite OverviewFacts.sumInterest_app, Hcum, Hacc.
    unfold OverviewSpec.sumInterest. simpl. lia.
Qed.

Lemma reported_total_needs_the_open_period_witness :
  exists c,
    Samples.overviewRun Samples.risingClient Samples.closedLedger = Some c
    /\ OverviewSpec.sumInterest (Overview.periods c) = 100
    /\ Overview.totalInterestAccruedBigint c = 0.
Proof.
  eexists. split; [vm_compute; reflexivity|]. split; [reflexivity|].
  erewrite (reported_total_needs_the_open_period Samples.risingClient
              Samples.closedLedger ∅); [reflexivity|].
  vm_compute. reflexivity.
Defined.

(** ** Totals of the ledger *)
Module LedgerTotalsFacts.
Import Overview.

Lemma skipn_nth {A : Type} (l : list A) (a : nat) (x : A) :
  nth_error l a = Some x -> skipn a l = x :: skipn (S a) l.
Proof.
  revert a. induction l as [|y l IH]; intros a H; [destruct a; discriminate|].
  destruct a as [|a]; simpl in H.
  - injection H as <-. reflexivity.
  - simpl. apply IH. exact H.
Qed.

Lemma deposited_range us a len acc :
  fold_left
    (fun totalDeposited i =>
       match nth_error us i with
       | Some x =>
           match type x with
           | deposit => totalDeposited + assets x
           | withdraw => totalDeposited
           end
       | None => totalDeposited
       end)
    (seq a len) acc
  = fold_left (fun t x => match type x with
                          | deposit => t + assets x
                          | withdraw => t
                          end)
      (firstn len (skipn a us)) acc.
Proof.
  revert a acc. induction len as [|len IH]; intros a acc; [reflexivity|].
  simpl. rewrite IH. destruct (nth_error us a) as [x|] eqn:E.
  - rewrite (skipn_nth _ _ _ E). reflexivity.
  - apply nth_error_None in E.
    rewrite (skipn_all2 us) by lia. rewrite (skipn_all2 us) by exact E.
    destruct len; reflexivity.
Qed.

Lemma deposited_prefix us idx :
  calculateTotalDepositedUpToInteraction us idx
  = fst (fst (calculatePreciseTotalValue (firstn (S idx) us))).
Proof.
  unfold calculateTotalDepositedUpToInteraction.
  rewrite deposited_range, TotalsFacts.totalDeposited_fold. reflexivity.
Qed.

Lemma totals_permutation us us' :
  Permutation us us' ->
  forall acc,
    fold_left
      (fun '(totalDeposited, currentShares) x =>
         match type x with
         | deposit => (totalDeposited + assets x, currentShares + shares x)
         | withdraw => (totalDeposited, currentShares - shares x)
         end) us acc
    = fold_left
        (fun '(totalDeposited, currentShares) x =>
           match type x with
           | deposit => (totalDeposited + assets x, currentShares + shares x)
           | withdraw => (totalDeposited, currentShares - shares x)
           end) us' acc.
Proof.
  induction 1 as [|x l l' _ IH|x y l|l l' l'' _ IH1 _ IH2]; intros acc.
  - reflexivity.
  - simpl. apply IH.
  - simpl. destruct acc as [td cs].
    destruct (type x) eqn:Ex, (type y) eqn:Ey; simpl; rewrite ?Ex, ?Ey; f_equal;
      apply injective_projections; simpl; lia.
  - rewrite IH1. apply IH2.
Qed.

End LedgerTotalsFacts.

(** X12: [calculateTotalDepositedUpToInteraction(i)] is the total
    deposited that [calculatePreciseTotalValue] finds on the first
    [i + 1] interactions, so an index at or past the last interaction
    gives the total of the whole ledger; and the total deposited and the
    current shares do not depend on the order of the interactions. *)
Theorem deposited_totals_agree :
  (forall us idx,
     Overview.calculateTotalDepositedUpToInteraction us idx
     = fst (fst (Overview.calculatePreciseTotalValue (firstn (S idx) us))))
  /\
  (forall us idx,
     (length us <= S idx)%nat ->
     Overview.calculateTotalDepositedUpToInteraction us idx
     = fst (fst (Overview.calculatePreciseTotalValue us)))
  /\
  (forall us us',
     Permutation us us' ->
     fst (Overview.calculatePreciseTotalValue us)
     = fst (Overview.calculatePreciseTotalValue us')).
Proof.
  split; [exact LedgerTotalsFacts.deposited_prefix|]. split.
  - intros us idx H. rewrite LedgerTotalsFacts.deposited_prefix.
    rewrite firstn_all2 by exact H. reflexivity.
  - intros us us' H. unfold Overview.calculatePreciseTotalValue.
    rewrite (LedgerTotalsFacts.totals_permutation us us' H).
    destruct (fold_left _ us' (0, 0)) as [td cs]. reflexivity.
Qed.

Lemma deposited_totals_agree_witness :
  Overview.calculateTotalDepositedUpToInteraction Samples.threeSteps 7 = 250
  /\ fst (Overview.calculatePreciseTotalValue (rev Samples.threeSteps)) = (250, 100).
Proof.
  destruct deposited_totals_agree as (_ & H2 & H3).
  split.
  - rewrite (H2 Samples.threeSteps 7%nat) by (simpl; lia). reflexivity.
  - rewrite <- (H3 Samples.threeSteps (rev Samples.threeSteps) (Permutation_rev _)).
    reflexivity.
Defined.

(** ** Sorting again *)
Section SortFixpoint.
Context {A : Type} (cmp : A -> A -> Z) (le : A -> A -> Prop).
Hypothesis le_cmp : forall x y, le x y -> cmp x y <= 0.

Lemma array_sort_sorted_id l : StronglySorted le l -> array_sort cmp l = l.
Proof.
  induction 1 as [|x l Hs IH Hx]; [reflexivity|].
  simpl. rewrite IH. destruct l as [|y l]; [reflexivity|].
  simpl. inversion Hx as [|? ? Hxy _]; subst.
  apply le_cmp in Hxy. apply Z.leb_le in Hxy. rewrite Hxy. reflexivity.
Qed.
End SortFixpoint.

Module SortAgainFacts.

Lemma overview_block_sorted us :
  StronglySorted (fun a b => Overview.blockNumber a <= Overview.blockNumber b)
    (Overview.sortInteractions us).
Proof.
  unfold Overview.sortInteractions.
  induction us as [|x us IH]; simpl; [constructor|].
  apply sort_insert_sorted; [| | |exact IH]; unfold Overview.byBlock; intros; lia.
Qed.

End SortAgainFacts.

(** X13: both sorts leave a ledger that is already in order exactly as
    it is, interactions of equal rank keeping their places, and sorting
    twice is sorting once. *)
Theorem sorting_a_sorted_ledger_changes_nothing :
  (forall us, StronglySorted trackerOrder us -> Tracker.sortInteractions us = us)
  /\ (forall us,
        Tracker.sortInteractions (Tracker.sortInteractions us)
        = Tracker.sortInteractions us)
  /\ (forall us,
        StronglySorted
          (fun a b => Overview.blockNumber a <= Overview.blockNumber b) us ->
        Overview.sortInteractions us = us)
  /\ (forall us,
        Overview.sortInteractions (Overview.sortInteractions us)
        = Overview.sortInteractions us).
Proof.
  assert (Ht : forall us, StronglySorted trackerOrder us ->
                          Tracker.sortInteractions us = us).
  { intros us. apply array_sort_sorted_id.
    intros x y. apply SortingFacts.compareInteractions_le. }
  assert (Ho : forall us,
             StronglySorted
               (fun a b => Overview.blockNumber a <= Overview.blockNumber b) us ->
             Overview.sortInteractions us = us).
  { intros us. apply array_sort_sorted_id.
    intros x y H. unfold Overview.byBlock. lia. }
  split; [exact Ht|]. split; [intros us; apply Ht, SortingFacts.tracker_sorted|].
  split; [exact Ho|]. intros us. apply Ho, SortAgainFacts.overview_block_sorted.
Qed.

Lemma sorting_a_sorted_ledger_changes_nothing_witness :
  Tracker.sortInteractions Samples.exitLedger = Samples.exitLedger
  /\ Overview.sortInteractions Samples.threeSteps = Samples.threeSteps.
Proof.
  destruct sorting_a_sorted_ledger_changes_nothing as (Ht & _ & Ho & _).
  split.
  - apply Ht. repeat constructor; left; vm_compute; reflexivity.
  - apply Ho. repeat constructor; vm_compute; discriminate.
Defined.

(** ** Weighted averages *)
Module AverageFacts.
Import AverageSpec.

Lemma mean_step (lo hi W S a w : R) :
  (lo * W <= S <= hi * W)%R -> (0 <= w)%R -> (lo <= a <= hi)%R ->
  (lo * (W + w) <= S + a * w <= hi * (W + w))%R.
Proof. intros [H1 H2] Hw [Ha1 Ha2]. split; nra. Qed.

Lemma mean_final (lo hi W S : R) :
  (0 < W)%R -> (lo * W <= S <= hi * W)%R -> (lo <= S / W <= hi)%R.
Proof.
  intros HW [H1 H2]. unfold Rdiv. split.
  - apply (Rmult_le_reg_r W); [exact HW|].
    rewrite Rmult_assoc, Rinv_l by lra. lra.
  - apply (Rmult_le_reg_r W); [exact HW|].
    rewrite Rmult_assoc, Rinv_l by lra. lra.
Qed.

Lemma Qltb_pos q : Qltb 0 q = true -> (0 < Q2R q)%R.
Proof.
  unfold Qltb. rewrite negb_true_iff. intros H.
  replace 0%R with (Q2R 0) by (unfold Q2R; simpl; lra).
  apply Qlt_Rlt. apply Qnot_le_lt. intros Hle.
  apply Qle_bool_iff in Hle. congruence.
Qed.

Lemma Qltb_of_pos q : (0 < Q2R q)%R -> Qltb 0 q = true.
Proof.
  intros H. unfold Qltb. rewrite negb_true_iff.
  destruct (Qle_bool q 0) eqn:E; [|reflexivity].
  apply Qle_bool_iff, Qle_Rle in E.
  replace (Q2R 0) with 0%R in E by (unfold Q2R; simpl; lra). lra.
Qed.

Lemma Q2R_nonneg q : (0 <= q)%Q -> (0 <= Q2R q)%R.
Proof.
  intros H. apply Qle_Rle in H.
  replace (Q2R 0) with 0%R in H by (unfold Q2R; simpl; lra). exact H.
Qed.

Lemma Q2R_pos q : (0 < q)%Q -> (0 < Q2R q)%R.
Proof.
  intros H. apply Qlt_Rlt in H.
  replace (Q2R 0) with 0%R in H by (unfold Q2R; simpl; lra). exact H.
Qed.

Lemma memoizedEther_coherent memo value :
  coherent memo ->
  fst (Overview.memoizedEther memo value) = etherOf value
  /\ coherent (snd (Overview.memoizedEther memo value)).
Proof.
  intros Hc. unfold Overview.memoizedEther.
  destruct (memo !! value) as [v|] eqn:E; simpl.
  - split; [apply Hc; exact E | exact Hc].
  - split; [reflexivity|]. intros k v. rewrite lookup_insert.
    destruct (decide (value = k)) as [<-|Hne]; [intros [= <-]; reflexivity | apply Hc].
Qed.

Lemma overview_fold_bounds lo hi ps :
  Forall (fun p => (0 <= overviewWeight p)%Q) ps ->
  Forall (fun p => (lo <= Overview.apy p <= hi)%R) ps ->
  forall tw ws memo tw' ws' memo',
    coherent memo ->
    (lo * Q2R tw <= ws <= hi * Q2R tw)%R ->
    fold_left
      (fun '(totalWeight, weightedSum, memo) period =>
         let '(normalizedShares, memo') :=
           Overview.memoizedEther memo (Overview.sharesHeldBigint period) in
         let weight := (normalizedShares * Overview.durationDays period)%Q in
         ((totalWeight + weight)%Q,
          (weightedSum + Overview.apy period * Q2R weight)%R,
          memo'))
      ps (tw, ws, memo) = (tw', ws', memo') ->
    coherent memo'
    /\ (lo * Q2R tw' <= ws' <= hi * Q2R tw')%R
    /\ (Q2R tw <= Q2R tw')%R
    /\ (Exists (fun p => (0 < overviewWeight p)%Q) ps -> (Q2R tw < Q2R tw')%R).
Proof.
  induction ps as [|p ps IH]; intros Hw Ha tw ws memo tw' ws' memo' Hc Hb H.
  - simpl in H. injection H as <- <- <-. repeat split; try tauto; try lra.
    intros HE. inversion HE.
  - inversion Hw as [|? ? Hwp Hw']; subst. inversion Ha as [|? ? Hap Ha']; subst.
    simpl in H.
    destruct (memoizedEther_coherent memo (Overview.sharesHeldBigint p) Hc) as [Hv Hc1].
    destruct (Overview.memoizedEther memo (Overview.sharesHeldBigint p)) as [v memo1].
    simpl in Hv, Hc1. subst v. fold (overviewWeight p) in H.
    pose proof (Q2R_nonneg _ Hwp) as Hwp'.
    apply IH in H; [| assumption | assumption | exact Hc1 |].
    + destruct H as (Hc' & Hb' & Hmono & Hex). rewrite Q2R_plus in Hmono.
      split; [exact Hc'|]. split; [exact Hb'|]. split; [lra|].
      intros HE. inversion HE as [? ? Hp|? ? Hps]; subst.
      * apply Q2R_pos in Hp. lra.
      * specialize (Hex Hps). rewrite Q2R_plus in Hex. lra.
    + rewrite Q2R_plus. apply mean_step; assumption.
Qed.

Lemma addPeriod_denominator sums p :
  Tracker.weightedDenominator (Tracker.addPeriod sums p)
  = (Tracker.weightedDenominator sums + trackerWeight p)%Q.
Proof. reflexivity. Qed.

Lemma addPeriod_native sums p :
  Tracker.weightedNativeAPYSum (Tracker.addPeriod sums p)
  = (Tracker.weightedNativeAPYSum sums
     + Q2R (trackerWeight p)
       * Tracker.nativeAPY (Tracker.calculatePeriodYieldMetrics p))%R.
Proof. reflexivity. Qed.

Lemma addPeriod_rewards sums p :
  Tracker.weightedRewardsAPRSum (Tracker.addPeriod sums p)
  = (Tracker.weightedRewardsAPRSum sums
     + Q2R (trackerWeight p)
       * Tracker.rewardsAPR (Tracker.calculatePeriodYieldMetrics p))%R.
Proof. reflexivity. Qed.

Lemma tracker_fold_bounds lo hi lo' hi' ps :
  Forall (fun p => (0 <= trackerWeight p)%Q) ps ->
  Forall (fun p =>
            (lo <= Tracker.nativeAPY (Tracker.calculatePeriodYieldMetrics p) <= hi)%R
            /\ (lo' <= Tracker.rewardsAPR (Tracker.calculatePeriodYieldMetrics p)
                <= hi')%R) ps ->
  forall sums,
    (lo * Q2R (Tracker.weightedDenominator sums)
     <= Tracker.weightedNativeAPYSum sums
     <= hi * Q2R (Tracker.weightedDenominator sums))%R ->
    (lo' * Q2R (Tracker.weightedDenominator sums)
     <= Tracker.weightedRewardsAPRSum sums
     <= hi' * Q2R (Tracker.weightedDenominator sums))%R ->
    let sums' := fold_left Tracker.addPeriod ps sums in
    (lo * Q2R (Tracker.weightedDenominator sums')
     <= Tracker.weightedNativeAPYSum sums'
     <= hi * Q2R (Tracker.weightedDenominator sums'))%R
    /\ (lo' * Q2R (Tracker.weightedDenominator sums')
        <= Tracker.weightedRewardsAPRSum sums'
        <= hi' * Q2R (Tracker.weightedDenominator sums'))%R
    /\ (Q2R (Tracker.weightedDenominator sums)
        <= Q2R (Tracker.weightedDenominator sums'))%R
    /\ (Exists (fun p => (0 < trackerWeight p)%Q) ps ->
        (Q2R (Tracker.weightedDenominator sums)
         < Q2R (Tracker.weightedDenominator sums'))%R).
Proof.
  induction ps as [|p ps IH]; intros Hw Ha sums Hn Hr; cbn [fold_left].
  - repeat split; try tauto; try lra. intros HE. inversion HE.
  - inversion Hw as [|? ? Hwp Hw']; subst.
    inversion Ha as [|? ? [Hnp Hrp] Ha']; subst.
    pose proof (Q2R_nonneg _ Hwp) as Hwp'.
    destruct (IH Hw' Ha' (Tracker.addPeriod sums p)) as (H1 & H2 & Hmono & Hex).
    + rewrite addPeriod_native, addPeriod_denominator, Q2R_plus,
        (Rmult_comm (Q2R (trackerWeight p))).
      apply mean_step; assumption.
    + rewrite addPeriod_rewards, addPeriod_denominator, Q2R_plus,
        (Rmult_comm (Q2R (trackerWeight p))).
      apply mean_step; assumption.
    + rewrite addPeriod_denominator, Q2R_plus in Hmono, Hex.
      split; [exact H1|]. split; [exact H2|]. split; [lra|].
      intros HE. inversion HE as [? ? Hp|? ? Hps]; subst.
      * apply Q2R_pos in Hp. lra.
      * specialize (Hex Hps). lra.
Qed.

End AverageFacts.

(** X14: the calculator's average APY is a weighted mean: when no
    period has a negative weight [shares * durationDays] and one has a
    positive weight, the average lies between the smallest and the
    largest [apy] of the periods; for a single period of positive weight
    it is that period's [apy]. *)
Theorem overview_average_apy_is_a_mean :
  forall memo ps lo hi,
    AverageSpec.coherent memo ->
    Forall (fun p => (0 <= AverageSpec.overviewWeight p)%Q) ps ->
    Exists (fun p => (0 < AverageSpec.overviewWeight p)%Q) ps ->
    Forall (fun p => (lo <= Overview.apy p <= hi)%R) ps ->
    (lo <= fst (Overview.calculateWeightedAverageAPY memo ps) <= hi)%R
    /\ (forall p, ps = [p] ->
          fst (Overview.calculateWeightedAverageAPY memo ps) = Overview.apy p).
Proof.
  intros memo ps lo hi Hc Hw He Ha.
  assert (Hmean : forall lo hi,
            Forall (fun p => (lo <= Overview.apy p <= hi)%R) ps ->
            (lo <= fst (Overview.calculateWeightedAverageAPY memo ps) <= hi)%R).
  { clear lo hi Ha. intros lo hi Ha.
    unfold Overview.calculateWeightedAverageAPY.
    destruct ps as [|p0 ps0] eqn:Eps; [inversion He|]. rewrite <- Eps in *.
    destruct (fold_left _ ps (0%Q, 0%R, memo)) as [[tw ws] memo'] eqn:Ef.
    apply (AverageFacts.overview_fold_bounds lo hi ps Hw Ha) in Ef;
      [|exact Hc | replace (Q2R 0) with 0%R by (unfold Q2R; simpl; lra); lra].
    destruct Ef as (_ & Hb & _ & Hpos). specialize (Hpos He).
    replace (Q2R 0) with 0%R in Hpos by (unfold Q2R; simpl; lra).
    rewrite (AverageFacts.Qltb_of_pos tw Hpos). simpl.
    apply AverageFacts.mean_final; assumption. }
  split; [apply Hmean; exact Ha|].
  intros p Hp. subst ps.
  assert (H : (Overview.apy p
               <= fst (Overview.calculateWeightedAverageAPY memo [p])
               <= Overview.apy p)%R).
  { apply Hmean. constructor; [lra | constructor]. }
  lra.
Qed.

Lemma overview_average_apy_is_a_mean_witness :
  exists c p,
    Samples.overviewRun Samples.risingClient Samples.oneDeposit = Some c
    /\ Overview.periods c = [p]
    /\ fst (Overview.calculateWeightedAverageAPY ∅ (Overview.periods c))
       = Overview.apy p.
Proof.
  eexists. eexists. split; [vm_compute; reflexivity|]. split; [reflexivity|].
  match goal with |- fst (Overview.calculateWeightedAverageAPY _ ?ps) = Overview.apy ?p =>
    refine (proj2 (overview_average_apy_is_a_mean ∅ ps (Overview.apy p) (Overview.apy p)
                     _ _ _ _) p eq_refl)
  end.
  - intros k v H. rewrite lookup_empty in H. discriminate H.
  - constructor; [vm_compute; discriminate | constructor].
  - constructor. vm_compute. reflexivity.
  - constructor; [split; apply Rle_refl | constructor].
Defined.

Module OverallFacts.
Import AverageSpec.

Lemma zero_weights_denominator ps sums :
  Forall (fun p => (trackerWeight p == 0)%Q) ps ->
  Q2R (Tracker.weightedDenominator (fold_left Tracker.addPeriod ps sums))
  = Q2R (Tracker.weightedDenominator sums).
Proof.
  revert sums. induction ps as [|p ps IH]; intros sums Hz; [reflexivity|].
  inversion Hz as [|? ? Hp Hz']; subst. cbn [fold_left].
  rewrite (IH _ Hz'), AverageFacts.addPeriod_denominator, Q2R_plus.
  rewrite (Qeq_eqR _ _ Hp). unfold Q2R at 2. simpl. lra.
Qed.

End OverallFacts.

(** X15, with numbers taken as exact reals: over periods of positive
    length, none with a positive USD position wholly lost, the tracker's
    overall native APY and rewards APR are weighted means of the periods'
    figures, lying between their smallest and largest values when no
    weight [durationInSeconds * positionAmountUSD] is negative and one is
    positive, and the overall total APY is their sum; when every weight
    is zero, as when the asset has no USD price, all three are 0. *)
Theorem tracker_overall_rates_are_means :
  (forall ps lo hi lo' hi',
     Forall AverageSpec.regular ps ->
     Forall (fun p => (0 <= AverageSpec.trackerWeight p)%Q) ps ->
     Exists (fun p => (0 < AverageSpec.trackerWeight p)%Q) ps ->
     Forall (fun p =>
               (lo <= Tracker.nativeAPY (Tracker.calculatePeriodYieldMetrics p)
                <= hi)%R
               /\ (lo' <= Tracker.rewardsAPR (Tracker.calculatePeriodYieldMetrics p)
                   <= hi')%R) ps ->
     let m := Tracker.calculateOverallYieldMetrics ps in
     (lo <= Tracker.overallNativeAPY m <= hi)%R
     /\ (lo' <= Tracker.overallRewardsAPR m <= hi')%R
     /\ Tracker.overallTotalAPY m
        = (Tracker.overallNativeAPY m + Tracker.overallRewardsAPR m)%R)
  /\
  (forall ps,
     Forall (fun p => (AverageSpec.trackerWeight p == 0)%Q) ps ->
     let m := Tracker.calculateOverallYieldMetrics ps in
     Tracker.overallNativeAPY m = 0%R
     /\ Tracker.overallRewardsAPR m = 0%R
     /\ Tracker.overallTotalAPY m = 0%R).
Proof.
  split.
  - intros ps lo hi lo' hi' _ Hw He Ha m. subst m.
    unfold Tracker.calculateOverallYieldMetrics.
    destruct ps as [|p0 ps0] eqn:Eps; [inversion He|]. rewrite <- Eps in *.
    pose proof (AverageFacts.tracker_fold_bounds lo hi lo' hi' ps Hw Ha
                  {| Tracker.weightedNativeAPYSum := 0;
                     Tracker.weightedRewardsAPRSum := 0;
                     Tracker.weightedDenominator := 0;
                     Tracker.sumInterestEarnedUSD := 0;
                     Tracker.sumRewardsEarnedUSD := 0;
                     Tracker.totalPositionDurationSeconds := 0 |}) as H.
    cbn [Tracker.weightedNativeAPYSum Tracker.weightedRewardsAPRSum
         Tracker.weightedDenominator] in H.
    replace (Q2R 0) with 0%R in H by (unfold Q2R; simpl; lra).
    destruct H as (Hn & Hr & _ & Hpos); [lra | lra |]. specialize (Hpos He).
    cbn [Tracker.overallNativeAPY Tracker.overallRewardsAPR Tracker.overallTotalAPY].
    rewrite (AverageFacts.Qltb_of_pos _ Hpos).
    split; [apply AverageFacts.mean_final; assumption|].
    split; [apply AverageFacts.mean_final; assumption | reflexivity].
  - intros ps Hz m. subst m. unfold Tracker.calculateOverallYieldMetrics.
    destruct ps as [|p0 ps0] eqn:Eps; [simpl; repeat split; lra|]. rewrite <- Eps in *.
    cbn [Tracker.overallNativeAPY Tracker.overallRewardsAPR Tracker.overallTotalAPY].
    destruct (Qltb 0 _) eqn:E; [|repeat split; lra].
    apply AverageFacts.Qltb_pos in E.
    rewrite (OverallFacts.zero_weights_denominator ps _ Hz) in E.
    cbn [Tracker.weightedDenominator] in E. unfold Q2R in E. simpl in E. lra.
Qed.

Lemma tracker_overall_rates_are_means_witness :
  exists st p,
    Tracker.calculatePeriods Samples.droppingClient (Some Samples.dollarAsset)
      Samples.soleDeposit = Some st
    /\ Tracker.periods st = [p]
    /\ (Tracker.positionAmountUSD p == 2)%Q
    /\ Tracker.overallNativeAPY (Tracker.calculateOverallYieldMetrics (Tracker.periods st))
       = Tracker.nativeAPY (Tracker.calculatePeriodYieldMetrics p).
Proof.
  eexists. eexists. split; [vm_compute; reflexivity|]. split; [reflexivity|].
  split; [vm_compute; reflexivity|].
  match goal with
  | |- Tracker.overallNativeAPY (Tracker.calculateOverallYieldMetrics ?ps)
       = Tracker.nativeAPY (Tracker.calculatePeriodYieldMetrics ?p) =>
    pose proof (proj1 tracker_overall_rates_are_means ps
                  (Tracker.nativeAPY (Tracker.calculatePeriodYieldMetrics p))
                  (Tracker.nativeAPY (Tracker.calculatePeriodYieldMetrics p))
                  (Tracker.rewardsAPR (Tracker.calculatePeriodYieldMetrics p))
                  (Tracker.rewardsAPR (Tracker.calculatePeriodYieldMetrics p))) as H
  end.
  destruct H as (Hn & _ & _).
  - constructor; [|constructor].
    split; [vm_compute; reflexivity | intros _; vm_compute; reflexivity].
  - constructor; [vm_compute; discriminate | constructor].
  - constructor. vm_compute. reflexivity.
  - constructor; [split; split; apply Rle_refl | constructor].
  - apply Rle_antisym; [exact (proj2 Hn) | exact (proj1 Hn)].
Defined.

Module StampFacts.
Import Tracker StampSpec.

Lemma stamp_fold_None client bs :
  fold_left
    (fun acc b =>
       let? us := acc in
       let? timestamp0 := getBlockTimestamp client b in
       Some (stampBlock b timestamp0 us)) bs None = None.
Proof. induction bs as [|b bs IH]; [reflexivity | exact IH]. Qed.

Lemma partly_nil client us : Forall2 (partly client []) us us.
Proof.
  induction us as [|u us IH]; constructor; [|exact IH].
  split; [repeat split | reflexivity].
Qed.

Lemma partly_step client b t bs us us' :
  getBlockTimestamp client b = Some t ->
  Forall2 (partly client bs) (stampBlock b t us) us' ->
  Forall2 (partly client (b :: bs)) us us'.
Proof.
  intros Ht. revert us'. induction us as [|u us IH]; intros us' H.
  - inversion H; subst. constructor.
  - unfold stampBlock in H. cbn [map] in H.
    inversion H as [|? u' ? us'' Hu Hrest]; subst. constructor; [|apply IH; exact Hrest].
    clear IH H Hrest. unfold partly, sameEvent in *. cbn [existsb].
    destruct (blockNumber u =? b) eqn:Eb; cbn [orb].
    + apply Z.eqb_eq in Eb. cbn [blockNumber type assets shares timestamp] in Hu.
      destruct Hu as [Hsame Hts]. split; [exact Hsame|].
      destruct (existsb (Z.eqb (blockNumber u)) bs).
      * exact Hts.
      * rewrite Eb, Ht, Hts. reflexivity.
    + exact Hu.
Qed.

Lemma stamp_fold_sound client bs : forall us us',
  fold_left
    (fun acc b =>
       let? us := acc in
       let? timestamp0 := getBlockTimestamp client b in
       Some (stampBlock b timestamp0 us)) bs (Some us) = Some us' ->
  Forall2 (partly client bs) us us'.
Proof.
  induction bs as [|b bs IH]; intros us us' H.
  - injection H as <-. apply partly_nil.
  - cbn [fold_left bind] in H.
    destruct (getBlockTimestamp client b) as [t|] eqn:Et.
    + apply (partly_step client b t); [exact Et|]. apply IH. exact H.
    + rewrite stamp_fold_None in H. discriminate H.
Qed.

Lemma stamp_fold_reads client bs : forall us,
  is_Some (fold_left
    (fun acc b =>
       let? us := acc in
       let? timestamp0 := getBlockTimestamp client b in
       Some (stampBlock b timestamp0 us)) bs (Some us))
  <-> Forall (fun b => is_Some (getBlockTimestamp client b)) bs.
Proof.
  induction bs as [|b bs IH]; intros us.
  - split; [constructor | intros _; eexists; reflexivity].
  - cbn [fold_left bind].
    destruct (getBlockTimestamp client b) as [t|] eqn:Et.
    + split.
      * intros H. constructor; [rewrite Et; eexists; reflexivity|].
        apply (proj1 (IH (stampBlock b t us))). exact H.
      * intros H. apply (proj2 (IH (stampBlock b t us))). inversion H; assumption.
    + split.
      * intros [x Hx]. exfalso.
        assert (Some x = None) as Hn by (rewrite <- Hx; exact (stamp_fold_None client bs)).
        discriminate Hn.
      * intros H. inversion H as [|? ? [x Hx] ?]; subst. rewrite Et in Hx. discriminate Hx.
Qed.

Lemma Forall2_In_impl {A B : Type} (P Q : A -> B -> Prop) l k :
  Forall2 P l k -> (forall x y, In x l -> P x y -> Q x y) -> Forall2 Q l k.
Proof.
  induction 1 as [|x y l k Hxy Hrest IH]; intros H; constructor.
  - apply H; [left; reflexivity | exact Hxy].
  - apply IH. intros x' y' Hin. apply H. right. exact Hin.
Qed.

Lemma stampOf_unique client l : forall us us',
  Forall2 (stampOf client) l us -> Forall2 (stampOf client) l us' -> us = us'.
Proof.
  induction l as [|u0 l IH]; intros us us' H H'.
  - inversion H; inversion H'; reflexivity.
  - inversion H as [|? u ? k Hu Hk]; inversion H' as [|? u' ? k' Hu' Hk']; subst.
    f_equal; [|apply IH; assumption].
    destruct Hu as [(B & T & A & S) Ts], Hu' as [(B' & T' & A' & S') Ts'].
    rewrite Ts in Ts'. injection Ts' as Ets.
    destruct u, u'. cbn [blockNumber type assets shares timestamp] in *. congruence.
Qed.

Lemma stampOf_reads client l us :
  Forall2 (stampOf client) l us ->
  Forall (fun b => is_Some (getBlockTimestamp client b)) (map blockNumber l).
Proof.
  induction 1 as [|u0 u l k [_ Hts] _ IH]; cbn [map]; constructor.
  - rewrite Hts. eexists. reflexivity.
  - exact IH.
Qed.

Lemma unique_reads client l :
  Forall (fun b => is_Some (getBlockTimestamp client b)) (uniqueBlocks [] l)
  <-> Forall (fun b => is_Some (getBlockTimestamp client b)) l.
Proof.
  rewrite !List.Forall_forall. split; intros H b Hb.
  - apply H. apply uniqueBlocks_In. split; [exact Hb | intros []].
  - apply H. apply uniqueBlocks_In in Hb. tauto.
Qed.

Lemma fetch_sound client ds ws us :
  fetchUserInteractions client ds ws = Some us -> stamped client ds ws us.
Proof.
  unfold fetchUserInteractions, stamped. intros H. fold (pushed ds ws) in *.
  apply stamp_fold_sound in H.
  apply (Forall2_In_impl _ _ _ _ H). intros u0 u Hin [Hsame Hts]. split; [exact Hsame|].
  assert (existsb (Z.eqb (blockNumber u0)) (uniqueBlocks [] (map blockNumber (pushed ds ws)))
          = true) as E.
  { apply existsb_exists. exists (blockNumber u0). split; [|apply Z.eqb_refl].
    apply uniqueBlocks_In. split; [|intros []]. apply in_map. exact Hin. }
  rewrite E in Hts. exact Hts.
Qed.

Lemma pushed_blocks ds ws :
  map blockNumber (pushed ds ws) = map eventBlockNumber (ds ++ ws).
Proof.
  unfold pushed. rewrite !map_app, !map_map. reflexivity.
Qed.

End StampFacts.

(** X16: the tracker's [fetchUserInteractions] answers with a ledger
    exactly when that ledger holds, deposits first and in log order, one
    entry per event with the event's block, kind, assets and shares (0 for
    an absent argument) and the timestamp read for its block; it answers
    at all exactly when the timestamp of every event's block can be
    read. *)
Theorem tracker_ledger_is_the_stamped_log :
  forall client depositEvents withdrawEvents,
    (forall us,
       Tracker.fetchUserInteractions client depositEvents withdrawEvents = Some us
       <-> StampSpec.stamped client depositEvents withdrawEvents us)
    /\ (is_Some (Tracker.fetchUserInteractions client depositEvents withdrawEvents)
        <-> Forall (fun event =>
                      is_Some (Tracker.getBlockTimestamp client
                                 (Tracker.eventBlockNumber event)))
                   (depositEvents ++ withdrawEvents)).
Proof.
  intros client ds ws.
  assert (Hreads :
    is_Some (Tracker.fetchUserInteractions client ds ws)
    <-> Forall (fun event =>
                  is_Some (Tracker.getBlockTimestamp client
                             (Tracker.eventBlockNumber event))) (ds ++ ws)).
  { unfold Tracker.fetchUserInteractions. rewrite StampFacts.stamp_fold_reads.
    fold (StampSpec.pushed ds ws). rewrite StampFacts.unique_reads.
    rewrite StampFacts.pushed_blocks, List.Forall_map. reflexivity. }
  split; [|exact Hreads].
  intros us. split; [apply StampFacts.fetch_sound|].
  intros Hst.
  assert (is_Some (Tracker.fetchUserInteractions client ds ws)) as [us' Hus'].
  { apply Hreads. apply StampFacts.stampOf_reads in Hst.
    rewrite StampFacts.pushed_blocks, List.Forall_map in Hst. exact Hst. }
  rewrite Hus'. f_equal.
  apply (StampFacts.stampOf_unique client (StampSpec.pushed ds ws));
    [apply StampFacts.fetch_sound; exact Hus' | exact Hst].
Qed.

Lemma tracker_ledger_is_the_stamped_log_witness :
  exists us,
    Tracker.fetchUserInteractions Samples.droppingClient
      Samples.loggedDeposits Samples.loggedWithdrawals = Some us
    /\ map Tracker.timestamp us = [300; 300; 700]
    /\ map Tracker.shares us = [4; 0; 1]
    /\ StampSpec.stamped Samples.droppingClient
         Samples.loggedDeposits Samples.loggedWithdrawals us.
Proof.
  eexists. split; [vm_compute; reflexivity|].
  split; [reflexivity|]. split; [reflexivity|].
  apply (proj1 (proj1 (tracker_ledger_is_the_stamped_log Samples.droppingClient
                         Samples.loggedDeposits Samples.loggedWithdrawals) _)).
  vm_compute. reflexivity.
Defined.

(** X17, with numbers taken as exact reals: for a period of positive
    length with a positive position in USD that was not wholly lost, the
    formula of the tracker's native APY has the sign of the interest:
    positive exactly when interest was earned, 0 exactly when there was
    none; the rewards APR is not negative when the rewards are not; and
    over a period of exactly 365 days both are the plain return in
    percent. *)
Theorem tracker_native_apy_follows_the_interest :
  forall period,
    (0 < Tracker.positionAmountUSD period)%Q ->
    Tracker.startTimestamp period < Tracker.endTimestamp period ->
    (- Tracker.positionAmountUSD period
     < Tracker.positionAccruedInterestUSD period)%Q ->
    let m := Tracker.calculatePeriodYieldMetrics period in
    ((0 < Tracker.nativeAPY m)%R
     <-> (0 < Tracker.positionAccruedInterestUSD period)%Q)
    /\ (Tracker.nativeAPY m = 0%R
        <-> (Tracker.positionAccruedInterestUSD period == 0)%Q)
    /\ ((0 <= Tracker.totalRewardsAccruedUSD period)%Q
        -> (0 <= Tracker.rewardsAPR m)%R)
    /\ (Tracker.endTimestamp period - Tracker.startTimestamp period = 31536000 ->
        Tracker.nativeAPY m
        = (Q2R (Tracker.positionAccruedInterestUSD period)
           / Q2R (Tracker.positionAmountUSD period) * 100)%R
        /\ Tracker.rewardsAPR m
           = (Q2R (Tracker.totalRewardsAccruedUSD period)
              / Q2R (Tracker.positionAmountUSD period) * 100)%R).
Proof.
  intros period Hpos Htime Hloss m. subst m.
  unfold Tracker.calculatePeriodYieldMetrics.
  cbn [Tracker.nativeAPY Tracker.rewardsAPR].
  assert (Hb : Qltb 0 (Tracker.positionAmountUSD period) = true).
  { apply AverageFacts.Qltb_of_pos. apply AverageFacts.Q2R_pos. exact Hpos. }
  rewrite Hb.
  set (a := Q2R (Tracker.positionAmountUSD period)).
  set (i := Q2R (Tracker.positionAccruedInterestUSD period)).
  set (w := Q2R (Tracker.totalRewardsAccruedUSD period)).
  set (d := IZR (Tracker.endTimestamp period - Tracker.startTimestamp period)).
  assert (Ha : (0 < a)%R) by (apply AverageFacts.Q2R_pos; exact Hpos).
  assert (Hd : (0 < d)%R) by (apply IZR_lt; lia).
  assert (Hi : (- a < i)%R).
  { apply Qlt_Rlt in Hloss. rewrite Q2R_opp in Hloss. exact Hloss. }
  assert (Hf : (0 < 365 * 86400 / d)%R).
  { apply Rdiv_lt_0_compat; lra. }
  assert (Hr : (0 < 1 + i / a)%R).
  { apply Rmult_lt_reg_r with a; [exact Ha|]. field_simplify; lra. }
  destruct (AnnualFacts.annualized_sign _ _ Hr Hf) as [Hsign Hzero].
  assert (Hia : forall c : R, (c < i / a <-> c * a < i)%R).
  { intros c. split; intros H.
    - apply Rmult_lt_compat_r with (r := a) in H; [|exact Ha].
      replace (i / a * a)%R with i in H by (field; lra). exact H.
    - apply Rmult_lt_reg_r with a; [exact Ha|].
      replace (i / a * a)%R with i by (field; lra). exact H. }
  split; [split | split; [split | split]].
  - intros H. apply Hsign in H. apply Rlt_Qlt. rewrite RMicromega.Q2R_0. fold i.
    assert (0 < i / a)%R as H' by lra. apply Hia in H'. lra.
  - intros H. apply Hsign. apply Qlt_Rlt in H. rewrite RMicromega.Q2R_0 in H. fold i in H.
    assert (0 < i / a)%R by (apply Hia; lra). lra.
  - intros H. apply Hzero in H. apply eqR_Qeq. rewrite RMicromega.Q2R_0. fold i.
    assert (i / a = 0)%R as H' by lra.
    apply (f_equal (fun z => z * a)%R) in H'.
    replace (i / a * a)%R with i in H' by (field; lra). lra.
  - intros H. apply Hzero. apply Qeq_eqR in H. rewrite RMicromega.Q2R_0 in H. fold i in H.
    rewrite H. field. lra.
  - intros H. apply Qle_Rle in H. rewrite RMicromega.Q2R_0 in H. fold w in H.
    apply Rmult_le_pos; [|lra]. apply Rmult_le_pos; [|lra].
    apply Rmult_le_pos; [exact H|]. apply Rlt_le, Rinv_0_lt_compat. exact Ha.
  - intros H. subst d. rewrite H. split.
    + replace (365 * 86400 / 31536000)%R with 1%R by field.
      rewrite Rpower_1 by exact Hr. field. lra.
    + field. lra.
Qed.

Lemma tracker_native_apy_follows_the_interest_witness :
  exists st p,
    Tracker.calculatePeriods Samples.droppingClient (Some Samples.dollarAsset)
      Samples.soleDeposit = Some st
    /\ Tracker.periods st = [p]
    /\ (Tracker.positionAccruedInterestUSD p == -1)%Q
    /\ ~ (0 < Tracker.nativeAPY (Tracker.calculatePeriodYieldMetrics p))%R.
Proof.
  eexists. eexists. split; [vm_compute; reflexivity|]. split; [reflexivity|].
  split; [vm_compute; reflexivity|].
  intros H.
  match type of H with
  | (0 < Tracker.nativeAPY (Tracker.calculatePeriodYieldMetrics ?p))%R =>
    apply (proj1 (tracker_native_apy_follows_the_interest p
                    ltac:(vm_compute; reflexivity) ltac:(vm_compute; reflexivity)
                    ltac:(vm_compute; reflexivity))) in H
  end.
  vm_compute in H. discriminate H.
Defined.

(** X18, with numbers taken as exact reals: for a period of positive
    length between positive prices, the formula of the calculator's [apy]
    has the sign of the price move: positive exactly when the end price
    is above the start price, 0 exactly when they are equal; over exactly
    365 days it is the plain price return in percent. *)
Theorem overview_apy_follows_the_price :
  forall p,
    (0 < Overview.startPrice p)%Q ->
    (0 < Overview.endPrice p)%Q ->
    (0 < Overview.durationDays p)%Q ->
    ((0 < Overview.apy p)%R <-> (Overview.startPrice p < Overview.endPrice p)%Q)
    /\ (Overview.apy p = 0%R <-> (Overview.startPrice p == Overview.endPrice p)%Q)
    /\ ((Overview.durationDays p == 365)%Q ->
        Overview.apy p
        = ((Q2R (Overview.endPrice p) / Q2R (Overview.startPrice p) - 1) * 100)%R).
Proof.
  intros p Hs He Hd. unfold Overview.apy. cbv zeta.
  rewrite Q2R_div by (apply AnnualFacts.Q_nonzero; exact Hs).
  rewrite Q2R_div by (apply AnnualFacts.Q_nonzero; exact Hd).
  set (s := Q2R (Overview.startPrice p)).
  set (e := Q2R (Overview.endPrice p)).
  set (d := Q2R (Overview.durationDays p)).
  assert (Hs' : (0 < s)%R) by (apply AverageFacts.Q2R_pos; exact Hs).
  assert (He' : (0 < e)%R) by (apply AverageFacts.Q2R_pos; exact He).
  assert (Hd' : (0 < d)%R) by (apply AverageFacts.Q2R_pos; exact Hd).
  replace (Q2R 365) with 365%R by (unfold Q2R; simpl; lra).
  assert (Hr : (0 < e / s)%R) by (apply Rdiv_lt_0_compat; assumption).
  assert (Hf : (0 < 365 / d)%R) by (apply Rdiv_lt_0_compat; lra).
  destruct (AnnualFacts.annualized_sign _ _ Hr Hf) as [Hsign Hzero].
  assert (Hes : forall c : R, (c < e / s <-> c * s < e)%R).
  { intros c. split; intros H.
    - apply Rmult_lt_compat_r with (r := s) in H; [|exact Hs'].
      replace (e / s * s)%R with e in H by (field; lra). exact H.
    - apply Rmult_lt_reg_r with s; [exact Hs'|].
      replace (e / s * s)%R with e by (field; lra). exact H. }
  split; [split | split; [split |]].
  - intros H. apply Hsign in H. apply Rlt_Qlt. fold s e. apply Hes in H. lra.
  - intros H. apply Hsign. apply Qlt_Rlt in H. fold s e in H. apply Hes. lra.
  - intros H. apply Hzero in H. apply eqR_Qeq. fold s e.
    apply (f_equal (fun z => z * s)%R) in H.
    replace (e / s * s)%R with e in H by (field; lra). lra.
  - intros H. apply Hzero. apply Qeq_eqR in H. fold s e in H. rewrite H. field. lra.
  - intros H. apply Qeq_eqR in H. fold d in H. rewrite H.
    replace (Q2R 365) with 365%R by (unfold Q2R; simpl; lra).
    replace (365 / 365)%R with 1%R by field.
    rewrite Rpower_1 by exact Hr. reflexivity.
Qed.

Lemma overview_apy_follows_the_price_witness :
  exists c p,
    Samples.overviewRun Samples.risingClient Samples.oneDeposit = Some c
    /\ Overview.periods c = [p]
    /\ (Overview.durationDays p == 365)%Q
    /\ (0 < Overview.apy p)%R.
Proof.
  eexists. eexists. split; [vm_compute; reflexivity|]. split; [reflexivity|].
  split; [vm_compute; reflexivity|].
  match goal with
  | |- (0 < Overview.apy ?p)%R =>
    apply (proj2 (proj1 (overview_apy_follows_the_price p
                           ltac:(vm_compute; reflexivity) ltac:(vm_compute; reflexivity)
                           ltac:(vm_compute; reflexivity))))
  end.
  vm_compute. reflexivity.
Defined.

Module SummaryFacts.
Import Overview OverviewSpec OverviewSegments SummarySpec.

Lemma pass_keeps_ledger client us cache c :
  calculatePreciseInterestBetweenInteractions client us cache = Some c ->
  userInteractions c = us.
Proof.
  unfold calculatePreciseInterestBetweenInteractions.
  destruct (for_each _ _ _) as [st|]; simpl; [|discriminate].
  unfold calculateInterestToLatestBlock.
  destruct (last us) as [a|]; [|intros [= <-]; reflexivity].
  destruct (currentShares st =? 0); [intros [= <-]; reflexivity|].
  destruct (latestBlock client) as [latestNumber latestTimestamp].
  destruct (getPricePerShareAtBlock client cache latestNumber 3) as [latestPrice cache'].
  destruct (Qltb 0.04 _); [|intros [= <-]; reflexivity].
  destruct (makePeriod _ _ _ _ _ _ _ _ _ _) as [p|]; simpl; [|discriminate].
  intros [= <-]. reflexivity.
Qed.

(** Intervals that follow one another inside a window cover no more than
    the window. *)
Lemma covered_within (ps : list EnhancedInterestPeriod) : forall lo hi,
  lo <= hi ->
  StronglySorted (fun p q => endTimestamp p <= startTimestamp q) ps ->
  Forall (fun p => lo <= startTimestamp p /\ startTimestamp p <= endTimestamp p
                   /\ endTimestamp p <= hi) ps ->
  0 <= secondsCovered ps <= hi - lo.
Proof.
  induction ps as [|p ps IH]; intros lo hi Hlh Hs Hin.
  - unfold secondsCovered. simpl. lia.
  - inversion Hs as [|? ? Hs' Hafter]; subst.
    inversion Hin as [|? ? (Hp1 & Hp2 & Hp3) Hin']; subst.
    assert (H : 0 <= secondsCovered ps <= hi - endTimestamp p).
    { apply IH; [exact Hp3 | exact Hs'|].
      rewrite List.Forall_forall in *. intros q Hq.
      destruct (Hin' q Hq) as (_ & Hq2 & Hq3). specialize (Hafter q Hq). simpl in Hafter.
      lia. }
    unfold secondsCovered in *. cbn [map fold_right]. lia.
Qed.

Lemma days_fold (ps : list EnhancedInterestPeriod) : forall acc,
  Forall (fun p => durationDays p = daysOfSeconds (endTimestamp p - startTimestamp p)) ps ->
  (fold_left (fun sum period => sum + durationDays period) ps acc
   == acc + daysOfSeconds (secondsCovered ps))%Q.
Proof.
  induction ps as [|p ps IH]; intros acc Hd.
  - unfold secondsCovered, daysOfSeconds. simpl. unfold Qdiv. rewrite Qmult_0_l. ring.
  - inversion Hd as [|? ? Hp Hd']; subst. cbn [fold_left].
    rewrite (IH _ Hd'), Hp. unfold secondsCovered, daysOfSeconds. cbn [map fold_right].
    rewrite inject_Z_plus. field.
Qed.

Lemma first_le_last (us : list UserInteraction) :
  timesAscend us ->
  match us with first :: _ => timestamp first | [] => 0 end
  <= match last us with Some lastInteraction => timestamp lastInteraction | None => 0 end.
Proof.
  intros Hs. destruct us as [|x us]; [simpl; lia|].
  rewrite OverviewSegmentFacts.last_nth.
  destruct (nth_error (x :: us) (length (x :: us) - 1)) as [y|] eqn:Ey.
  - apply (OverviewSegmentFacts.times_nth (x :: us) 0 (length (x :: us) - 1));
      [exact Hs | lia | reflexivity | exact Ey].
  - apply nth_error_None in Ey. simpl in Ey. lia.
Qed.

Lemma spans_within client us k p :
  timesAscend us -> spans client us k p ->
  match us with first :: _ => timestamp first | [] => 0 end <= startTimestamp p
  /\ endTimestamp p
     <= Z.max (match last us with
               | Some lastInteraction => timestamp lastInteraction
               | None => 0
               end) (snd (latestBlock client)).
Proof.
  intros Hs (Hk & _ & (a & Ha & _ & Hat & _) & Hend).
  destruct us as [|x us]; [destruct (k - 1)%nat; discriminate Ha|].
  split.
  - rewrite Hat.
    apply (OverviewSegmentFacts.times_nth (x :: us) 0 (k - 1));
      [exact Hs | lia | reflexivity | exact Ha].
  - destruct Hend as [(b & Hb & _ & Hbt & _)|[_ Hlatest]].
    + rewrite OverviewSegmentFacts.last_nth.
      pose proof (nth_error_bound _ _ _ Hb) as Hbound.
      destruct (nth_error (x :: us) (length (x :: us) - 1)) as [y|] eqn:Ey.
      * assert (timestamp b <= timestamp y).
        { apply (OverviewSegmentFacts.times_nth (x :: us) k (length (x :: us) - 1));
            [exact Hs | lia | exact Hb | exact Ey]. }
        lia.
      * apply nth_error_None in Ey. simpl in Ey. lia.
    + rewrite Hlatest. cbn [snd]. lia.
Qed.

Lemma pass_count client us cache c :
  calculatePreciseInterestBetweenInteractions client us cache = Some c ->
  (length (periods c) <= length us)%nat.
Proof.
  intros Hrun.
  destruct (OverviewSegmentFacts.pass_segmented _ _ _ _ Hrun) as [(ks & Hf & Hs & Hb) _].
  rewrite <- (Forall2_length _ _ _ Hf).
  assert (Hr : Forall (fun k => (1 <= k <= length us)%nat) ks).
  { clear -Hf Hb. induction Hf as [|k p ks ps Hkp Hf IH]; [constructor|].
    inversion Hb as [|? ? Hk Hb']; subst.
    constructor; [|apply IH; exact Hb'].
    destruct Hkp as (H1 & _). lia. }
  pose proof (SegmentFacts.sorted_length ks 1 (length us) Hs Hr). lia.
Qed.

End SummaryFacts.

(** X19: after the period pass on a ledger in time order, the summary
    is always produced; it counts no more periods than interactions and
    its first timestamp is not after its last; the seconds the periods
    cover add up to no more than the seconds from the first interaction
    to the later of the last interaction and the latest block; with
    nothing deposited the total interest percent is 0.  Taken as an exact
    rational, [totalDurationDays] is the seconds covered, in days. *)
Theorem summary_covers_no_more_than_the_elapsed_time :
  forall client us cache c,
    OverviewSegments.timesAscend us ->
    Overview.calculatePreciseInterestBetweenInteractions client us cache = Some c ->
    exists s,
      Overview.getPreciseInterestSummary c = Some s
      /\ (Overview.periodCount s <= Overview.interactionCount s)%nat
      /\ Overview.firstInteractionTimestamp s <= Overview.lastInteractionTimestamp s
      /\ 0 <= SummarySpec.secondsCovered (Overview.periods c)
         <= Z.max (Overview.lastInteractionTimestamp s)
              (snd (Overview.latestBlock client))
            - Overview.firstInteractionTimestamp s
      /\ (Overview.summaryTotalDeposited s <= 0 ->
          Overview.totalInterestPercent s = 0%Q)
      /\ (Overview.totalDurationDays s
          == daysOfSeconds (SummarySpec.secondsCovered (Overview.periods c)))%Q.
Proof.
  intros client us cache c Hs Hrun.
  pose proof (SummaryFacts.pass_keeps_ledger _ _ _ _ Hrun) as Hus.
  destruct (OverviewSegmentFacts.pass_segmented _ _ _ _ Hrun) as [Hlaid _].
  pose proof (OverviewSegmentFacts.periods_chronological _ _ _ _ Hs Hrun) as Hchrono.
  destruct (OverviewFacts.pass_invariant _ _ _ _ Hrun) as (Hem & _ & _).
  unfold Overview.getPreciseInterestSummary. rewrite Hus.
  destruct (Overview.calculatePreciseTotalValue us) as [[td cs] cv].
  destruct (OverviewFacts.percentOf_total (Overview.totalInterestAccruedBigint c) td)
    as [pct Hpct].
  rewrite Hpct. cbn [bind]. eexists. split; [reflexivity|].
  cbn [Overview.periodCount Overview.interactionCount Overview.firstInteractionTimestamp
       Overview.lastInteractionTimestamp Overview.totalDurationDays
       Overview.summaryTotalDeposited Overview.totalInterestPercent].
  pose proof (SummaryFacts.first_le_last us Hs) as Hfl.
  split; [exact (SummaryFacts.pass_count _ _ _ _ Hrun)|].
  split; [exact Hfl|].
  assert (Hdays : Forall (fun p => Overview.durationDays p
                                   = daysOfSeconds (Overview.endTimestamp p
                                                    - Overview.startTimestamp p))
                         (Overview.periods c)).
  { eapply List.Forall_impl; [|exact Hem].
    intros p Hp. exact (proj1 (OverviewPeriods.emitted_duration p Hp)). }
  assert (Hwithin :
    Forall (fun p =>
              match us with first :: _ => Overview.timestamp first | [] => 0 end
              <= Overview.startTimestamp p
              /\ Overview.startTimestamp p <= Overview.endTimestamp p
              /\ Overview.endTimestamp p
                 <= Z.max (match last us with
                           | Some lastInteraction => Overview.timestamp lastInteraction
                           | None => 0
                           end) (snd (Overview.latestBlock client)))
           (Overview.periods c)).
  { destruct Hlaid as (ks & Hf & _ & _).
    rewrite List.Forall_forall in Hem. rewrite List.Forall_forall. intros p Hp.
    pose proof (proj2 (OverviewPeriods.emitted_duration p (Hem p Hp))) as Hlen.
    assert (exists k, OverviewSegments.spans client us k p) as [k Hk].
    { clear -Hf Hp. induction Hf as [|k q ks ps Hkq Hf IH]; [destruct Hp|].
      destruct Hp as [<-|Hp]; [exists k; exact Hkq | exact (IH Hp)]. }
    destruct (SummaryFacts.spans_within client us k p Hs Hk) as [H1 H2].
    repeat split; [exact H1 | lia | exact H2]. }
  pose proof (fun H => SummaryFacts.covered_within (Overview.periods c) _ _
                          H Hchrono Hwithin) as Hcov.
  specialize (Hcov ltac:(lia)).
  split; [exact Hcov|].
  split; [intros Htd; exact (OverviewFacts.percentOf_guard _ _ _ Htd Hpct)|].
  rewrite (SummaryFacts.days_fold _ 0%Q Hdays), Qplus_0_l. reflexivity.
Qed.

Lemma summary_covers_no_more_than_the_elapsed_time_witness :
  exists c s,
    Samples.overviewRun Samples.risingClient Samples.threeSteps = Some c
    /\ Overview.getPreciseInterestSummary c = Some s
    /\ SummarySpec.secondsCovered (Overview.periods c) = Samples.year
    /\ Overview.periodCount s = 3%nat.
Proof.
  edestruct (summary_covers_no_more_than_the_elapsed_time Samples.risingClient
               Samples.threeSteps ∅) as (s & Hsum & _);
    [vm_compute; repeat constructor; discriminate | vm_compute; reflexivity |].
  eexists. exists s. split; [vm_compute; reflexivity|].
  split; [exact Hsum|].
  vm_compute in Hsum. injection Hsum as <-. split; vm_compute; reflexivity.
Defined.

Module CumulativeFacts.
Import Overview OverviewSpec.

Lemma StronglySorted_snoc {A : Type} (R : A -> A -> Prop) (l : list A) (x : A) :
  StronglySorted R l -> Forall (fun y => R y x) l -> StronglySorted R (l ++ [x]).
Proof.
  induction 1 as [|y l Hs IH Hy]; intros Hall; simpl.
  - constructor; constructor.
  - inversion Hall as [|? ? Hyx Hl]; subst.
    constructor; [apply IH; exact Hl|].
    apply Forall_app. split; [exact Hy|]. constructor; [exact Hyx | constructor].
Qed.

Lemma accumulates_rises ps c :
  accumulates ps c ->
  Forall (fun p => 0 <= interestAccruedBigint p) ps ->
  StronglySorted (fun p q => cumulativeInterest p <= cumulativeInterest q) ps
  /\ Forall (fun p => interestAccruedBigint p <= cumulativeInterest p <= c) ps
  /\ 0 <= c.
Proof.
  induction 1 as [|ps c p Hacc IH Hp]; intros Hpos.
  - repeat split; [constructor | constructor | lia].
  - apply Forall_app in Hpos as [Hpos Hnew].
    inversion Hnew as [|? ? Hi _]; subst.
    destruct (IH Hpos) as (Hs & Hle & Hc).
    split; [|split; [|lia]].
    + apply StronglySorted_snoc; [exact Hs|].
      eapply List.Forall_impl; [|exact Hle]. intros q Hq. simpl in Hq. lia.
    + apply Forall_app. split.
      * eapply List.Forall_impl; [|exact Hle]. intros q Hq. simpl in Hq. lia.
      * constructor; [lia | constructor].
Qed.

Lemma emitted_interest_nonneg p : emitted p -> 0 <= interestAccruedBigint p.
Proof.
  intros Hp. destruct (OverviewPeriods.emitted_values p Hp) as (_ & _ & ->). lia.
Qed.

End CumulativeFacts.

(** X20: along the periods of the calculator the cumulative interest never
    decreases; in each period it is at least the period's own interest,
    which is not negative, and at most the sum of the interest of all
    periods; the total the calculator reports is not negative. *)
Theorem cumulative_interest_never_decreases :
  forall client us cache c,
    Overview.calculatePreciseInterestBetweenInteractions client us cache = Some c ->
    StronglySorted
      (fun p q => Overview.cumulativeInterest p <= Overview.cumulativeInterest q)
      (Overview.periods c)
    /\ Forall (fun p =>
                 0 <= Overview.interestAccruedBigint p
                 /\ Overview.interestAccruedBigint p <= Overview.cumulativeInterest p
                 /\ Overview.cumulativeInterest p
                    <= OverviewSpec.sumInterest (Overview.periods c))
              (Overview.periods c)
    /\ 0 <= Overview.totalInterestAccruedBigint c.
Proof.
  intros client us cache c Hrun.
  destruct (OverviewFacts.pass_invariant _ _ _ _ Hrun) as (Hem & Hacc & Htotal).
  assert (Hpos : Forall (fun p => 0 <= Overview.interestAccruedBigint p)
                   (Overview.periods c)).
  { eapply List.Forall_impl; [|exact Hem].
    intros p. apply CumulativeFacts.emitted_interest_nonneg. }
  destruct (CumulativeFacts.accumulates_rises _ _ Hacc Hpos) as (Hs & Hle & Hc).
  split; [exact Hs|]. split.
  - rewrite List.Forall_forall in *. intros p Hp.
    specialize (Hpos p Hp). specialize (Hle p Hp). simpl in Hle. lia.
  - destruct Htotal as [-> | ->]; lia.
Qed.

Lemma cumulative_interest_never_decreases_witness :
  exists c,
    Samples.overviewRun Samples.risingClient Samples.threeSteps = Some c
    /\ (length (Overview.periods c) = 3)%nat
    /\ StronglySorted
         (fun p q => Overview.cumulativeInterest p <= Overview.cumulativeInterest q)
         (Overview.periods c).
Proof.
  eexists. split; [vm_compute; reflexivity|]. split; [reflexivity|].
  refine (proj1 (cumulative_interest_never_decreases Samples.risingClient
                   Samples.threeSteps ∅ _ _)).
  vm_compute. reflexivity.
Defined.

Module PipelineFacts.
Import Overview CacheSpec.

Lemma interactionOfEvent_length cache ev :
  (length (interactionOfEvent cache ev) <= 1)%nat
  /\ (known cache (eventBlock (snd ev)) -> length (interactionOfEvent cache ev) = 1%nat).
Proof.
  unfold interactionOfEvent, known.
  destruct (cache !! eventBlock (snd ev)) as [[[t|] [p|]]|]; simpl; split; try lia;
    intros (t' & p' & H); discriminate H.
Qed.

Lemma flat_map_length_bound cache evs :
  (length (flat_map (interactionOfEvent cache) evs) <= length evs)%nat
  /\ (Forall (fun ev => known cache (eventBlock (snd ev))) evs ->
      length (flat_map (interactionOfEvent cache) evs) = length evs).
Proof.
  induction evs as [|ev evs [IH1 IH2]]; simpl; [split; [lia | reflexivity]|].
  rewrite length_app. destruct (interactionOfEvent_length cache ev) as [H1 H2].
  split; [lia|]. intros H. inversion H as [|? ? Hev Hevs]; subst.
  rewrite (H2 Hev), (IH2 Hevs). reflexivity.
Qed.

End PipelineFacts.

(** X21: the last loop of the calculator's [fetchUserInteractions] keeps
    at most one interaction per event and drops none when every event's
    block has its timestamp and price in the cache; when the sort and the
    period pass of [calculateAverageAPY] return, the ledger holds the
    kept interactions in the order of their blocks, deposits before
    withdrawals inside a block, and there are no more periods than
    interactions. *)
Theorem overview_ledger_is_the_sorted_fetch :
  forall client cache depositEvents withdrawEvents,
    let fetched :=
      Overview.fetchUserInteractions cache depositEvents withdrawEvents in
    (length fetched <= length depositEvents + length withdrawEvents)%nat
    /\ ((forall ev, In ev (depositEvents ++ withdrawEvents) ->
                    CacheSpec.known cache (Overview.eventBlock ev)) ->
        length fetched = (length depositEvents + length withdrawEvents)%nat)
    /\ forall c,
         Overview.calculateAverageAPY client cache depositEvents withdrawEvents
         = Some c ->
         Permutation fetched (Overview.userInteractions c)
         /\ StronglySorted overviewOrder (Overview.userInteractions c)
         /\ (length (Overview.periods c) <= length fetched)%nat.
Proof.
  intros client cache ds ws. cbv zeta.
  pose proof (PipelineFacts.flat_map_length_bound cache
                (map (pair deposit) ds ++ map (pair withdraw) ws)) as [Hle Heq].
  rewrite length_app, !length_map in Hle, Heq.
  split; [exact Hle|]. split.
  { intros Hknown. apply Heq. rewrite List.Forall_forall. intros [k ev] Hin.
    apply Hknown. apply in_app_or in Hin. apply in_or_app.
    destruct Hin as [Hin|Hin]; [left|right];
      apply in_map_iff in Hin; destruct Hin as (e & [= _ <-] & He); exact He. }
  clear Hle Heq. unfold Overview.calculateAverageAPY.
  pose proof (SortingFacts.fetched_depositsFirst cache ds ws) as Hdf.
  remember (Overview.fetchUserInteractions cache ds ws) as fetched eqn:Ef. clear Ef.
  pose proof (SortingFacts.overview_sorted fetched Hdf) as Hsorted.
  pose proof (array_sort_perm Overview.byBlock fetched) as Hperm.
  fold (Overview.sortInteractions fetched) in Hperm.
  destruct fetched as [|u us].
  - intros c [= <-]. simpl. split; [constructor|]. split; [constructor | lia].
  - intros c Hc.
    pose proof (SummaryFacts.pass_keeps_ledger _ _ _ _ Hc) as Hus.
    pose proof (SummaryFacts.pass_count _ _ _ _ Hc) as Hcount.
    rewrite <- (Permutation_length Hperm) in Hcount.
    rewrite Hus. split; [exact Hperm|]. split; [exact Hsorted | exact Hcount].
Qed.

Lemma overview_ledger_is_the_sorted_fetch_witness :
  length (Overview.fetchUserInteractions Samples.twoBlockCache
            Samples.cachedDeposits [])
  = 2%nat
  /\ exists c,
       Overview.calculateAverageAPY Samples.risingClient Samples.twoBlockCache
         Samples.cachedDeposits [] = Some c
       /\ map Overview.blockNumber (Overview.userInteractions c) = [1; 10]
       /\ StronglySorted overviewOrder (Overview.userInteractions c).
Proof.
  split.
  - apply (proj1 (proj2 (overview_ledger_is_the_sorted_fetch Samples.risingClient
                           Samples.twoBlockCache Samples.cachedDeposits []))).
    intros ev [<- | [<- | []]]; eexists; eexists; vm_compute; reflexivity.
  - eexists. split; [vm_compute; reflexivity|]. split; [vm_compute; reflexivity|].
    refine (proj1 (proj2 (proj2 (proj2 (overview_ledger_is_the_sorted_fetch
                                          Samples.risingClient Samples.twoBlockCache
                                          Samples.cachedDeposits [])) _ _))).
    vm_compute. reflexivity.
Defined.

Module RewardTotalsFacts.
Import Tracker TrackerSpec TotalsSpec.

Lemma totalOf_nonneg totals k : totalsPositive totals -> 0 <= totalOf totals k.
Proof.
  intros Hp. unfold totalOf. destruct (totals !! k) as [v|] eqn:E; simpl; [|lia].
  specialize (Hp k v E). lia.
Qed.

Lemma addToTotal_total totals r k :
  totalOf (addToTotal totals r) k
  = if decide (rewardKeyOf r = k)
    then totalOf totals k + rawAmount r
    else totalOf totals k.
Proof.
  unfold totalOf, addToTotal. cbv zeta. fold (rewardKeyOf r). rewrite lookup_insert.
  destruct (decide (rewardKeyOf r = k)) as [<-|]; reflexivity.
Qed.

Lemma addToTotal_positive totals r :
  totalsPositive totals -> positiveReward r -> totalsPositive (addToTotal totals r).
Proof.
  intros Hp Hr k v. unfold addToTotal. cbv zeta. fold (rewardKeyOf r). rewrite lookup_insert.
  destruct (decide (rewardKeyOf r = k)) as [<-|]; [|apply Hp].
  intros [= <-]. pose proof (totalOf_nonneg totals (rewardKeyOf r) Hp) as H.
  unfold totalOf in H. unfold positiveReward in Hr. lia.
Qed.

Lemma fold_addToTotal rs : forall totals,
  totalsPositive totals -> Forall positiveReward rs ->
  totalsPositive (fold_left addToTotal rs totals)
  /\ (forall k, totalOf totals k <= totalOf (fold_left addToTotal rs totals) k)
  /\ counted (fold_left addToTotal rs totals) rs.
Proof.
  induction rs as [|r rs IH]; intros totals Hp Hrs; cbn [fold_left].
  - split; [exact Hp|]. split; [intros k; lia | constructor].
  - inversion Hrs as [|? ? Hr Hrs']; subst.
    destruct (IH (addToTotal totals r) (addToTotal_positive _ _ Hp Hr) Hrs')
      as (Hp' & Hmono & Hcount).
    assert (Hstep : forall k, totalOf totals k <= totalOf (addToTotal totals r) k).
    { intros k. rewrite addToTotal_total. unfold positiveReward in Hr.
      destruct (decide (rewardKeyOf r = k)); lia. }
    split; [exact Hp'|]. split.
    + intros k. specialize (Hstep k). specialize (Hmono k). lia.
    + constructor; [|exact Hcount].
      specialize (Hmono (rewardKeyOf r)). rewrite addToTotal_total in Hmono.
      destruct (decide (rewardKeyOf r = rewardKeyOf r)) as [_|Hne]; [|contradiction].
      pose proof (totalOf_nonneg totals (rewardKeyOf r) Hp). lia.
Qed.

Lemma counted_mono totals totals' rs :
  (forall k, totalOf totals k <= totalOf totals' k) ->
  counted totals rs -> counted totals' rs.
Proof.
  intros Hm. apply List.Forall_impl. intros r Hr. specialize (Hm (rewardKeyOf r)). lia.
Qed.

Lemma fetch_accounted client st sBlock eBlock rs st' :
  accounted st ->
  fetchRewardsForPeriod client st sBlock eBlock = Some (rs, st') ->
  accounted st' /\ counted (totalRewardsAccrued st') rs /\ periods st' = periods st.
Proof.
  intros (Hp & Hc & Hps). unfold fetchRewardsForPeriod.
  destruct (getBlockTimestamp client sBlock) as [s|]; simpl; [|discriminate].
  destruct (getBlockTimestamp client eBlock) as [e|]; simpl; [|discriminate].
  destruct (rewardsCache st !! (s, e)) as [cached|] eqn:Ecache.
  - intros [= <- <-]. split; [split; [exact Hp | split; assumption]|].
    split; [exact (proj2 (Hc _ _ Ecache)) | reflexivity].
  - destruct (calculateRewardsForPeriod client s e) as [rewards|] eqn:Ecalc.
    + intros [= <- <-]. apply TrackerFacts.calculateRewardsForPeriod_positive in Ecalc.
      destruct (fold_addToTotal rewards _ Hp Ecalc) as (Hp' & Hmono & Hcount).
      split; [|split; [exact Hcount | reflexivity]].
      split; [exact Hp'|]. split.
      * intros key rs0.
        change (<[(s, e) := rewards]> (rewardsCache st) !! key = Some rs0 ->
                Forall positiveReward rs0
                /\ counted (fold_left addToTotal rewards (totalRewardsAccrued st)) rs0).
        rewrite lookup_insert.
        destruct (decide ((s, e) = key)).
        -- intros [= <-]. split; [exact Ecalc | exact Hcount].
        -- intros Hk. destruct (Hc _ _ Hk) as [H1 H2].
           split; [exact H1 | exact (counted_mono _ _ _ Hmono H2)].
      * change (Forall (fun p => counted (fold_left addToTotal rewards
                                            (totalRewardsAccrued st))
                                   (rewardsAccrued p)) (periods st)).
        eapply List.Forall_impl; [|exact Hps].
        intros p. apply counted_mono. exact Hmono.
    + intros [= <- <-]. split; [split; [exact Hp | split; assumption]|].
      split; [constructor | reflexivity].
Qed.

Lemma loopBody_accounted client assetData us acc i acc' :
  accounted (snd acc) ->
  loopBody client assetData us acc i = Some acc' ->
  accounted (snd acc').
Proof.
  intros Hacc. unfold loopBody. destruct acc as [shares0 st]. cbn [snd] in Hacc.
  destruct (nth_error us i) as [x|]; [|intros [= <-]; exact Hacc].
  destruct (_ =? 0); [intros [= <-]; exact Hacc|].
  assert (Hpush : forall rs st' p cs,
            accounted st' -> counted (totalRewardsAccrued st') rs ->
            rewardsAccrued p = rs ->
            accounted (snd (cs : Z,
                            {| periods := periods st' ++ [p];
                               rewardsCache := rewardsCache st';
                               totalRewardsAccrued := totalRewardsAccrued st' |}))).
  { intros rs st' p cs (H1 & H2 & H3) Hrs Hp. cbn [snd]. split; [exact H1|].
    split; [exact H2|]. cbn [periods totalRewardsAccrued].
    apply Forall_app. split; [exact H3|]. constructor; [|constructor].
    rewrite Hp. exact Hrs. }
  destruct (i =? length us - 1)%nat.
  - destruct (latestBlock client) as [[eB eT]|]; simpl; [|discriminate].
    destruct (match assetData with Some _ => _ | None => _ end) as [posUsd intUsd].
    destruct (fetchRewardsForPeriod client st (blockNumber x) eB) as [[rs st']|] eqn:Ef;
      simpl; [|discriminate].
    intros [= <-]. apply (fetch_accounted _ _ _ _ _ _ Hacc) in Ef as (Ha & Hcnt & _).
    apply (Hpush rs); [exact Ha | exact Hcnt | reflexivity].
  - destruct (nth_error us (i + 1)) as [n|]; simpl; [|discriminate].
    destruct (blockNumber x =? blockNumber n); [intros [= <-]; exact Hacc|].
    destruct (match assetData with Some _ => _ | None => _ end) as [posUsd intUsd].
    destruct (fetchRewardsForPeriod client st (blockNumber x) (blockNumber n))
      as [[rs st']|] eqn:Ef; simpl; [|discriminate].
    intros [= <-]. apply (fetch_accounted _ _ _ _ _ _ Hacc) in Ef as (Ha & Hcnt & _).
    apply (Hpush rs); [exact Ha | exact Hcnt | reflexivity].
Qed.

Lemma calculatePeriods_accounted client assetData us st :
  calculatePeriods client assetData us = Some st -> accounted st.
Proof.
  unfold calculatePeriods.
  destruct (for_each _ _ _) as [[cs st0]|] eqn:Eloop; simpl; [|discriminate].
  intros [= <-].
  change st0 with (snd (cs, st0)).
  eapply (for_each_preserves (fun acc => accounted (snd acc))); [| |exact Eloop].
  - intros s i s' Hs. apply loopBody_accounted. exact Hs.
  - cbn [snd]. split; [|split].
    + intros k v H. cbn in H. rewrite lookup_empty in H. discriminate H.
    + intros key rs H. cbn in H. rewrite lookup_empty in H. discriminate H.
    + constructor.
Qed.

End RewardTotalsFacts.

(** X22: after the period pass every total of [totalRewardsAccrued] is
    positive, and the total kept for an asset is at least each accrual of
    that asset listed in a period, so every rewarded asset has a
    total. *)
Theorem reward_totals_cover_listed_accruals :
  forall client assetData us st,
    Tracker.calculatePeriods client assetData us = Some st ->
    (forall k v, Tracker.totalRewardsAccrued st !! k = Some v -> 0 < v)
    /\ (forall p r,
          In p (Tracker.periods st) -> In r (Tracker.rewardsAccrued p) ->
          exists total,
            Tracker.totalRewardsAccrued st
              !! (Tracker.chainId r, Tracker.assetAddress r) = Some total
            /\ 0 < Tracker.rawAmount r <= total).
Proof.
  intros client assetData us st Hrun.
  destruct (RewardTotalsFacts.calculatePeriods_accounted _ _ _ _ Hrun) as (Hp & _ & Hps).
  split; [exact Hp|]. intros p r Hin Hr.
  pose proof (TrackerFacts.calculatePeriods_emitted _ _ _ _ Hrun) as Hem.
  rewrite List.Forall_forall in Hem, Hps.
  pose proof (TrackerSpec.emitted_rewards _ _ _ (Hem p Hin)) as Hpos.
  specialize (Hps p Hin). unfold TotalsSpec.counted in Hps.
  rewrite List.Forall_forall in Hpos, Hps.
  specialize (Hpos r Hr). specialize (Hps r Hr).
  unfold TrackerSpec.positiveReward in Hpos.
  unfold TotalsSpec.totalOf, TotalsSpec.rewardKeyOf in Hps.
  destruct (Tracker.totalRewardsAccrued st !! (Tracker.chainId r, Tracker.assetAddress r))
    as [total|]; simpl in Hps; [|lia].
  exists total. split; [reflexivity | lia].
Qed.

Lemma reward_totals_cover_listed_accruals_witness :
  exists st,
    Tracker.calculatePeriods Samples.rewardingClient None Samples.soleDeposit = Some st
    /\ Tracker.totalRewardsAccrued st !! (8453, "0xA"%string) = Some 7
    /\ forall k v, Tracker.totalRewardsAccrued st !! k = Some v -> 0 < v.
Proof.
  eexists. split; [vm_compute; reflexivity|]. split; [vm_compute; reflexivity|].
  refine (proj1 (reward_totals_cover_listed_accruals Samples.rewardingClient None
                   Samples.soleDeposit _ _)).
  vm_compute. reflexivity.
Defined.
